(** * LoanCentral: the command parser, the loan state machine and the ledger

    A shallow embedding of [loan_central_bot.py].  The PostgreSQL store is a
    pair of tables ([loans], [users]) plus the sequence behind the [SERIAL]
    column; every handler is a function from the store to the store paired
    with what the handler did towards the comment author.

    Conventions of the embedding.
    - Text is a [string] of 8-bit characters, read as ASCII: letters, digits
      and white space are the ASCII ones. Python's [str] is Unicode, where
      [re.IGNORECASE], [\s], [\d], [str.lower] and [str.upper] also act on
      code points beyond ASCII; the statements that depend on the
      difference are made for ASCII text.
    - [NUMERIC] values, and the [Decimal] values read from a comment, are
      exact rationals ([Q]). The arithmetic of SQL on them is exact; the
      arithmetic of Python on them ([+], [-], [sum]) rounds to the 28
      significant digits of the default decimal context, half to even
      ([DecimalContext]). The exponent limits of the context and the digit
      limit of [NUMERIC] lie beyond the length of a comment and are left
      out.
    - An [id] named in a comment is read by PostgreSQL as an [INTEGER]: past
      2147483647 the statement fails. The sequence behind [SERIAL] and the
      [INTEGER] counters of [users] are unbounded integers ([Z]).
    - The database connection is up and [comment.reply] delivers: the only
      store failures modelled are the ones the schema itself raises on the
      [INSERT] into [loans], its [UNIQUE] and [PRIMARY KEY] constraints.
    - All [datetime.now()] readings taken while one comment is handled are
      one reading. *)

From Stdlib Require Import ZArith QArith Qminmax Qpower Lqa String Ascii List Bool Lia.
From stdpp Require Import gmap strings list fin_maps.
Import ListNotations.

Local Open Scope Z_scope.
Local Open Scope string_scope.

(** ** Text *)

Module Text.

Definition code (c : ascii) : nat := nat_of_ascii c.

Definition between (lo hi : nat) (c : ascii) : bool :=
  (lo <=? code c)%nat && (code c <=? hi)%nat.

Definition is_upper : ascii -> bool := between 65 90.
Definition is_lower : ascii -> bool := between 97 122.
Definition is_digit : ascii -> bool := between 48 57.

(** [[A-Z]] under [re.IGNORECASE], on ASCII text. (Of the code points
    beyond ASCII, Python admits U+0130, U+0131, U+017F and U+212A as well.) *)
Definition is_letter (c : ascii) : bool := is_upper c || is_lower c.

(** [\s] on ASCII text: tab, line feed, vertical tab, form feed, carriage
    return, the four separators 28..31, and the space. (Beyond ASCII, Python
    counts U+0085, U+00A0 and the Unicode spaces as well.) *)
Definition is_space (c : ascii) : bool :=
  between 9 13 c || between 28 32 c.

Definition lower_char (c : ascii) : ascii :=
  if is_upper c then ascii_of_nat (code c + 32) else c.

Definition upper_char (c : ascii) : ascii :=
  if is_lower c then ascii_of_nat (code c - 32) else c.

(** [str.lower()] and [str.upper()]. *)
Fixpoint lower (s : string) : string :=
  match s with
  | EmptyString => EmptyString
  | String c t => String (lower_char c) (lower t)
  end.

Fixpoint upper (s : string) : string :=
  match s with
  | EmptyString => EmptyString
  | String c t => String (upper_char c) (upper t)
  end.

Fixpoint starts_with (p s : string) : bool :=
  match p, s with
  | EmptyString, _ => true
  | String a p', String b s' => Ascii.eqb a b && starts_with p' s'
  | String _ _, EmptyString => false
  end.

(** [needle in hay]. *)
Fixpoint contains (needle hay : string) : bool :=
  starts_with needle hay
  || match hay with
     | EmptyString => false
     | String _ t => contains needle t
     end.

Definition chars (s : string) : list ascii := list_ascii_of_string s.
Definition text (l : list ascii) : string := string_of_list_ascii l.

(** The text is ASCII: [str.isascii()]. *)
Definition is_ascii (s : string) : bool :=
  forallb (fun c => (code c <? 128)%nat) (chars s).

End Text.

(** ** The regular expressions of the handlers

    Each pattern of the source is a concatenation in which every repetition
    is followed by something its own characters cannot start ([\s+] by a
    digit or a letter, [\d+] by a dot or white space, [[^\s]+] by white
    space), so the backtracking matcher of [re] never has a choice: at a
    given start the greedy scan below finds the match iff there is one.
    [re.search] tries the starts from left to right. *)

Module Regex.
Import Text.

(** What is left of the subject after a step, or [None] when the step does
    not match. *)
Definition scan (A : Type) : Type := list ascii -> option (A * list ascii).

Fixpoint span (p : ascii -> bool) (s : list ascii) : list ascii * list ascii :=
  match s with
  | c :: t => if p c then let (a, b) := span p t in (c :: a, b) else ([], s)
  | [] => ([], [])
  end.

(** [p+], greedy. *)
Definition many1 (p : ascii -> bool) : scan (list ascii) :=
  fun s => match span p s with
           | ([], _) => None
           | (a, rest) => Some (a, rest)
           end.

(** A literal of ASCII characters; [ci] is [re.IGNORECASE] on ASCII text.
    (Beyond ASCII, Python lets U+017F match [s], U+0130 and U+0131 match [i]
    and U+212A match [k].) *)
Fixpoint lit (ci : bool) (p : list ascii) (s : list ascii) : option (list ascii) :=
  match p, s with
  | [], _ => Some s
  | a :: p', b :: s' =>
      if (if ci then Ascii.eqb (lower_char a) (lower_char b) else Ascii.eqb a b)
      then lit ci p' s' else None
  | _ :: _, [] => None
  end.

(** [(\d+(?:\.\d+)?)]: the integer digits and the fraction digits. *)
Definition number : scan (list ascii * list ascii) :=
  fun s =>
    match many1 is_digit s with
    | None => None
    | Some (ip, rest) =>
        match rest with
        | "."%char :: rest' =>
            match many1 is_digit rest' with
            | Some (fp, rest'') => Some ((ip, fp), rest'')
            | None => Some ((ip, []), rest)
            end
        | _ => Some ((ip, []), rest)
        end
    end.

(** [([A-Z]{3})]; [ci] adds the lower-case letters (see [is_letter]). *)
Definition ccy (ci : bool) : scan (list ascii) :=
  fun s =>
    let ok := if ci then is_letter else is_upper in
    match s with
    | a :: b :: c :: rest =>
        if ok a && ok b && ok c then Some ([a; b; c], rest) else None
    | _ => None
    end.

(** [re.search]: the leftmost start at which [m] matches. *)
Fixpoint search {A : Type} (m : list ascii -> option A) (s : list ascii) : option A :=
  match m s with
  | Some r => Some r
  | None => match s with
            | [] => None
            | _ :: t => search m t
            end
  end.

Definition digit_value (c : ascii) : Z := Z.of_nat (code c - 48).

(** [int] of a run of digits, as PostgreSQL and [Decimal] read it. *)
Definition digits_value (ds : list ascii) : Z :=
  fold_left (fun acc c => 10 * acc + digit_value c) ds 0.

Fixpoint pow10 (n : nat) : positive :=
  match n with
  | O => 1%positive
  | S k => (10 * pow10 k)%positive
  end.

(** [Decimal(m.group(i))] for a group matched by [number]. *)
Definition decimal (ip fp : list ascii) : Q :=
  Qmake (digits_value (ip ++ fp)) (pow10 (length fp)).

End Regex.

(** ** The patterns of the five handlers *)

Module Patterns.
Import Text Regex.

Definition fence : list ascii := chars "```".

(** The subject after the first occurrence of [p]. *)
Fixpoint after_first (p s : list ascii) : option (list ascii) :=
  match lit false p s with
  | Some rest => Some rest
  | None => match s with
            | [] => None
            | _ :: t => after_first p t
            end
  end.

(** The subject up to the first occurrence of [p]. *)
Fixpoint before_first (p s : list ascii) : option (list ascii) :=
  match lit false p s with
  | Some _ => Some []
  | None => match s with
            | [] => None
            | c :: t => option_map (cons c) (before_first p t)
            end
  end.

Fixpoint rstrip (s : list ascii) : list ascii :=
  match s with
  | [] => []
  | c :: t => match rstrip t with
              | [] => if is_space c then [] else [c]
              | t' => c :: t'
              end
  end.

(** [re.findall(r'```\s*(.*?)\s*```', body, re.DOTALL)], of which the
    handlers read element 0 only: the text between the first fence and the
    next one, without the white space at either end. *)
Definition code_block_regex (body : string) : option string :=
  opened ← after_first fence (chars body);
  inner ← before_first fence (snd (span is_space opened));
  Some (text (rstrip inner)).

(** [text_to_search = code_blocks[0] if code_blocks else comment.body] *)
Definition text_to_search (body : string) : string :=
  match code_block_regex body with
  | Some block => block
  | None => body
  end.

Definition not_space (c : ascii) : bool := negb (is_space c).

(** [\s+(\d+(?:\.\d+)?)\s+([A-Z]{3})], the tail shared by the loan, confirm
    and paid patterns; the groups are returned as matched. *)
Definition amount_ccy : scan (string * string) :=
  fun s =>
    '(_, s) ← many1 is_space s;
    '((ip, fp), s) ← number s;
    '(_, s) ← many1 is_space s;
    '(c, s) ← ccy true s;
    Some ((text (ip ++ match fp with [] => [] | _ => "."%char :: fp end), text c), s).

(** [r'\$loan\s+(\d+(?:\.\d+)?)\s+([A-Z]{3})], [re.IGNORECASE] *)
Definition loan_regex (body : string) : option (string * string) :=
  search (fun s =>
    s ← lit true (chars "$loan") s;
    '(g, _) ← amount_ccy s;
    Some g) (chars body).

(** The confirm pattern after its [/u/] or [u/] prefix [pre]. *)
Definition confirm_with (pre : string) (subject : string)
  : option (string * string * string) :=
  search (fun s =>
    s ← lit true (chars "$confirm") s;
    '(_, s) ← many1 is_space s;
    s ← lit true (chars pre) s;
    '(name, s) ← many1 not_space s;
    '((amount, currency), _) ← amount_ccy s;
    Some (text name, amount, currency)) (chars subject).

(** [r'\$confirm\s+\/u\/([^\s]+)\s+(\d+(?:\.\d+)?)\s+([A-Z]{3})'] *)
Definition confirm_regex : string -> option (string * string * string) :=
  confirm_with "/u/".

(** [r'\$confirm\s+u\/([^\s]+)\s+(\d+(?:\.\d+)?)\s+([A-Z]{3})'] *)
Definition alt_confirm_regex : string -> option (string * string * string) :=
  confirm_with "u/".

(** [r'\$paid_with_id\s+(\d+)\s+(\d+(?:\.\d+)?)\s+([A-Z]{3})'] *)
Definition paid_regex (subject : string) : option (string * string * string) :=
  search (fun s =>
    s ← lit true (chars "$paid_with_id") s;
    '(_, s) ← many1 is_space s;
    '(loan_id, s) ← many1 is_digit s;
    '((amount, currency), _) ← amount_ccy s;
    Some (text loan_id, amount, currency)) (chars subject).

Definition not_space_nor_dot (c : ascii) : bool :=
  negb (is_space c) && negb (Ascii.eqb c "."%char).

(** [r'u\/([^\s]+) has confirmed receiving (\d+(?:\.\d+)?)\s+([A-Z]{3}) from u\/([^\s\.]+)'],
    case-sensitive: groups borrower, amount, currency, lender. *)
Definition refund_loan_regex (parent_body : string)
  : option (string * string * string * string) :=
  search (fun s =>
    s ← lit false (chars "u/") s;
    '(g1, s) ← many1 not_space s;
    s ← lit false (chars " has confirmed receiving ") s;
    '((ip, fp), s) ← number s;
    '(_, s) ← many1 is_space s;
    '(g3, s) ← ccy false s;
    s ← lit false (chars " from u/") s;
    '(g4, _) ← many1 not_space_nor_dot s;
    Some (text g1,
          text (ip ++ match fp with [] => [] | _ => "."%char :: fp end),
          text g3, text g4)) (chars parent_body).

(** [r"\$stats\s+(?:/u/|u/)([^\s]+)"], [re.IGNORECASE] *)
Definition stats_regex (body : string) : option string :=
  search (fun s =>
    s ← lit true (chars "$stats") s;
    '(_, s) ← many1 is_space s;
    s ← match lit true (chars "/u/") s with
        | Some s' => Some s'
        | None => lit true (chars "u/") s
        end;
    '(name, _) ← many1 not_space s;
    Some (text name)) (chars body).

(** [Decimal(group)]: the digits before and after the point. *)
Definition Decimal (group : string) : Q :=
  let (ip, rest) := span (fun c => negb (Ascii.eqb c "."%char)) (chars group) in
  decimal ip (tl rest).

(** A digit group handed to SQL as an [INTEGER]. *)
Definition sql_int (group : string) : Z := digits_value (chars group).

End Patterns.

(** ** Python's decimal arithmetic

    [a + b] and [a - b] on [Decimal] values are the exact result brought
    into the context: at most [prec] significant digits, the rest rounded
    away with [ROUND_HALF_EVEN]. The result depends on the value of the
    exact result only, not on how its digits are written. *)

Module DecimalContext.

Local Open Scope Z_scope.

(** [getcontext().prec] *)
Definition prec : Z := 28.

(** The number of decimal digits of [n >= 1]. *)
Fixpoint digits_upto (fuel : nat) (n : Z) : Z :=
  match fuel with
  | O => 1
  | S f => if n <? 10 then 1 else 1 + digits_upto f (n / 10)
  end.

Definition ndigits (n : Z) : Z := digits_upto (Z.to_nat (Z.log2 n)) n.

(** [10 ^ t <= n / d], for [d > 0] and any sign of [t]. *)
Definition reaches (t : Z) (n d : Z) : bool :=
  if 0 <=? t then d * 10 ^ t <=? n else d <=? n * 10 ^ (- t).

(** The exponent of the leading digit of [n / d], for [n, d >= 1]. *)
Definition adjusted (n d : Z) : Z :=
  let t := ndigits n - ndigits d in
  if reaches t n d then t else t - 1.

(** [n / d] as an integer, [ROUND_HALF_EVEN]. *)
Definition round_half_even (n d : Z) : Z :=
  let q := n / d in
  let r := n mod d in
  if 2 * r <? d then q
  else if d <? 2 * r then q + 1
  else if Z.even q then q else q + 1.

(** [m * 10 ^ k] *)
Definition scaled (k : Z) (m : Z) : Q :=
  if 0 <=? k then inject_Z (m * 10 ^ k) else Qmake m (Z.to_pos (10 ^ (- k))).

(** An exact result in the context: the [prec] leading digits of [x] are
    kept, the last of them rounded. *)
Definition rounded (x : Q) : Q :=
  let x := Qred x in
  let n := Z.abs (Qnum x) in
  let d := Z.pos (Qden x) in
  if n =? 0 then 0%Q
  else
    let k := adjusted n d - (prec - 1) in
    let j := if 0 <=? k then round_half_even n (d * 10 ^ k)
             else round_half_even (n * 10 ^ (- k)) d in
    Qred (scaled k (Z.sgn (Qnum x) * j)).

(** [Decimal.__add__] and [Decimal.__sub__] *)
Definition add (a b : Q) : Q := rounded (a + b).
Definition sub (a b : Q) : Q := rounded (a - b).

(** [sum(...)] of [Decimal] values: from the [int] 0, left to right. *)
Definition sum (amounts : list Q) : Q := fold_left add amounts 0%Q.

(** A value of at most [prec] significant digits. *)
Definition representable (x : Q) : Prop :=
  exists m t : Z, Z.abs m < 10 ^ prec /\ (x == inject_Z m * 10 ^ t)%Q.

End DecimalContext.

(** ** The ledger store *)

(** [CREATE TABLE loans]: one record per row. *)
Module loans.

(** The values the handlers and the column default give to [status]. *)
Inductive status_text : Set :=
| active
| confirmed
| partially_repaid
| repaid
| refunded.

Definition status_eqb (a b : status_text) : bool :=
  match a, b with
  | active, active | confirmed, confirmed
  | partially_repaid, partially_repaid
  | repaid, repaid | refunded, refunded => true
  | _, _ => false
  end.

Record row : Type := mk {
  id : Z;                      (* SERIAL PRIMARY KEY *)
  loan_id : Z;                 (* TEXT UNIQUE, the decimal text of an integer *)
  lender : string;
  borrower : string;
  amount : Q;
  currency : string;
  date_created : Z;
  original_thread : string;
  status : status_text;        (* DEFAULT 'active' *)
  amount_repaid : Q;           (* DEFAULT 0 *)
  last_updated : option Z
}.

End loans.

(** [CREATE TABLE users]: the row of one [username], the primary key. *)
Module users.

Record row : Type := mk {
  loans_as_borrower : Z;
  loans_as_lender : Z;
  amount_borrowed : Q;
  amount_lent : Q;
  amount_repaid : Q;
  unpaid_loans : Z;
  unpaid_amount : Q;
  last_updated : option Z
}.

End users.

(** The database: the rows of [loans] in insertion order, the rows of
    [users] by key, and the next value of the sequence of [loans.id]. *)
Record DB : Type := mkDB {
  loans_rows : list loans.row;
  users_rows : gmap string users.row;
  loans_id_seq : Z
}.

(** The store [init_database] leaves on a fresh database. *)
Definition init_database : DB :=
  {| loans_rows := []; users_rows := ∅; loans_id_seq := 1 |}.

(** [GREATEST(a, b)] on [NUMERIC]; on [INTEGER] it is [Z.max]. *)
Definition GREATEST (a b : Q) : Q := if Qle_bool a b then b else a.

Module Store.

(** [UPDATE loans SET ... WHERE id = key] *)
Definition update_loan (key : Z) (f : loans.row -> loans.row)
  (rows : list loans.row) : list loans.row :=
  map (fun r => if Z.eqb (loans.id r) key then f r else r) rows.

(** [UPDATE users SET ... WHERE username = key]: no row, no change. *)
Definition update_user (key : string) (f : users.row -> users.row)
  (rows : gmap string users.row) : gmap string users.row :=
  match rows !! key with
  | Some r => <[key := f r]> rows
  | None => rows
  end.

(** [INSERT INTO users ... ON CONFLICT (username) DO UPDATE SET ...] *)
Definition upsert_user (key : string) (fresh : users.row)
  (f : users.row -> users.row)
  (rows : gmap string users.row) : gmap string users.row :=
  match rows !! key with
  | Some r => <[key := f r]> rows
  | None => <[key := fresh]> rows
  end.

(** The greatest value of an [INTEGER] column. *)
Definition INTEGER_max : Z := 2147483647.

(** [WHERE id = %s] with the digits of a comment for [%s]: PostgreSQL reads
    them as an [INTEGER] and fails the statement when they are out of its
    range. The sequence of this model is not stopped at that range, so the
    ids it has handed out count as within it. *)
Definition reads_as_id (key : Z) (db : DB) : bool :=
  Z.leb key INTEGER_max || Z.ltb key (loans_id_seq db).

(** [SELECT ... FROM loans WHERE id = %s AND lender = %s], [fetchone()] *)
Definition select_for_payment (key : Z) (lender : string)
  (rows : list loans.row) : option loans.row :=
  List.find (fun r => Z.eqb (loans.id r) key && String.eqb (loans.lender r) lender) rows.

(** [SELECT ... FROM loans WHERE id = %s], [fetchone()] *)
Definition select_by_id (key : Z) (rows : list loans.row) : option loans.row :=
  List.find (fun r => Z.eqb (loans.id r) key) rows.

(** The [WHERE] clause of the refund lookup. *)
Definition refund_where (lender borrower : string) (amount : Q)
  (currency : string) (r : loans.row) : bool :=
  String.eqb (loans.lender r) lender
  && String.eqb (loans.borrower r) borrower
  && Qeq_bool (loans.amount r) amount
  && String.eqb (loans.currency r) currency.

(** [ORDER BY date_created DESC LIMIT 1] over rows already filtered: a row
    with the greatest [date_created]; among equal dates, which SQL leaves
    open, the one inserted first. *)
Fixpoint latest (rows : list loans.row) : option loans.row :=
  match rows with
  | [] => None
  | r :: rest =>
      match latest rest with
      | Some r' =>
          if Z.ltb (loans.date_created r) (loans.date_created r')
          then Some r' else Some r
      | None => Some r
      end
  end.

(** [SELECT id FROM loans WHERE lender = %s AND borrower = %s AND
    amount = %s AND currency = %s ORDER BY date_created DESC LIMIT 1] *)
Definition select_for_refund (lender borrower : string) (amount : Q)
  (currency : string) (rows : list loans.row) : option loans.row :=
  latest (List.filter (refund_where lender borrower amount currency) rows).

End Store.

(** ** Comments, clock readings and what a handler answers *)

(** [comment.parent()]: a comment, or the submission for a top-level
    comment; a submission has no [body] attribute. *)
Record Parent : Type := mkParent {
  parent_author : option string;
  parent_body : option string
}.

(** The attributes of a PRAW comment the handlers read; an author is [None]
    when the account is deleted. *)
Record Comment : Type := mkComment {
  author : option string;
  body : string;
  submission_author : option string;
  submission_permalink : string;
  parent : Parent
}.

Record Clock : Type := mkClock {
  time_time : Z;       (* int(time.time()) *)
  datetime_now : Z     (* datetime.now() *)
}.

(** The payload of each [comment.reply(...)] of the source. *)
Inductive Reply : Type :=
| OfferSeen (lender borrower : string) (amount : Q) (currency : string)
| Confirmed (borrower lender : string) (amount : Q) (currency : string) (db_id : Z)
| LoanNotFound (loan_id : Z)
| CurrencyMismatch (loan_currency currency : string)
| PaymentRecorded (borrower lender : string) (amount_paid : Q) (currency : string)
    (loan_before loan_after : loans.row) (remaining : Q)
| OnlyLender
| RefundNotFound (borrower : string) (amount : Q) (currency : string)
| Refunded (lender borrower : string) (amount : Q) (currency : string)
| StatsReport (user : string).

(** How a handler call ends. *)
Inductive Outcome : Type :=
| Silent                 (* [return] before any reply *)
| Replied (r : Reply)
| Caught                 (* the handler's [except]: [conn.rollback()], log *)
| Raised.                (* an exception leaves the handler *)

(** The replies that report an error to the user. *)
Definition is_error (o : Outcome) : bool :=
  match o with
  | Replied (LoanNotFound _) | Replied (CurrencyMismatch _ _)
  | Replied OnlyLender | Replied (RefundNotFound _ _ _) => true
  | _ => false
  end.

(** ** The handlers *)

Section Handlers.
Import Text Patterns.

(** [os.getenv("REDDIT_USERNAME")] *)
Variable REDDIT_USERNAME : string.

Definition thread_url (c : Comment) : string :=
  "https://www.reddit.com" ++ submission_permalink c.

Definition process_loan_command (c : Comment) (db : DB) : DB * Outcome :=
  match loan_regex (body c) with
  | None => (db, Silent)
  | Some (g1, g2) =>
      match author c, submission_author c with
      | Some a, Some pa =>
          let lender := lower a in
          let borrower := lower pa in
          let amount := Decimal g1 in
          let currency := upper g2 in
          if String.eqb borrower lender then (db, Silent)
          else (db, Replied (OfferSeen lender borrower amount currency))
      | _, _ => (db, Raised)
      end
  end.

Definition confirm_match (c : Comment) : option (string * string * string) :=
  let subject := text_to_search (body c) in
  match confirm_regex subject with
  | Some m => Some m
  | None => alt_confirm_regex subject
  end.

Definition new_loan (db_id loan_id : Z) (lender borrower : string) (amount : Q)
  (currency : string) (now : Z) (url : string) : loans.row :=
  {| loans.id := db_id; loans.loan_id := loan_id;
     loans.lender := lender; loans.borrower := borrower;
     loans.amount := amount; loans.currency := currency;
     loans.date_created := now; loans.original_thread := url;
     loans.status := loans.confirmed; loans.amount_repaid := 0%Q;
     loans.last_updated := None |}.

(** The lender's row of the confirm handler: inserted, or updated on
    conflict. *)
Definition fresh_lender (amount : Q) (now : Z) : users.row :=
  users.mk 0 1 0%Q amount 0%Q 0 0%Q (Some now).

Definition bump_lender (amount : Q) (now : Z) (u : users.row) : users.row :=
  users.mk (users.loans_as_borrower u) (users.loans_as_lender u + 1)
    (users.amount_borrowed u) (users.amount_lent u + amount)%Q
    (users.amount_repaid u) (users.unpaid_loans u) (users.unpaid_amount u)
    (Some now).

Definition fresh_borrower (amount : Q) (now : Z) : users.row :=
  users.mk 1 0 amount 0%Q 0%Q 0 0%Q (Some now).

Definition bump_borrower (amount : Q) (now : Z) (u : users.row) : users.row :=
  users.mk (users.loans_as_borrower u + 1) (users.loans_as_lender u)
    (users.amount_borrowed u + amount)%Q (users.amount_lent u)
    (users.amount_repaid u) (users.unpaid_loans u) (users.unpaid_amount u)
    (Some now).

Definition process_confirm_command (clk : Clock) (c : Comment) (db : DB)
  : DB * Outcome :=
  match confirm_match c with
  | None => (db, Silent)
  | Some (g1, g2, g3) =>
      match author c with
      | None => (db, Raised)
      | Some a =>
          let borrower := lower a in
          let lender := lower g1 in
          let amount := Decimal g2 in
          let currency := upper g3 in
          let loan_id := time_time clk in
          let now := datetime_now clk in
          let db_id := loans_id_seq db in
          if existsb (fun r => Z.eqb (loans.loan_id r) loan_id
                               || Z.eqb (loans.id r) db_id) (loans_rows db)
          then
            (* the UNIQUE or the PRIMARY KEY constraint fails the INSERT; the
               rollback keeps the tables, the sequence value stays consumed *)
            ({| loans_rows := loans_rows db; users_rows := users_rows db;
                loans_id_seq := db_id + 1 |}, Caught)
          else
            let rows :=
              (loans_rows db ++
               [new_loan db_id loan_id lender borrower amount currency now
                  (thread_url c)])%list in
            let us := Store.upsert_user lender (fresh_lender amount now)
                        (bump_lender amount now) (users_rows db) in
            let us := Store.upsert_user borrower (fresh_borrower amount now)
                        (bump_borrower amount now) us in
            ({| loans_rows := rows; users_rows := us;
                loans_id_seq := db_id + 1 |},
             Replied (Confirmed borrower lender amount currency db_id))
      end
  end.

Definition set_repaid (new_repaid : Q) (new_status : loans.status_text)
  (now : Z) (r : loans.row) : loans.row :=
  {| loans.id := loans.id r; loans.loan_id := loans.loan_id r;
     loans.lender := loans.lender r; loans.borrower := loans.borrower r;
     loans.amount := loans.amount r; loans.currency := loans.currency r;
     loans.date_created := loans.date_created r;
     loans.original_thread := loans.original_thread r;
     loans.status := new_status; loans.amount_repaid := new_repaid;
     loans.last_updated := Some now |}.

Definition add_repaid (amount_paid : Q) (now : Z) (u : users.row) : users.row :=
  users.mk (users.loans_as_borrower u) (users.loans_as_lender u)
    (users.amount_borrowed u) (users.amount_lent u)
    (users.amount_repaid u + amount_paid)%Q
    (users.unpaid_loans u) (users.unpaid_amount u) (Some now).

Definition settle_unpaid (loan_amount : Q) (now : Z) (u : users.row) : users.row :=
  users.mk (users.loans_as_borrower u) (users.loans_as_lender u)
    (users.amount_borrowed u) (users.amount_lent u) (users.amount_repaid u)
    (Z.max (users.unpaid_loans u - 1) 0)
    (GREATEST (users.unpaid_amount u - loan_amount) 0)%Q (Some now).

Definition process_paid_command (clk : Clock) (c : Comment) (db : DB)
  : DB * Outcome :=
  match paid_regex (text_to_search (body c)) with
  | None => (db, Silent)
  | Some (g1, g2, g3) =>
      match author c with
      | None => (db, Raised)
      | Some a =>
          let lender := lower a in
          let loan_id := sql_int g1 in
          let amount_paid := Decimal g2 in
          let currency := upper g3 in
          let now := datetime_now clk in
          if negb (Store.reads_as_id loan_id db)
          then (db, Caught)   (* the first [SELECT] raises *)
          else
          match Store.select_for_payment loan_id lender (loans_rows db) with
          | None => (db, Replied (LoanNotFound loan_id))
          | Some result =>
              let borrower := loans.borrower result in
              let loan_amount := loans.amount result in
              let already_repaid := loans.amount_repaid result in
              let loan_currency := loans.currency result in
              if negb (String.eqb loan_currency currency)
              then (db, Replied (CurrencyMismatch loan_currency currency))
              else
                let loan_before := Store.select_by_id loan_id (loans_rows db) in
                let new_repaid_amount :=
                  DecimalContext.add already_repaid amount_paid in
                let new_status :=
                  if Qle_bool loan_amount new_repaid_amount
                  then loans.repaid else loans.partially_repaid in
                let rows := Store.update_loan loan_id
                              (set_repaid new_repaid_amount new_status now)
                              (loans_rows db) in
                let us := Store.update_user borrower
                            (add_repaid amount_paid now) (users_rows db) in
                let us :=
                  if loans.status_eqb new_status loans.repaid
                  then Store.update_user borrower
                         (settle_unpaid loan_amount now) us
                  else us in
                let loan_after := Store.select_by_id loan_id rows in
                let db' := {| loans_rows := rows; users_rows := us;
                              loans_id_seq := loans_id_seq db |} in
                let remaining :=
                  DecimalContext.sub loan_amount new_repaid_amount in
                match loan_before, loan_after with
                | Some before, Some after =>
                    (db', Replied
                       (PaymentRecorded borrower lender amount_paid currency
                          before after
                          (if negb (Qle_bool remaining 0) then remaining else 0%Q)))
                | _, _ => (db', Caught)
                end
          end
      end
  end.

Definition mark_refunded (now : Z) (r : loans.row) : loans.row :=
  {| loans.id := loans.id r; loans.loan_id := loans.loan_id r;
     loans.lender := loans.lender r; loans.borrower := loans.borrower r;
     loans.amount := loans.amount r; loans.currency := loans.currency r;
     loans.date_created := loans.date_created r;
     loans.original_thread := loans.original_thread r;
     loans.status := loans.refunded;
     loans.amount_repaid := loans.amount_repaid r;
     loans.last_updated := Some now |}.

Definition drop_lender (amount : Q) (now : Z) (u : users.row) : users.row :=
  users.mk (users.loans_as_borrower u) (Z.max (users.loans_as_lender u - 1) 0)
    (users.amount_borrowed u) (GREATEST (users.amount_lent u - amount) 0)%Q
    (users.amount_repaid u) (users.unpaid_loans u) (users.unpaid_amount u)
    (Some now).

Definition drop_borrower (amount : Q) (now : Z) (u : users.row) : users.row :=
  users.mk (Z.max (users.loans_as_borrower u - 1) 0) (users.loans_as_lender u)
    (GREATEST (users.amount_borrowed u - amount) 0)%Q (users.amount_lent u)
    (users.amount_repaid u) (users.unpaid_loans u) (users.unpaid_amount u)
    (Some now).

Definition process_refund_command (clk : Clock) (c : Comment) (db : DB)
  : DB * Outcome :=
  match parent_author (parent c) with
  | None => (db, Silent)
  | Some pa =>
      if negb (String.eqb (lower pa) (lower REDDIT_USERNAME)) then (db, Silent)
      else if negb (contains "refunded" (lower (body c))) then (db, Silent)
      else
        match parent_body (parent c) with
        | None => (db, Raised)
        | Some pb =>
            match refund_loan_regex pb with
            | None => (db, Silent)
            | Some (g1, g2, g3, g4) =>
                let borrower := lower g1 in
                let amount := Decimal g2 in
                let currency := g3 in
                let lender := lower g4 in
                let now := datetime_now clk in
                match author c with
                | None => (db, Raised)
                | Some a =>
                    if negb (String.eqb (lower a) lender)
                    then (db, Replied OnlyLender)
                    else
                      match Store.select_for_refund lender borrower amount
                              currency (loans_rows db) with
                      | None =>
                          (db, Replied (RefundNotFound borrower amount currency))
                      | Some result =>
                          let loan_id := loans.id result in
                          let rows := Store.update_loan loan_id
                                        (mark_refunded now) (loans_rows db) in
                          let us := Store.update_user lender
                                      (drop_lender amount now) (users_rows db) in
                          let us := Store.update_user borrower
                                      (drop_borrower amount now) us in
                          ({| loans_rows := rows; users_rows := us;
                              loans_id_seq := loans_id_seq db |},
                           Replied (Refunded lender borrower amount currency))
                      end
                end
            end
        end
  end.

(** The account statistics come from the platform, not from the store;
    every path past the pattern ends in a reply. *)
Definition process_stats_command (c : Comment) (db : DB) : DB * Outcome :=
  match stats_regex (body c) with
  | None => (db, Silent)
  | Some g => (db, Replied (StatsReport (lower g)))
  end.

(** ** The comment loop *)

Inductive Handler : Set :=
| loan_command
| confirm_command
| paid_command
| refund_command
| stats_command.

(** The keyword the loop looks for before it calls a handler. *)
Definition marker (h : Handler) : string :=
  match h with
  | loan_command => "$loan"
  | confirm_command => "$confirm"
  | paid_command => "$paid_with_id"
  | refund_command => "refunded"
  | stats_command => "$stats"
  end.

Definition run (h : Handler) (clk : Clock) (c : Comment) (db : DB) : DB * Outcome :=
  match h with
  | loan_command => process_loan_command c db
  | confirm_command => process_confirm_command clk c db
  | paid_command => process_paid_command clk c db
  | refund_command => process_refund_command clk c db
  | stats_command => process_stats_command c db
  end.

(** One handler call, entered in the log of the calls made for a comment. *)
Definition call (h : Handler) (clk : Clock) (c : Comment) (db : DB)
  : DB * list (Handler * Outcome) :=
  let (db', o) := run h clk c db in (db', [(h, o)]).

(** The comments the loop passes over: no author, or the bot's own. *)
Definition skipped (c : Comment) : bool :=
  match author c with
  | None => true
  | Some a => String.eqb (lower a) (lower REDDIT_USERNAME)
  end.

(** The body of [for comment in subreddit.stream.comments(...)]: the store
    after the comment and the handler calls made for it. *)
Definition comment_monitor (clk : Clock) (c : Comment) (db : DB)
  : DB * list (Handler * Outcome) :=
  if skipped c then (db, [])
  else
    let body_lower := lower (body c) in
    if contains "$loan" body_lower then call loan_command clk c db
    else if contains "$confirm" body_lower then call confirm_command clk c db
    else if contains "$paid_with_id" body_lower then call paid_command clk c db
    else if contains "refunded" body_lower then call refund_command clk c db
    else if contains "$stats" body_lower then call stats_command clk c db
    else (db, []).

(** The stores the bot can bring about: the fresh database, then one
    comment after another. *)
Inductive reachable : DB -> Prop :=
| reachable_init : reachable init_database
| reachable_step (clk : Clock) (c : Comment) (db : DB) :
    reachable db -> reachable (fst (comment_monitor clk c db)).

End Handlers.

(** * Notions used to state the properties *)

Section Notions.
Import Text Patterns Store.

Variable bot : string.

(** ** The invariant of the ledger *)

(** A [users] row as the handlers leave it: no negative aggregate, and
    nothing recorded as unpaid. *)
Definition user_ok (u : users.row) : Prop :=
  0 <= users.loans_as_borrower u /\ 0 <= users.loans_as_lender u /\
  (0 <= users.amount_borrowed u)%Q /\ (0 <= users.amount_lent u)%Q /\
  (0 <= users.amount_repaid u)%Q /\
  users.unpaid_loans u = 0 /\ (users.unpaid_amount u == 0)%Q.

(** A [loans] row: amounts are not negative, what is paid back is a value
    of the decimal context, and both parties have their row in [users]. *)
Definition loan_ok (us : gmap string users.row) (r : loans.row) : Prop :=
  (0 <= loans.amount r)%Q /\ (0 <= loans.amount_repaid r)%Q /\
  DecimalContext.representable (loans.amount_repaid r) /\
  is_Some (us !! loans.lender r) /\ is_Some (us !! loans.borrower r).

Record ledger_ok (db : DB) : Prop := mk_ledger_ok {
  users_ok : forall u r, users_rows db !! u = Some r -> user_ok r;
  loans_ok : forall r, In r (loans_rows db) -> loan_ok (users_rows db) r;
  ids_below : forall r, In r (loans_rows db) -> loans.id r < loans_id_seq db;
  ids_unique : List.NoDup (map loans.id (loans_rows db))
}.

(** No aggregate of the row is negative. *)
Definition nonneg (u : users.row) : Prop :=
  0 <= users.loans_as_borrower u /\ 0 <= users.loans_as_lender u /\
  (0 <= users.amount_borrowed u)%Q /\ (0 <= users.amount_lent u)%Q /\
  (0 <= users.amount_repaid u)%Q /\
  0 <= users.unpaid_loans u /\ (0 <= users.unpaid_amount u)%Q.

(** The row of a user who has none yet: the column defaults. *)
Definition default_user : users.row := users.mk 0 0 0%Q 0%Q 0%Q 0 0%Q None.

Definition user_or_default (db : DB) (u : string) : users.row :=
  default default_user (users_rows db !! u).

(** ** Payments *)

(** The status the paid handler writes. *)
Definition status_after (loan : loans.row) (amount_paid : Q) : loans.status_text :=
  if Qle_bool (loans.amount loan)
       (DecimalContext.add (loans.amount_repaid loan) amount_paid)
  then loans.repaid else loans.partially_repaid.

(** The [users] table the paid handler leaves. *)
Definition users_after_paid (loan : loans.row) (amount_paid : Q) (now : Z)
  (us : gmap string users.row) : gmap string users.row :=
  let us1 := update_user (loans.borrower loan) (add_repaid amount_paid now) us in
  if loans.status_eqb (status_after loan amount_paid) loans.repaid
  then update_user (loans.borrower loan)
         (settle_unpaid (loans.amount loan) now) us1
  else us1.

Definition terminal (s : loans.status_text) : Prop :=
  s = loans.repaid \/ s = loans.refunded.

(** ** Refunds *)

(** The rows SQL may return for the refund lookup: a matching row with the
    greatest [date_created]. *)
Definition refund_candidate (lender borrower : string) (amount : Q)
  (currency : string) (rows : list loans.row) (r : loans.row) : Prop :=
  In r rows
  /\ refund_where lender borrower amount currency r = true
  /\ forall r', In r' rows ->
       refund_where lender borrower amount currency r' = true ->
       loans.date_created r' <= loans.date_created r.

(** What the refund handler has settled before it opens the database. *)
Inductive RefundRequest : Type :=
  | NotARefund
  | RefundRaises
  | NotTheLender
  | RefundOf (lender borrower : string) (amount : Q) (currency : string).

Definition refund_request (c : Comment) : RefundRequest :=
  match parent_author (parent c) with
  | None => NotARefund
  | Some pa =>
      if negb (String.eqb (lower pa) (lower bot)) then NotARefund
      else if negb (contains "refunded" (lower (body c))) then NotARefund
      else
        match parent_body (parent c) with
        | None => RefundRaises
        | Some pb =>
            match refund_loan_regex pb with
            | None => NotARefund
            | Some (g1, g2, g3, g4) =>
                match author c with
                | None => RefundRaises
                | Some a =>
                    if negb (String.eqb (lower a) (lower g4)) then NotTheLender
                    else RefundOf (lower g4) (lower g1) (Decimal g2) g3
                end
            end
        end
  end.

(** The transaction of the handler. *)
Definition refund_transaction (now : Z) (lender borrower : string) (amount : Q)
  (currency : string) (db : DB) : DB * Outcome :=
  match select_for_refund lender borrower amount currency (loans_rows db) with
  | None => (db, Replied (RefundNotFound borrower amount currency))
  | Some result =>
      ({| loans_rows := update_loan (loans.id result) (mark_refunded now)
                          (loans_rows db);
          users_rows := update_user borrower (drop_borrower amount now)
                          (update_user lender (drop_lender amount now)
                             (users_rows db));
          loans_id_seq := loans_id_seq db |},
       Replied (Refunded lender borrower amount currency))
  end.

(** ** The precedence of the handlers *)

(** The place of a handler in the [if]/[elif] chain of the loop. *)
Definition rank (h : Handler) : nat :=
  match h with
  | loan_command => 0
  | confirm_command => 1
  | paid_command => 2
  | refund_command => 3
  | stats_command => 4
  end.

(** The comment carries the keyword of [h]. *)
Definition mentions (c : Comment) (h : Handler) : bool :=
  contains (marker h) (lower (body c)).

(** The handler the precedence order picks: its keyword is there and no
    keyword of an earlier handler is. *)
Definition selected (c : Comment) (h : Handler) : Prop :=
  skipped bot c = false
  /\ mentions c h = true
  /\ forall h', (rank h' < rank h)%nat -> mentions c h' = false.

End Notions.

(** ** A run of the bot, used to exercise the statements below *)

Module Scenario.

Definition bot : string := "LoanCentralBot".

(** A top-level comment's parent is the submission. *)
Definition submission : Parent := mkParent (Some "bob") None.

Definition by_user (name text : string) : Comment :=
  mkComment (Some name) text (Some "bob") "/r/loans/comments/1/req/" submission.

(** The bot's answer to a confirm, as the parent of a reply. *)
Definition confirmed_reply : Parent :=
  mkParent (Some "LoanCentralBot")
    (Some "Confirmed: u/bob has confirmed receiving 50.00 USD from u/alice.").

Definition offer : Comment := by_user "Alice" "$loan 50.00 USD".
Definition confirm : Comment := by_user "Bob" "$confirm /u/Alice 50.00 USD".
Definition paid_20 : Comment := by_user "alice" "$paid_with_id 1 20.00 USD".
Definition paid_30 : Comment := by_user "alice" "$paid_with_id 1 30.00 USD".
Definition paid_10 : Comment := by_user "alice" "$paid_with_id 1 10 USD".
Definition refund : Comment :=
  mkComment (Some "alice") "Refunded" (Some "bob") "/r/loans/comments/1/req/"
    confirmed_reply.
Definition self_confirm : Comment := by_user "bob" "$confirm /u/bob 50 USD".
Definition self_offer : Comment := by_user "bob" "$loan 50 USD".
Definition orphan_offer : Comment :=
  mkComment (Some "alice") "$loan 50 USD" None "/r/loans/comments/1/req/"
    (mkParent None None).
Definition deleted_offer : Comment :=
  mkComment None "$loan 50 USD" (Some "bob") "/r/loans/comments/1/req/"
    submission.

Definition at_time (t : Z) : Clock := mkClock t (1000000 * t).

Definition after (t : Z) (c : Comment) (db : DB) : DB :=
  fst (comment_monitor bot (at_time t) c db).

(** One loan of 50.00 USD from alice to bob. *)
Definition db_confirmed : DB := after 100 confirm init_database.
(** ... 20.00 of it paid back, ... *)
Definition db_partial : DB := after 200 paid_20 db_confirmed.
(** ... then the other 30.00, ... *)
Definition db_repaid : DB := after 300 paid_30 db_partial.
(** ... or else the loan refunded straight after the confirm. *)
Definition db_refunded : DB := after 200 refund db_confirmed.

End Scenario.

Definition several_keywords : Comment :=
  Scenario.by_user "carol" "$stats u/bob, refunded, $CONFIRM and $loan".

(** * The report on the author of a post *)

(** [post]: the attributes of a PRAW submission the post loop reads. *)
Record Post : Type := mkPost {
  post_author : option string;
  title : string
}.

Module Report.

(** [status = 'active' OR status = 'confirmed' OR status = 'partially_repaid'] *)
Definition unpaid_status (s : loans.status_text) : bool :=
  match s with
  | loans.active | loans.confirmed | loans.partially_repaid => true
  | loans.repaid | loans.refunded => false
  end.

(** [WHERE borrower = %s AND (status ...)] *)
Definition unpaid_as_borrower (username : string) (rows : list loans.row)
  : list loans.row :=
  List.filter (fun r => String.eqb (loans.borrower r) username
                        && unpaid_status (loans.status r)) rows.

(** [WHERE lender = %s AND (status ...)] *)
Definition unpaid_as_lender (username : string) (rows : list loans.row)
  : list loans.row :=
  List.filter (fun r => String.eqb (loans.lender r) username
                        && unpaid_status (loans.status r)) rows.

(** [ORDER BY date_created DESC], by insertion; rows of equal date, whose
    order SQL leaves open, keep the order of the table. *)
Fixpoint insert_by_date (r : loans.row) (sorted : list loans.row)
  : list loans.row :=
  match sorted with
  | [] => [r]
  | x :: rest =>
      if Z.ltb (loans.date_created r) (loans.date_created x)
      then x :: insert_by_date r rest
      else r :: x :: rest
  end.

Fixpoint order_by_date_desc (rows : list loans.row) : list loans.row :=
  match rows with
  | [] => []
  | r :: rest => insert_by_date r (order_by_date_desc rest)
  end.

(** [... ORDER BY date_created DESC LIMIT 5] *)
Definition newest_unpaid_as_lender (username : string) (rows : list loans.row)
  : list loans.row :=
  firstn 5 (order_by_date_desc (unpaid_as_lender username rows)).

(** [SUM(amount - amount_repaid)], computed by the database *)
Definition outstanding (rows : list loans.row) : Q :=
  fold_left (fun acc r => (acc + (loans.amount r - loans.amount_repaid r))%Q)
    rows 0%Q.

(** [sum(loan[2] - loan[3] for loan in ...)], computed by Python *)
Definition total_unpaid (rows : list loans.row) : Q :=
  DecimalContext.sum
    (map (fun r => DecimalContext.sub (loans.amount r) (loans.amount_repaid r))
       rows).

End Report.

(** One of the two tables of the report, with its header. *)
Record LoanTable : Type := mkLoanTable {
  table_count : Z;
  table_total : Q;
  table_omitted : Z;
  table_rows : list loans.row
}.

Record UserInfo : Type := mkUserInfo {
  info_loans_as_borrower : Z;
  info_amount_borrowed : Q;
  info_loans_as_lender : Z;
  info_amount_lent : Q;
  info_current_unpaid_as_borrower : Z;
  info_unpaid_as_lender : option LoanTable;
  info_in_progress : option LoanTable
}.

(** What [generate_user_info] returns with the database up. *)
Inductive InfoReply : Type :=
| NoLoanHistory (username : string)
| UserInformation (username : string) (info : UserInfo).

Definition generate_user_info (username : string) (db : DB) : InfoReply :=
  match users_rows db !! Text.lower username with
  | None => NoLoanHistory username
  | Some user_stats =>
      let rows := loans_rows db in
      let current_unpaid_as_borrower :=
        Z.of_nat (length (Report.unpaid_as_borrower (Text.lower username) rows)) in
      let unpaid_loans_as_lender :=
        Report.newest_unpaid_as_lender (Text.lower username) rows in
      let in_progress_count :=
        Z.of_nat (length (Report.unpaid_as_lender (Text.lower username) rows)) in
      let in_progress_sum :=
        Report.outstanding (Report.unpaid_as_lender (Text.lower username) rows) in
      let in_progress_total :=
        if Qeq_bool in_progress_sum 0 then 0%Q else in_progress_sum in
      let in_progress_loans :=
        Report.newest_unpaid_as_lender (Text.lower username) rows in
      let omitted (shown : list loans.row) :=
        if Z.ltb (Z.of_nat (length shown)) in_progress_count
        then in_progress_count - Z.of_nat (length shown) else 0 in
      UserInformation username
        {| info_loans_as_borrower := users.loans_as_borrower user_stats;
           info_amount_borrowed := users.amount_borrowed user_stats;
           info_loans_as_lender := users.loans_as_lender user_stats;
           info_amount_lent := users.amount_lent user_stats;
           info_current_unpaid_as_borrower := current_unpaid_as_borrower;
           info_unpaid_as_lender :=
             match unpaid_loans_as_lender with
             | [] => None
             | _ :: _ =>
                 Some {| table_count := Z.of_nat (length unpaid_loans_as_lender);
                         table_total := Report.total_unpaid unpaid_loans_as_lender;
                         table_omitted := omitted unpaid_loans_as_lender;
                         table_rows := unpaid_loans_as_lender |}
             end;
           info_in_progress :=
             match in_progress_loans with
             | [] => None
             | _ :: _ =>
                 Some {| table_count := in_progress_count;
                         table_total := in_progress_total;
                         table_omitted := omitted in_progress_loans;
                         table_rows := in_progress_loans |}
             end |}
  end.

(** [handle_new_post]: the reply posted under the submission, if any. *)
Definition handle_new_post (post : Post) (db : DB) : option InfoReply :=
  match post_author post with
  | None => None
  | Some username => Some (generate_user_info username db)
  end.

(** The body of [for post in subreddit.stream.submissions(...)]. *)
Definition post_monitor (post : Post) (db : DB) : option InfoReply :=
  if Text.contains "[req]" (Text.lower (title post))
  then handle_new_post post db
  else None.

(** * Further notions *)

(** The status of a loan agrees with its amounts. *)
Definition status_consistent (r : loans.row) : Prop :=
  match loans.status r with
  | loans.active => False
  | loans.confirmed => (loans.amount_repaid r == 0)%Q
  | loans.partially_repaid => (loans.amount_repaid r < loans.amount r)%Q
  | loans.repaid => (loans.amount r <= loans.amount_repaid r)%Q
  | loans.refunded => True
  end.

(** The columns no handler writes after the insert. *)
Definition same_loan (r r' : loans.row) : Prop :=
  loans.id r' = loans.id r /\ loans.loan_id r' = loans.loan_id r
  /\ loans.lender r' = loans.lender r /\ loans.borrower r' = loans.borrower r
  /\ loans.amount r' = loans.amount r /\ loans.currency r' = loans.currency r
  /\ loans.date_created r' = loans.date_created r
  /\ loans.original_thread r' = loans.original_thread r.

(** [u] is the lender or the borrower of a loan of the table. *)
Definition party (u : string) (rows : list loans.row) : Prop :=
  exists r, In r rows /\ (loans.lender r = u \/ loans.borrower r = u).

(** [c] is a Paid command of [lender] for loan [key] in [currency], of
    amount [paid]. *)
Definition pays (key : Z) (lender currency : string) (c : Comment) (paid : Q)
  : Prop :=
  exists g1 g2 g3 a,
    Patterns.paid_regex (Patterns.text_to_search (body c)) = Some (g1, g2, g3)
    /\ author c = Some a
    /\ Patterns.sql_int g1 = key /\ Text.lower a = lender
    /\ Text.upper g3 = currency /\ Patterns.Decimal g2 = paid.

(** The store after the paid handler has seen the comments in turn. *)
Definition pay_all (cs : list (Clock * Comment)) (db : DB) : DB :=
  fold_left (fun db cc => fst (process_paid_command (fst cc) (snd cc) db)) cs db.

Definition total_paid (amounts : list Q) : Q :=
  fold_right Qplus 0%Q amounts.

(** Every running total of [amounts], counted from [start], has at most
    the digits the decimal context keeps. *)
Fixpoint sums_fit (start : Q) (amounts : list Q) : Prop :=
  match amounts with
  | [] => True
  | paid :: rest =>
      DecimalContext.representable (start + paid)
      /\ sums_fit (start + paid) rest
  end.

(** A row after a step: the same loan, with no less paid back. *)
Definition kept (r r' : loans.row) : Prop :=
  same_loan r r' /\ (loans.amount_repaid r <= loans.amount_repaid r')%Q.

(** The names of the loan have no upper-case letter of ASCII: lower-casing
    leaves them as they are. *)
Definition normal_loan (r : loans.row) : Prop :=
  Text.lower (loans.lender r) = loans.lender r
  /\ Text.lower (loans.borrower r) = loans.borrower r.

(** Newest first: no row is older than a row after it. *)
Fixpoint by_date_desc (rows : list loans.row) : Prop :=
  match rows with
  | [] => True
  | r :: rest =>
      (forall r', In r' rest -> loans.date_created r' <= loans.date_created r)
      /\ by_date_desc rest
  end.

(** A loan [username] has lent that the report counts as unpaid. *)
Definition unpaid_loan_of (username : string) (r : loans.row) : Prop :=
  loans.lender r = username /\ Report.unpaid_status (loans.status r) = true.

(** The comment is a command for [h]: the pattern of [h] matches it (for a
    refund, whose pattern is read off the parent, the keyword is there). *)
Definition command_for (h : Handler) (c : Comment) : Prop :=
  match h with
  | loan_command => Patterns.loan_regex (body c) <> None
  | confirm_command => confirm_match c <> None
  | paid_command =>
      Patterns.paid_regex (Patterns.text_to_search (body c)) <> None
  | refund_command => Text.contains "refunded" (Text.lower (body c)) = true
  | stats_command => Patterns.stats_regex (body c) <> None
  end.

(** The number and the principal of the loans of the table that satisfy
    [p]. *)
Fixpoint count_where (p : loans.row -> bool) (rows : list loans.row) : Z :=
  match rows with
  | [] => 0
  | r :: rest => (if p r then 1 else 0) + count_where p rest
  end.

Fixpoint principal_where (p : loans.row -> bool) (rows : list loans.row) : Q :=
  match rows with
  | [] => 0%Q
  | r :: rest =>
      ((if p r then loans.amount r else 0) + principal_where p rest)%Q
  end.

Definition lent_by (u : string) (r : loans.row) : bool :=
  String.eqb (loans.lender r) u.

Definition borrowed_by (u : string) (r : loans.row) : bool :=
  String.eqb (loans.borrower r) u.

(** The loan aggregates of user [u] do not exceed what the table records. *)
Definition aggregates_bounded (db : DB) (u : string) : Prop :=
  users.loans_as_lender (user_or_default db u)
    <= count_where (lent_by u) (loans_rows db)
  /\ (users.amount_lent (user_or_default db u)
        <= principal_where (lent_by u) (loans_rows db))%Q
  /\ users.loans_as_borrower (user_or_default db u)
       <= count_where (borrowed_by u) (loans_rows db)
  /\ (users.amount_borrowed (user_or_default db u)
        <= principal_where (borrowed_by u) (loans_rows db))%Q.

(** [p] occurs in [s] right after [pre], and nowhere before. *)
Definition first_at (p pre s : list ascii) : Prop :=
  (exists post, s = (pre ++ p ++ post)%list)
  /\ forall pre' post',
       s = (pre' ++ p ++ post')%list -> (length pre <= length pre')%nat.

(** The body is [pre], its first fence, the white space [ws], [mid], which
    does not open with white space, the next fence, and [post]. *)
Definition fenced (body : string) (pre ws mid post : list ascii) : Prop :=
  Text.chars body
    = (pre ++ Patterns.fence ++ ws ++ mid ++ Patterns.fence ++ post)%list
  /\ first_at Patterns.fence pre (Text.chars body)
  /\ forallb Text.is_space ws = true
  /\ (forall c rest, mid = c :: rest -> Text.is_space c = false)
  /\ first_at Patterns.fence mid (mid ++ Patterns.fence ++ post)%list.

(** More of the sample run. *)
Module Sample.

(** A second, identical loan from alice to bob, confirmed later. *)
Definition db_twin : DB := Scenario.after 150 Scenario.confirm Scenario.db_confirmed.

Definition paid_by_bob : Comment :=
  Scenario.by_user "bob" "$paid_with_id 1 20.00 USD".

Definition refund_by_carol : Comment :=
  mkComment (Some "carol") "refunded!" (Some "bob") "/r/loans/comments/1/req/"
    Scenario.confirmed_reply.

Definition req_by (name : string) : Post := mkPost (Some name) "[REQ] 50 USD".

Definition fenced_confirm : string :=
  "ok ``` $confirm /u/alice 50.00 USD  ``` thanks".

End Sample.

(** * Properties *)

(** ** The patterns on sample comments *)

Example loan_regex_sample :
  Patterns.loan_regex "I can do $Loan  12.50 usd today" = Some ("12.50", "usd").
Proof. reflexivity. Qed.

Example loan_regex_leftmost :
  Patterns.loan_regex "$loan 12. usd, no: $loan 3 EURO" = Some ("3", "EUR").
Proof. reflexivity. Qed.

Example confirm_regex_in_code_block :
  Patterns.confirm_regex
    (Patterns.text_to_search "ok ``` $confirm /u/alice 50.00 USD  ``` thanks")
  = Some ("alice", "50.00", "USD").
Proof. reflexivity. Qed.

Example confirm_regex_needs_slash :
  Patterns.confirm_regex "$confirm u/Alice 50 usd" = None
  /\ Patterns.alt_confirm_regex "$confirm u/Alice 50 usd"
     = Some ("Alice", "50", "usd").
Proof. split; reflexivity. Qed.

Example paid_regex_sample :
  Patterns.paid_regex "$paid_with_id 007 20.00 USD" = Some ("007", "20.00", "USD")
  /\ Patterns.sql_int "007" = 7
  /\ Patterns.Decimal "20.00" = (2000 # 100)%Q.
Proof. repeat split. Qed.

Example refund_loan_regex_sample :
  Patterns.refund_loan_regex
    "Confirmed: u/bob has confirmed receiving 50.00 USD from u/alice. If you"
  = Some ("bob", "50.00", "USD", "alice").
Proof. reflexivity. Qed.

Example refund_loan_regex_case_sensitive :
  Patterns.refund_loan_regex
    "u/bob has confirmed receiving 50.00 usd from u/alice" = None.
Proof. reflexivity. Qed.

Example stats_regex_sample :
  Patterns.stats_regex "$stats /u/Bob please" = Some "Bob"
  /\ Patterns.stats_regex "$STATS u/bob" = Some "bob".
Proof. split; reflexivity. Qed.

(** ** Amounts read from a comment are never negative *)

Section Amounts.
Import Text Regex Patterns.

Lemma digits_value_from (ds : list ascii) (acc : Z) :
  0 <= acc ->
  0 <= fold_left (fun acc c => 10 * acc + digit_value c) ds acc.
Proof.
  revert acc. induction ds as [|d ds IH]; intros acc Hacc; simpl; [exact Hacc|].
  apply IH. unfold digit_value. lia.
Qed.

Lemma digits_value_nonneg (ds : list ascii) : 0 <= digits_value ds.
Proof. apply digits_value_from. lia. Qed.

Lemma decimal_nonneg (ip fp : list ascii) : (0 <= decimal ip fp)%Q.
Proof.
  unfold decimal, Qle. simpl.
  pose proof (digits_value_nonneg (ip ++ fp)). lia.
Qed.

Lemma Decimal_nonneg (group : string) : (0 <= Decimal group)%Q.
Proof.
  unfold Decimal.
  destruct (span _ (chars group)) as [ip rest].
  apply decimal_nonneg.
Qed.

End Amounts.

(** ** The decimal context

    [DecimalContext.rounded x] is a value of the context, it is [x] itself
    when [x] is one, and no value of the context lies between the two. *)

Section RoundingFacts.
Import DecimalContext.
Local Open Scope Q_scope.

Lemma p10_pos (k : Z) : 0 < 10 ^ k.
Proof. apply Qpower_0_lt. reflexivity. Qed.

Lemma p10_plus (a b : Z) : 10 ^ (a + b) == 10 ^ a * 10 ^ b.
Proof. apply Qpower_plus. discriminate. Qed.

Lemma p10_Z (c : Z) : (0 <= c)%Z -> 10 ^ c == inject_Z (10 ^ c).
Proof. intros H. symmetry. apply (Zpower_Qpower 10 c H). Qed.

Lemma p10_le (a b : Z) : (a <= b)%Z -> 10 ^ a <= 10 ^ b.
Proof. intros H. apply Qpower_le_compat_l; [exact H | discriminate]. Qed.

Lemma p10_opp (c : Z) : 10 ^ c * 10 ^ (- c) == 1.
Proof. rewrite <- p10_plus. rewrite Z.add_opp_diag_r. reflexivity. Qed.

Lemma digits_upto_spec (fuel : nat) (n : Z) :
  (1 <= n < 2 ^ (Z.of_nat fuel + 1))%Z ->
  (1 <= digits_upto fuel n
   /\ 10 ^ (digits_upto fuel n - 1) <= n < 10 ^ digits_upto fuel n)%Z.
Proof.
  revert n. induction fuel as [|fuel IH]; intros n Hn.
  - simpl in *. lia.
  - cbn [digits_upto]. destruct (Z.ltb_spec n 10) as [Hlt|Hge].
    + simpl. lia.
    + assert (Hq : (1 <= n / 10 < 2 ^ (Z.of_nat fuel + 1))%Z).
      { split; [apply Z.div_le_lower_bound; lia|].
        apply Z.div_lt_upper_bound; [lia|].
        replace (Z.of_nat (S fuel) + 1)%Z with (Z.succ (Z.of_nat fuel + 1)) in Hn by lia.
        rewrite Z.pow_succ_r in Hn by lia. lia. }
      destruct (IH _ Hq) as (H1 & H2 & H3).
      set (k := digits_upto fuel (n / 10)) in *.
      split; [lia|].
      replace (1 + k - 1)%Z with (Z.succ (k - 1)) by lia.
      replace (1 + k)%Z with (Z.succ k) by lia.
      rewrite !Z.pow_succ_r by lia.
      pose proof (Z.div_mod n 10 ltac:(lia)).
      pose proof (Z.mod_pos_bound n 10 ltac:(lia)). lia.
Qed.

Lemma ndigits_spec (n : Z) :
  (1 <= n)%Z ->
  (1 <= ndigits n /\ 10 ^ (ndigits n - 1) <= n < 10 ^ ndigits n)%Z.
Proof.
  intros Hn. apply digits_upto_spec. split; [exact Hn|].
  rewrite Z2Nat.id by apply Z.log2_nonneg.
  pose proof (Z.log2_spec n ltac:(lia)) as [_ H].
  replace (Z.log2 n + 1)%Z with (Z.succ (Z.log2 n)) by lia. exact H.
Qed.


Lemma reaches_spec (t n d : Z) :
  reaches t n d = true <-> 10 ^ t * inject_Z d <= inject_Z n.
Proof.
  unfold reaches. destruct (Z.leb_spec 0 t) as [Ht|Ht].
  - rewrite Z.leb_le, Zle_Qle, inject_Z_mult, <- p10_Z by exact Ht.
    rewrite (Qmult_comm (inject_Z d)). reflexivity.
  - rewrite Z.leb_le, Zle_Qle, inject_Z_mult, <- p10_Z by lia.
    pose proof (p10_pos t) as Hp. pose proof (p10_opp t) as Ho.
    set (a := 10 ^ t) in *. set (b := 10 ^ (- t)) in *.
    rewrite <- (Qmult_le_l _ _ a Hp).
    setoid_replace (a * (inject_Z n * b)) with (inject_Z n * (a * b)) using relation Qeq by ring.
    rewrite Ho, Qmult_1_r. reflexivity.
Qed.

Lemma adjusted_spec (n d : Z) :
  (1 <= n)%Z -> (1 <= d)%Z ->
  10 ^ adjusted n d * inject_Z d <= inject_Z n
  /\ inject_Z n < 10 ^ (adjusted n d + 1) * inject_Z d.
Proof.
  intros Hn Hd.
  destruct (ndigits_spec n Hn) as (Hn1 & Hn2 & Hn3).
  destruct (ndigits_spec d Hd) as (Hd1 & Hd2 & Hd3).
  rewrite Zle_Qle, <- p10_Z in Hn2, Hd2 by lia.
  rewrite Zlt_Qlt, <- p10_Z in Hn3, Hd3 by lia.
  unfold adjusted. set (dn := ndigits n) in *. set (dd := ndigits d) in *.
  assert (HD : 0 < inject_Z d) by (rewrite <- (Zlt_Qlt 0); lia).
  destruct (reaches (dn - dd) n d) eqn:E.
  - apply reaches_spec in E. split; [exact E|].
    apply Qlt_le_trans with (10 ^ dn); [exact Hn3|].
    assert (Hs : 10 ^ dn == 10 ^ (dn - dd + 1) * 10 ^ (dd - 1)).
    { rewrite <- p10_plus. replace (dn - dd + 1 + (dd - 1))%Z with dn by lia.
      reflexivity. }
    rewrite Hs. apply Qmult_le_l; [apply p10_pos | exact Hd2].
  - assert (E' : ~ 10 ^ (dn - dd) * inject_Z d <= inject_Z n).
    { rewrite <- reaches_spec, E. discriminate. }
    split.
    + apply Qle_trans with (10 ^ (dn - 1)); [|exact Hn2].
      assert (Hs : 10 ^ (dn - 1) == 10 ^ (dn - dd - 1) * 10 ^ dd).
      { rewrite <- p10_plus. replace (dn - dd - 1 + dd)%Z with (dn - 1)%Z by lia.
        reflexivity. }
      rewrite Hs. apply Qmult_le_l; [apply p10_pos | lra].
    + replace (dn - dd - 1 + 1)%Z with (dn - dd)%Z by lia. lra.
Qed.

Lemma round_half_even_lower (n d i : Z) :
  (0 < d)%Z -> (i * d <= n)%Z -> (i <= round_half_even n d)%Z.
Proof.
  intros Hd Hi. unfold round_half_even.
  pose proof (Z.div_mod n d ltac:(lia)) as Hdm.
  pose proof (Z.mod_pos_bound n d Hd) as Hr.
  assert (i <= n / d)%Z by nia.
  destruct (Z.ltb _ _); [lia|]. destruct (Z.ltb _ _); [lia|].
  destruct (Z.even _); lia.
Qed.

Lemma round_half_even_upper (n d i : Z) :
  (0 < d)%Z -> (n <= i * d)%Z -> (round_half_even n d <= i)%Z.
Proof.
  intros Hd Hi. unfold round_half_even.
  pose proof (Z.div_mod n d ltac:(lia)) as Hdm.
  pose proof (Z.mod_pos_bound n d Hd) as Hr.
  assert (n / d <= i)%Z by nia.
  destruct (Z.ltb_spec (2 * (n mod d)) d); [lia|].
  assert (n / d + 1 <= i)%Z by nia.
  destruct (Z.ltb _ _); [lia|]. destruct (Z.even _); lia.
Qed.

Lemma scaled_spec (k m : Z) : scaled k m == inject_Z m * 10 ^ k.
Proof.
  unfold scaled. destruct (Z.leb_spec 0 k) as [Hk|Hk].
  - rewrite inject_Z_mult, <- p10_Z by exact Hk. reflexivity.
  - rewrite Qmake_Qdiv. rewrite Z2Pos.id by (apply Z.pow_pos_nonneg; lia).
    rewrite <- p10_Z by lia.
    pose proof (p10_opp k) as Ho. pose proof (p10_pos (- k)) as Hp.
    unfold Qdiv. set (a := 10 ^ k) in *. set (b := 10 ^ (- k)) in *.
    setoid_replace (inject_Z m * a) with (inject_Z m * (a * b) * / b) using relation Qeq.
    + rewrite Ho. ring.
    + field. lra.
Qed.


Lemma p10_split (t k : Z) :
  (k <= t)%Z -> 10 ^ t == inject_Z (10 ^ (t - k)) * 10 ^ k.
Proof.
  intros H. rewrite <- p10_Z by lia. rewrite <- p10_plus.
  replace (t - k + k)%Z with t by lia. reflexivity.
Qed.

Lemma p10_below (t k : Z) : (t < k)%Z -> 10 * 10 ^ t <= 10 ^ k.
Proof.
  intros H. assert (Hs : 10 ^ k == 10 * 10 ^ (k - 1)).
  { change 10 with (10 ^ 1) at 2. rewrite <- p10_plus.
    replace (1 + (k - 1))%Z with k by lia. reflexivity. }
  rewrite Hs. apply Qmult_le_l; [reflexivity | apply p10_le; lia].
Qed.

Section Core.
Variables (k n' d' : Z).
Hypothesis d'_pos : (0 < d')%Z.
Hypothesis n'_low : (10 ^ (prec - 1) * d' <= n')%Z.

Lemma kept_digits_low : (10 ^ (prec - 1) <= round_half_even n' d')%Z.
Proof. apply round_half_even_lower; assumption. Qed.

(** A value of the context whose last digit lies below the last digit
    kept is smaller than every value with [prec] digits above it. *)
Lemma finer_is_small (m t : Z) :
  (Z.abs m < 10 ^ prec)%Z -> (t < k)%Z ->
  inject_Z m * 10 ^ t < inject_Z (10 ^ (prec - 1)) * 10 ^ k.
Proof.
  intros Hm Ht. pose proof (p10_below t k Ht) as Hb.
  pose proof (p10_pos t) as Hp. pose proof (p10_pos k) as Hk.
  assert (Hm' : inject_Z m < inject_Z (10 ^ prec)).
  { rewrite <- Zlt_Qlt. lia. }
  change (10 ^ prec)%Z with (10 * 10 ^ (prec - 1))%Z in Hm'.
  rewrite inject_Z_mult in Hm'. change (inject_Z 10) with 10 in Hm'.
  assert (HL : 0 < inject_Z (10 ^ (prec - 1))) by reflexivity.
  set (L := inject_Z (10 ^ (prec - 1))) in *.
  set (a := 10 ^ t) in *. set (b := 10 ^ k) in *. set (M := inject_Z m) in *.
  apply Qlt_le_trans with (10 * L * a).
  - apply Qmult_lt_compat_r; assumption.
  - setoid_replace (10 * L * a) with (L * (10 * a)) using relation Qeq by ring.
    apply Qmult_le_l; assumption.
Qed.

Lemma core_lower (m t : Z) :
  (Z.abs m < 10 ^ prec)%Z ->
  inject_Z m * 10 ^ t * inject_Z d' <= inject_Z n' * 10 ^ k ->
  inject_Z m * 10 ^ t <= inject_Z (round_half_even n' d') * 10 ^ k.
Proof.
  intros Hm H. pose proof (p10_pos k) as Hk.
  destruct (Z_lt_le_dec t k) as [Ht|Ht].
  - apply Qlt_le_weak. eapply Qlt_le_trans; [apply finer_is_small; assumption|].
    apply Qmult_le_compat_r; [|lra]. rewrite <- Zle_Qle. apply kept_digits_low.
  - rewrite (p10_split t k Ht) in *. set (c := (10 ^ (t - k))%Z) in *.
    assert (Hz : (m * c * d' <= n')%Z).
    { rewrite Zle_Qle, !inject_Z_mult. apply (Qmult_le_r _ _ (10 ^ k) Hk).
      setoid_replace (inject_Z m * inject_Z c * inject_Z d' * 10 ^ k)
        with (inject_Z m * (inject_Z c * 10 ^ k) * inject_Z d') using relation Qeq by ring.
      exact H. }
    apply round_half_even_lower in Hz; [|exact d'_pos].
    rewrite Zle_Qle, inject_Z_mult in Hz.
    rewrite Qmult_assoc. apply Qmult_le_compat_r; [exact Hz | lra].
Qed.

Lemma core_upper (m t : Z) :
  (Z.abs m < 10 ^ prec)%Z ->
  inject_Z n' * 10 ^ k <= inject_Z m * 10 ^ t * inject_Z d' ->
  inject_Z (round_half_even n' d') * 10 ^ k <= inject_Z m * 10 ^ t.
Proof.
  intros Hm H. pose proof (p10_pos k) as Hk.
  assert (Hd : 0 < inject_Z d') by (rewrite <- (Zlt_Qlt 0); exact d'_pos).
  destruct (Z_lt_le_dec t k) as [Ht|Ht].
  - exfalso. pose proof (finer_is_small m t Hm Ht) as Hs.
    assert (Hn : inject_Z (10 ^ (prec - 1)) * inject_Z d' <= inject_Z n').
    { rewrite <- inject_Z_mult, <- Zle_Qle. exact n'_low. }
    assert (H1 : inject_Z m * 10 ^ t * inject_Z d'
                 < inject_Z (10 ^ (prec - 1)) * 10 ^ k * inject_Z d').
    { apply Qmult_lt_compat_r; assumption. }
    assert (H2 : inject_Z (10 ^ (prec - 1)) * 10 ^ k * inject_Z d'
                 <= inject_Z n' * 10 ^ k).
    { setoid_replace (inject_Z (10 ^ (prec - 1)) * 10 ^ k * inject_Z d')
        with (inject_Z (10 ^ (prec - 1)) * inject_Z d' * 10 ^ k) using relation Qeq by ring.
      apply Qmult_le_compat_r; [exact Hn | lra]. }
    lra.
  - rewrite (p10_split t k Ht) in *. set (c := (10 ^ (t - k))%Z) in *.
    assert (Hz : (n' <= m * c * d')%Z).
    { rewrite Zle_Qle, !inject_Z_mult. apply (Qmult_le_r _ _ (10 ^ k) Hk).
      setoid_replace (inject_Z m * inject_Z c * inject_Z d' * 10 ^ k)
        with (inject_Z m * (inject_Z c * 10 ^ k) * inject_Z d') using relation Qeq by ring.
      exact H. }
    apply round_half_even_upper in Hz; [|exact d'_pos].
    rewrite Zle_Qle, inject_Z_mult in Hz.
    rewrite Qmult_assoc. apply Qmult_le_compat_r; [exact Hz | lra].
Qed.

End Core.

Lemma rounded_zero (x : Q) : x == 0 -> rounded x = 0.
Proof.
  intros H. unfold rounded. rewrite (Qred_complete _ _ H). reflexivity.
Qed.

Lemma rounded_comp (x y : Q) : x == y -> rounded x = rounded y.
Proof. intros H. unfold rounded. rewrite (Qred_complete _ _ H). reflexivity. Qed.

Lemma rounded_decomp (x : Q) :
  ~ x == 0 ->
  exists k n' d' s : Z,
    (s = 1 \/ s = -1)%Z /\ (0 < d')%Z
    /\ (10 ^ (prec - 1) * d' <= n' < 10 ^ prec * d')%Z
    /\ x * inject_Z d' == inject_Z (s * n') * 10 ^ k
    /\ rounded x == inject_Z (s * round_half_even n' d') * 10 ^ k.
Proof.
  intros Hx0. unfold rounded.
  pose proof (Qred_correct x) as Hred.
  destruct (Qred x) as [num den]. cbn [Qnum Qden].
  assert (Hnum : num <> 0%Z).
  { intros ->. apply Hx0. rewrite <- Hred. reflexivity. }
  destruct (Z.eqb_spec (Z.abs num) 0) as [Habs|_]; [lia|].
  set (n := Z.abs num). set (d := Z.pos den).
  assert (Hn : (1 <= n)%Z) by (subst n; lia).
  assert (Hd : (1 <= d)%Z) by (subst d; lia).
  destruct (adjusted_spec n d Hn Hd) as [H1 H2].
  set (k := (adjusted n d - (prec - 1))%Z).
  assert (He : adjusted n d = (k + (prec - 1))%Z) by (subst k; lia).
  rewrite He in H1, H2. clearbody k.
  assert (Hs : (Z.sgn num = 1 \/ Z.sgn num = -1)%Z) by lia.
  assert (Hsn : num = (Z.sgn num * n)%Z) by (subst n; lia).
  assert (Hxd : x * inject_Z d == inject_Z num).
  { rewrite <- Hred, Qmake_Qdiv. fold d. field.
    intros H. apply (Qlt_irrefl 0). rewrite <- H at 2.
    rewrite <- (Zlt_Qlt 0). lia. }
  pose proof (p10_pos k) as Hk.
  destruct (Z.leb_spec 0 k) as [Hk0|Hk0].
  - exists k, n, (d * 10 ^ k)%Z, (Z.sgn num).
    split; [exact Hs|]. split; [apply Z.mul_pos_pos; [lia | apply Z.pow_pos_nonneg; lia]|].
    split; [split|split].
    + rewrite Zle_Qle, !inject_Z_mult, <- !p10_Z by (unfold prec; lia).
      rewrite p10_plus in H1.
      setoid_replace (10 ^ (prec - 1) * (inject_Z d * 10 ^ k))
        with (10 ^ k * 10 ^ (prec - 1) * inject_Z d) using relation Qeq by ring.
      exact H1.
    + rewrite Zlt_Qlt, !inject_Z_mult, <- !p10_Z by (unfold prec; lia).
      replace (k + (prec - 1) + 1)%Z with (k + prec)%Z in H2 by lia.
      rewrite p10_plus in H2.
      setoid_replace (10 ^ prec * (inject_Z d * 10 ^ k))
        with (10 ^ k * 10 ^ prec * inject_Z d) using relation Qeq by ring.
      exact H2.
    + rewrite inject_Z_mult, <- p10_Z by exact Hk0.
      rewrite Qmult_assoc, Hxd, <- Hsn. reflexivity.
    + rewrite Qred_correct. apply scaled_spec.
  - exists k, (n * 10 ^ (- k))%Z, d, (Z.sgn num).
    pose proof (p10_opp k) as Ho. pose proof (p10_pos (- k)) as Hp.
    split; [exact Hs|]. split; [lia|].
    split; [split|split].
    + rewrite Zle_Qle, !inject_Z_mult, <- !p10_Z by (unfold prec; lia).
      rewrite p10_plus in H1.
      apply (Qmult_le_r _ _ (10 ^ k) Hk).
      setoid_replace (inject_Z n * 10 ^ (- k) * 10 ^ k)
        with (inject_Z n * (10 ^ k * 10 ^ (- k))) using relation Qeq by ring.
      rewrite Ho, Qmult_1_r.
      setoid_replace (10 ^ (prec - 1) * inject_Z d * 10 ^ k)
        with (10 ^ k * 10 ^ (prec - 1) * inject_Z d) using relation Qeq by ring.
      exact H1.
    + rewrite Zlt_Qlt, !inject_Z_mult, <- !p10_Z by (unfold prec; lia).
      replace (k + (prec - 1) + 1)%Z with (k + prec)%Z in H2 by lia.
      rewrite p10_plus in H2.
      apply (Qmult_lt_r _ _ (10 ^ k) Hk).
      setoid_replace (inject_Z n * 10 ^ (- k) * 10 ^ k)
        with (inject_Z n * (10 ^ k * 10 ^ (- k))) using relation Qeq by ring.
      rewrite Ho, Qmult_1_r.
      setoid_replace (10 ^ prec * inject_Z d * 10 ^ k)
        with (10 ^ k * 10 ^ prec * inject_Z d) using relation Qeq by ring.
      exact H2.
    + rewrite Hxd, Z.mul_assoc, inject_Z_mult, <- Hsn, <- p10_Z by lia.
      setoid_replace (inject_Z num * 10 ^ (- k) * 10 ^ k)
        with (inject_Z num * (10 ^ k * 10 ^ (- k))) using relation Qeq by ring.
      rewrite Ho, Qmult_1_r. reflexivity.
    + rewrite Qred_correct. apply scaled_spec.
Qed.

Lemma representable_opp (f : Q) : representable f -> representable (- f).
Proof.
  intros (m & t & Hm & Hf). exists (- m)%Z, t. split; [lia|].
  rewrite Hf, inject_Z_opp. ring.
Qed.

Lemma representable_0 : representable 0.
Proof. exists 0%Z, 0%Z. split; [reflexivity | reflexivity]. Qed.

(** Rounding is faithful: no value of the context lies strictly between
    the exact result and the rounded one. *)
Lemma rounded_lower (x f : Q) :
  representable f -> f <= x -> f <= rounded x.
Proof.
  intros (m & t & Hm & Hf) Hle.
  destruct (Qeq_dec x 0) as [H0|H0].
  { rewrite (rounded_zero x H0). lra. }
  destruct (rounded_decomp x H0)
    as (k & n' & d' & s & Hs & Hd & [Hlo Hhi] & Hx & Hr).
  assert (HD : 0 < inject_Z d') by (rewrite <- (Zlt_Qlt 0); exact Hd).
  rewrite Hr, Hf. rewrite Hf in Hle.
  destruct Hs as [-> | ->].
  - rewrite !Z.mul_1_l in *. apply (core_lower k n' d' Hd Hlo m t Hm).
    rewrite <- Hx. apply Qmult_le_compat_r; [exact Hle | lra].
  - assert (Hu : inject_Z (round_half_even n' d') * 10 ^ k
                 <= inject_Z (- m) * 10 ^ t).
    { apply (core_upper k n' d' Hd Hlo (- m)%Z t); [lia|].
      rewrite inject_Z_opp.
      assert (inject_Z m * 10 ^ t * inject_Z d' <= x * inject_Z d')
        by (apply Qmult_le_compat_r; [exact Hle | lra]).
      rewrite Hx in H. replace (-1 * n')%Z with (- n')%Z in H by lia.
      rewrite inject_Z_opp in H.
      set (A := inject_Z m * 10 ^ t * inject_Z d') in *.
      setoid_replace (- inject_Z m * 10 ^ t * inject_Z d') with (- A) using relation Qeq
        by (subst A; ring).
      setoid_replace (- inject_Z n' * 10 ^ k) with (- (inject_Z n' * 10 ^ k)) using relation Qeq in H by ring.
      lra. }
    replace (-1 * round_half_even n' d')%Z with (- round_half_even n' d')%Z by lia.
    rewrite inject_Z_opp in *.
    setoid_replace (- inject_Z m * 10 ^ t) with (- (inject_Z m * 10 ^ t)) using relation Qeq in Hu by ring.
    setoid_replace (- inject_Z (round_half_even n' d') * 10 ^ k)
      with (- (inject_Z (round_half_even n' d') * 10 ^ k)) using relation Qeq by ring.
    lra.
Qed.

Lemma rounded_opp (x : Q) : rounded (- x) == - rounded x.
Proof.
  unfold rounded. rewrite Qred_opp.
  destruct (Qred x) as [num den]. cbn [Qnum Qden Qopp].
  rewrite Z.abs_opp. destruct (Z.eqb _ _); [reflexivity|].
  rewrite !Qred_correct, !scaled_spec, Z.sgn_opp, Z.mul_opp_l, inject_Z_opp.
  ring.
Qed.

Lemma rounded_upper (x f : Q) :
  representable f -> x <= f -> rounded x <= f.
Proof.
  intros Hf Hle.
  assert (H : - f <= rounded (- x)).
  { apply rounded_lower; [apply representable_opp, Hf | lra]. }
  rewrite rounded_opp in H. lra.
Qed.

Lemma rounded_exact (x : Q) : representable x -> rounded x == x.
Proof.
  intros Hx. apply Qle_antisym.
  - apply rounded_upper; [exact Hx | lra].
  - apply rounded_lower; [exact Hx | lra].
Qed.

Lemma rounded_representable (x : Q) : representable (rounded x).
Proof.
  destruct (Qeq_dec x 0) as [H0|H0].
  { rewrite (rounded_zero x H0). apply representable_0. }
  destruct (rounded_decomp x H0)
    as (k & n' & d' & s & Hs & Hd & [Hlo Hhi] & Hx & Hr).
  pose proof (round_half_even_lower n' d' _ Hd Hlo) as Hj1.
  assert (Hj2 : (round_half_even n' d' <= 10 ^ prec)%Z)
    by (apply round_half_even_upper; [exact Hd | lia]).
  set (j := round_half_even n' d') in *.
  assert (H27 : (0 < 10 ^ (prec - 1))%Z) by reflexivity.
  destruct (Z.eq_dec j (10 ^ prec)%Z) as [Heq|Hne].
  - exists s, (k + prec)%Z. split; [unfold prec; destruct Hs as [-> | ->]; reflexivity|].
    rewrite Hr, Heq, inject_Z_mult, p10_plus, (p10_Z prec) by (unfold prec; lia).
    ring.
  - exists (s * j)%Z, k. split; [|exact Hr].
    destruct Hs as [-> | ->]; lia.
Qed.

Lemma rounded_nonneg (x : Q) : 0 <= x -> 0 <= rounded x.
Proof. apply rounded_lower, representable_0. Qed.

End RoundingFacts.

(** Sums and differences as Python prints them: [Decimal('50.00') +
    Decimal('1E-29')] is 50, a tie goes to the even digit, and a sum of at
    most 28 digits is exact. *)
Example decimal_context_samples :
  (DecimalContext.add (5000 # 100)
     (Patterns.Decimal "0.00000000000000000000000000001") == 50)%Q
  /\ (DecimalContext.add 10000000000
        (Patterns.Decimal "0.00000000000000000001") == 10000000000)%Q
  /\ (DecimalContext.sub (Patterns.Decimal "1234567890123456789012345678901.00")
        (50 # 100) == 1234567890123456789012345679000)%Q
  /\ (DecimalContext.rounded 12345678901234567890123456785
      == 12345678901234567890123456780)%Q
  /\ (DecimalContext.rounded 12345678901234567890123456775
      == 12345678901234567890123456780)%Q
  /\ (DecimalContext.rounded (99999999999999999999999999995 # 10)
      == 10000000000000000000000000000)%Q
  /\ (DecimalContext.add (2000 # 100) (3000 # 100) == 50)%Q
  /\ (DecimalContext.sub (5000 # 100) (6000 # 100) == -10)%Q.
Proof. repeat split. Qed.

(** ** [GREATEST] *)

Lemma GREATEST_max (a b : Q) : (GREATEST a b == Qmax a b)%Q.
Proof.
  unfold GREATEST. destruct (Qle_bool a b) eqn:E.
  - apply Qle_bool_iff in E. symmetry. apply Q.max_r. exact E.
  - assert (H : ~ (a <= b)%Q) by (rewrite <- Qle_bool_iff, E; discriminate).
    symmetry. apply Q.max_l. lra.
Qed.

Lemma GREATEST_floor (a : Q) : (0 <= GREATEST a 0)%Q.
Proof.
  unfold GREATEST. destruct (Qle_bool a 0) eqn:E; [lra|].
  assert (H : ~ (a <= 0)%Q) by (rewrite <- Qle_bool_iff, E; discriminate).
  lra.
Qed.

Lemma GREATEST_at_zero (x d : Q) :
  (x == 0)%Q -> (0 <= d)%Q -> (GREATEST (x - d) 0 == 0)%Q.
Proof.
  intros Hx Hd. unfold GREATEST.
  destruct (Qle_bool (x - d) 0) eqn:E; [reflexivity|].
  assert (H : ~ (x - d <= 0)%Q) by (rewrite <- Qle_bool_iff, E; discriminate).
  lra.
Qed.

Lemma GREATEST_le (x d : Q) :
  (0 <= x)%Q -> (0 <= d)%Q -> (GREATEST (x - d) 0 <= x)%Q.
Proof.
  intros Hx Hd. unfold GREATEST.
  destruct (Qle_bool (x - d) 0) eqn:E; lra.
Qed.

(** ** The store operations *)

Section StoreFacts.
Import Store.

Lemma update_user_lookup (key u : string) (f : users.row -> users.row)
  (rows : gmap string users.row) :
  update_user key f rows !! u =
  if decide (key = u) then f <$> rows !! u else rows !! u.
Proof.
  unfold update_user. destruct (decide (key = u)) as [->|Hne].
  - destruct (rows !! u) eqn:E; simpl.
    + apply lookup_insert_eq.
    + exact E.
  - destruct (rows !! key); [apply lookup_insert_ne; exact Hne | reflexivity].
Qed.

Lemma upsert_user_lookup (key u : string) (fresh : users.row)
  (f : users.row -> users.row) (rows : gmap string users.row) :
  upsert_user key fresh f rows !! u =
  if decide (key = u)
  then Some (match rows !! u with Some r => f r | None => fresh end)
  else rows !! u.
Proof.
  unfold upsert_user. destruct (decide (key = u)) as [->|Hne].
  - destruct (rows !! u); apply lookup_insert_eq.
  - destruct (rows !! key); apply lookup_insert_ne; exact Hne.
Qed.

Lemma update_user_is_Some (key u : string) (f : users.row -> users.row)
  (rows : gmap string users.row) :
  is_Some (rows !! u) -> is_Some (update_user key f rows !! u).
Proof.
  intros [r Hr]. rewrite update_user_lookup, Hr.
  destruct (decide (key = u)); simpl; eauto.
Qed.

Lemma upsert_user_is_Some (key u : string) (fresh : users.row)
  (f : users.row -> users.row) (rows : gmap string users.row) :
  is_Some (rows !! u) -> is_Some (upsert_user key fresh f rows !! u).
Proof.
  intros [r Hr]. rewrite upsert_user_lookup, Hr.
  destruct (decide (key = u)); eauto.
Qed.

Lemma upsert_user_key (key : string) (fresh : users.row)
  (f : users.row -> users.row) (rows : gmap string users.row) :
  is_Some (upsert_user key fresh f rows !! key).
Proof.
  rewrite upsert_user_lookup. destruct (decide (key = key)); [eauto|congruence].
Qed.

(** A property of every row survives an update that preserves it. *)
Lemma update_user_all (P : users.row -> Prop) (key : string)
  (f : users.row -> users.row) (rows : gmap string users.row) :
  (forall r, P r -> P (f r)) ->
  (forall u r, rows !! u = Some r -> P r) ->
  forall u r, update_user key f rows !! u = Some r -> P r.
Proof.
  intros Hf Hall u r. rewrite update_user_lookup.
  destruct (decide (key = u)) as [_|_]; [|apply Hall].
  destruct (rows !! u) as [r0|] eqn:E; simpl; [|discriminate].
  intros [= <-]. apply Hf. eapply Hall. exact E.
Qed.

Lemma upsert_user_all (P : users.row -> Prop) (key : string)
  (fresh : users.row) (f : users.row -> users.row)
  (rows : gmap string users.row) :
  P fresh -> (forall r, P r -> P (f r)) ->
  (forall u r, rows !! u = Some r -> P r) ->
  forall u r, upsert_user key fresh f rows !! u = Some r -> P r.
Proof.
  intros Hfresh Hf Hall u r. rewrite upsert_user_lookup.
  destruct (decide (key = u)) as [_|_]; [|apply Hall].
  destruct (rows !! u) as [r0|] eqn:E; intros [= <-]; [|exact Hfresh].
  apply Hf. eapply Hall. exact E.
Qed.

(** [UPDATE loans] keeps the number and the order of the rows. *)
Lemma update_loan_In (key : Z) (f : loans.row -> loans.row)
  (rows : list loans.row) (r' : loans.row) :
  In r' (update_loan key f rows) ->
  exists r, In r rows /\ r' = (if Z.eqb (loans.id r) key then f r else r).
Proof.
  unfold update_loan. rewrite in_map_iff. intros (r & <- & Hin). eauto.
Qed.

Lemma find_map (p : loans.row -> bool) (g : loans.row -> loans.row)
  (rows : list loans.row) :
  (forall r, p (g r) = p r) ->
  List.find p (map g rows) = option_map g (List.find p rows).
Proof.
  intros Hp. induction rows as [|r rows IH]; simpl; [reflexivity|].
  rewrite Hp. destruct (p r); [reflexivity | exact IH].
Qed.

Lemma filter_map (p : loans.row -> bool) (g : loans.row -> loans.row)
  (rows : list loans.row) :
  (forall r, p (g r) = p r) ->
  List.filter p (map g rows) = map g (List.filter p rows).
Proof.
  intros Hp. induction rows as [|r rows IH]; simpl; [reflexivity|].
  rewrite Hp. destruct (p r); simpl; congruence.
Qed.

Lemma latest_map (g : loans.row -> loans.row) (rows : list loans.row) :
  (forall r, loans.date_created (g r) = loans.date_created r) ->
  latest (map g rows) = option_map g (latest rows).
Proof.
  intros Hd. induction rows as [|r rows IH]; simpl; [reflexivity|].
  rewrite IH. destruct (latest rows) as [r'|]; simpl; [|reflexivity].
  rewrite !Hd. destruct (Z.ltb _ _); reflexivity.
Qed.

Lemma latest_In (rows : list loans.row) (r : loans.row) :
  latest rows = Some r -> In r rows.
Proof.
  revert r. induction rows as [|r0 rows IH]; simpl; intros r; [discriminate|].
  destruct (latest rows) as [r'|].
  - destruct (Z.ltb _ _); intros [= <-]; auto.
  - intros [= <-]. auto.
Qed.

(** The row [latest] returns has the greatest [date_created]. *)
Lemma latest_max (rows : list loans.row) (r : loans.row) :
  latest rows = Some r ->
  forall r', In r' rows -> loans.date_created r' <= loans.date_created r.
Proof.
  revert r. induction rows as [|r0 rows IH]; simpl; intros r; [discriminate|].
  destruct (latest rows) as [r1|] eqn:E.
  - destruct (Z.ltb _ _) eqn:Hlt; intros [= <-] r' [<-|Hin].
    + apply Z.ltb_lt in Hlt. lia.
    + eapply IH; eauto.
    + lia.
    + apply Z.ltb_ge in Hlt. specialize (IH r1 eq_refl r' Hin). lia.
  - intros [= <-] r' [<-|Hin]; [lia|].
    destruct rows; [destruct Hin|]. simpl in E.
    destruct (latest rows); [destruct (Z.ltb _ _)|]; discriminate.
Qed.

Lemma latest_None (rows : list loans.row) : latest rows = None -> rows = [].
Proof.
  destruct rows as [|r rows]; [reflexivity|]. simpl.
  destruct (latest rows); [destruct (Z.ltb _ _)|]; discriminate.
Qed.

End StoreFacts.

(** ** The invariant of the ledger *)

Ltac user_rows :=
  unfold user_ok, fresh_lender, bump_lender, fresh_borrower, bump_borrower,
    add_repaid, settle_unpaid, drop_lender, drop_borrower in *;
  simpl in *.

Section RowUpdates.
Variables (d : Q) (now : Z).
Hypothesis d_nonneg : (0 <= d)%Q.

Lemma fresh_lender_ok : user_ok (fresh_lender d now).
Proof. user_rows. repeat split; try lia; try lra. Qed.

Lemma fresh_borrower_ok : user_ok (fresh_borrower d now).
Proof. user_rows. repeat split; try lia; try lra. Qed.

Lemma bump_lender_ok (u : users.row) : user_ok u -> user_ok (bump_lender d now u).
Proof. user_rows. intros (?&?&?&?&?&?&?). repeat split; try lia; try lra. Qed.

Lemma bump_borrower_ok (u : users.row) : user_ok u -> user_ok (bump_borrower d now u).
Proof. user_rows. intros (?&?&?&?&?&?&?). repeat split; try lia; try lra. Qed.

Lemma add_repaid_ok (u : users.row) : user_ok u -> user_ok (add_repaid d now u).
Proof. user_rows. intros (?&?&?&?&?&?&?). repeat split; try lia; try lra. Qed.

Lemma settle_unpaid_ok (u : users.row) : user_ok u -> user_ok (settle_unpaid d now u).
Proof.
  user_rows. intros (?&?&?&?&?&?&?). repeat split; try lia; try lra.
  apply GREATEST_at_zero; assumption.
Qed.

Lemma drop_lender_ok (u : users.row) : user_ok u -> user_ok (drop_lender d now u).
Proof.
  user_rows. intros (?&?&?&?&?&?&?). repeat split; try lia; try lra.
  apply GREATEST_floor.
Qed.

Lemma drop_borrower_ok (u : users.row) : user_ok u -> user_ok (drop_borrower d now u).
Proof.
  user_rows. intros (?&?&?&?&?&?&?). repeat split; try lia; try lra.
  apply GREATEST_floor.
Qed.

End RowUpdates.

Section Invariant.
Import Text Patterns Store.

Lemma update_loan_ids (key : Z) (f : loans.row -> loans.row)
  (rows : list loans.row) :
  (forall r, loans.id (f r) = loans.id r) ->
  map loans.id (update_loan key f rows) = map loans.id rows.
Proof.
  intros Hf. unfold update_loan. rewrite map_map. apply map_ext.
  intros r. destruct (Z.eqb _ _); [apply Hf | reflexivity].
Qed.

Lemma loan_ok_mono (us us' : gmap string users.row) (r : loans.row) :
  (forall u, is_Some (us !! u) -> is_Some (us' !! u)) ->
  loan_ok us r -> loan_ok us' r.
Proof. intros Hm (?&?&?&?&?). repeat split; auto. Qed.

Lemma select_for_payment_In (key : Z) (lender : string)
  (rows : list loans.row) (r : loans.row) :
  select_for_payment key lender rows = Some r ->
  In r rows /\ loans.id r = key /\ loans.lender r = lender.
Proof.
  unfold select_for_payment. intros H. apply find_some in H as [Hin Hp].
  apply andb_prop in Hp as [Hid Hl].
  apply Z.eqb_eq in Hid. apply String.eqb_eq in Hl. auto.
Qed.

Lemma select_for_refund_In (lender borrower : string) (amount : Q)
  (currency : string) (rows : list loans.row) (r : loans.row) :
  select_for_refund lender borrower amount currency rows = Some r ->
  In r rows /\ refund_where lender borrower amount currency r = true.
Proof.
  unfold select_for_refund. intros H. apply latest_In in H.
  apply filter_In in H. exact H.
Qed.

Lemma process_loan_command_db (c : Comment) (db : DB) :
  fst (process_loan_command c db) = db.
Proof.
  unfold process_loan_command.
  destruct (loan_regex (body c)) as [[g1 g2]|]; [|reflexivity].
  destruct (author c), (submission_author c); try reflexivity.
  destruct (String.eqb _ _); reflexivity.
Qed.

Lemma process_stats_command_db (c : Comment) (db : DB) :
  fst (process_stats_command c db) = db.
Proof.
  unfold process_stats_command. destruct (stats_regex (body c)); reflexivity.
Qed.

Lemma process_confirm_command_ok (clk : Clock) (c : Comment) (db : DB) :
  ledger_ok db -> ledger_ok (fst (process_confirm_command clk c db)).
Proof.
  intros [Hu Hl Hb Hn]. unfold process_confirm_command.
  destruct (confirm_match c) as [[[g1 g2] g3]|]; [|split; assumption].
  destruct (author c) as [a|]; [|split; assumption].
  destruct (existsb _ _).
  - split; simpl; try assumption. intros r Hr. specialize (Hb r Hr). lia.
  - pose proof (Decimal_nonneg g2) as Hd.
    split; simpl.
    + apply upsert_user_all;
        [apply fresh_borrower_ok | apply bump_borrower_ok | ]; try exact Hd.
      apply upsert_user_all;
        [apply fresh_lender_ok | apply bump_lender_ok | ]; assumption.
    + intros r [Hr|Hr]%in_app_or.
      * eapply loan_ok_mono; [|apply Hl, Hr].
        intros u Hs. apply upsert_user_is_Some, upsert_user_is_Some, Hs.
      * destruct Hr as [<-|[]]. unfold loan_ok, new_loan; simpl.
        split; [exact Hd|]. split; [lra|].
        split; [apply representable_0|]. split.
        -- apply upsert_user_is_Some, upsert_user_key.
        -- apply upsert_user_key.
    + intros r [Hr|Hr]%in_app_or.
      * specialize (Hb r Hr). lia.
      * destruct Hr as [<-|[]]. simpl. lia.
    + rewrite map_app. simpl.
      apply List.NoDup_app; [exact Hn| |].
      * constructor; [intros []|constructor].
      * intros x Hx [<-|[]]. apply in_map_iff in Hx as (r & Hid & Hr).
        specialize (Hb r Hr). lia.
Qed.

Lemma process_paid_command_ok (clk : Clock) (c : Comment) (db : DB) :
  ledger_ok db -> ledger_ok (fst (process_paid_command clk c db)).
Proof.
  intros Hok. pose proof Hok as [Hu Hl Hb Hn]. unfold process_paid_command.
  destruct (paid_regex _) as [[[g1 g2] g3]|]; [|exact Hok].
  destruct (author c) as [a|]; [|exact Hok].
  destruct (negb (reads_as_id _ _)); [exact Hok|].
  destruct (select_for_payment _ _ _) as [result|] eqn:Hsel; [|exact Hok].
  destruct (negb _); [exact Hok|].
  apply select_for_payment_In in Hsel as (Hin & _ & _).
  destruct (Hl _ Hin) as (Hamount & Hrepaid & _ & _ & _).
  pose proof (Decimal_nonneg g2) as Hd.
  set (new_status := if Qle_bool _ _ then _ else _).
  set (us := if loans.status_eqb new_status loans.repaid then _ else _).
  assert (Hus : forall u r, us !! u = Some r -> user_ok r).
  { subst us. destruct (loans.status_eqb _ _).
    - apply update_user_all; [intros r; apply settle_unpaid_ok, Hamount|].
      apply update_user_all; [intros r; apply add_repaid_ok, Hd | exact Hu].
    - apply update_user_all; [intros r; apply add_repaid_ok, Hd | exact Hu]. }
  assert (Hsome : forall u, is_Some (users_rows db !! u) -> is_Some (us !! u)).
  { intros u Hs. subst us. destruct (loans.status_eqb _ _).
    - apply update_user_is_Some, update_user_is_Some, Hs.
    - apply update_user_is_Some, Hs. }
  assert (Hgoal : ledger_ok (mkDB
    (update_loan (sql_int g1)
       (set_repaid (DecimalContext.add (loans.amount_repaid result) (Decimal g2))
          new_status (datetime_now clk)) (loans_rows db)) us (loans_id_seq db))).
  2:{ destruct (select_by_id _ (loans_rows db));
        [destruct (select_by_id _ _)|]; exact Hgoal. }
  split; simpl.
  - exact Hus.
  - intros r' (r & Hr & ->)%update_loan_In.
    destruct (Z.eqb _ _).
    + destruct (Hl _ Hr) as (?&?&?&?&?).
      unfold loan_ok, set_repaid; simpl.
      split; [assumption|].
      split; [apply rounded_nonneg; lra|].
      split; [apply rounded_representable|]. split; apply Hsome; assumption.
    + eapply loan_ok_mono; [exact Hsome | apply Hl, Hr].
  - intros r' (r & Hr & ->)%update_loan_In.
    specialize (Hb r Hr). destruct (Z.eqb _ _); simpl; lia.
  - rewrite update_loan_ids; [exact Hn | reflexivity].
Qed.

Variable bot : string.

Lemma process_refund_command_ok (clk : Clock) (c : Comment) (db : DB) :
  ledger_ok db -> ledger_ok (fst (process_refund_command bot clk c db)).
Proof.
  intros Hok. pose proof Hok as [Hu Hl Hb Hn]. unfold process_refund_command.
  destruct (parent_author _) as [pa|]; [|exact Hok].
  destruct (negb _); [exact Hok|].
  destruct (negb _); [exact Hok|].
  destruct (parent_body _) as [pb|]; [|exact Hok].
  destruct (refund_loan_regex pb) as [[[[g1 g2] g3] g4]|]; [|exact Hok].
  destruct (author c) as [a|]; [|exact Hok].
  destruct (negb _); [exact Hok|].
  destruct (select_for_refund _ _ _ _ _) as [result|]; [|exact Hok].
  split; simpl.
  - apply update_user_all; [intros r; apply drop_borrower_ok|].
    apply update_user_all; [intros r; apply drop_lender_ok | exact Hu].
  - intros r' (r & Hr & ->)%update_loan_In.
    assert (Hr' : loan_ok (users_rows db) r) by apply Hl, Hr.
    eapply loan_ok_mono.
    { intros u Hs. apply update_user_is_Some, update_user_is_Some, Hs. }
    destruct (Z.eqb _ _); [|exact Hr'].
    destruct Hr' as (?&?&?&?&?). unfold loan_ok, mark_refunded; simpl. auto.
  - intros r' (r & Hr & ->)%update_loan_In.
    specialize (Hb r Hr). destruct (Z.eqb _ _); simpl; lia.
  - rewrite update_loan_ids; [exact Hn | reflexivity].
Qed.

Lemma run_ok (h : Handler) (clk : Clock) (c : Comment) (db : DB) :
  ledger_ok db -> ledger_ok (fst (run bot h clk c db)).
Proof.
  intros Hok. destruct h; simpl.
  - rewrite process_loan_command_db. exact Hok.
  - apply process_confirm_command_ok, Hok.
  - apply process_paid_command_ok, Hok.
  - apply process_refund_command_ok, Hok.
  - rewrite process_stats_command_db. exact Hok.
Qed.

Lemma call_db (h : Handler) (clk : Clock) (c : Comment) (db : DB) :
  fst (call bot h clk c db) = fst (run bot h clk c db).
Proof. unfold call. destruct (run bot h clk c db). reflexivity. Qed.

Lemma call_log (h : Handler) (clk : Clock) (c : Comment) (db : DB) :
  snd (call bot h clk c db) = [(h, snd (run bot h clk c db))].
Proof. unfold call. destruct (run bot h clk c db). reflexivity. Qed.

(** What the loop does for a comment is: nothing, or one handler. *)
Lemma comment_monitor_cases (clk : Clock) (c : Comment) (db : DB) :
  comment_monitor bot clk c db = (db, [])
  \/ exists h, comment_monitor bot clk c db = call bot h clk c db.
Proof.
  unfold comment_monitor. destruct (skipped bot c); [left; reflexivity|].
  repeat (destruct (contains _ _); [right; eexists; reflexivity|]).
  left; reflexivity.
Qed.

Lemma comment_monitor_ok (clk : Clock) (c : Comment) (db : DB) :
  ledger_ok db -> ledger_ok (fst (comment_monitor bot clk c db)).
Proof.
  intros Hok. destruct (comment_monitor_cases clk c db) as [->|[h ->]].
  - exact Hok.
  - rewrite call_db. apply run_ok, Hok.
Qed.

Lemma init_database_ok : ledger_ok init_database.
Proof.
  split; simpl.
  - intros u r. rewrite lookup_empty. discriminate.
  - intros r [].
  - intros r [].
  - constructor.
Qed.

Lemma reachable_ok (db : DB) : reachable bot db -> ledger_ok db.
Proof.
  induction 1 as [|clk c db _ IH].
  - apply init_database_ok.
  - apply comment_monitor_ok, IH.
Qed.

(** In a reachable store the next value of the sequence is the [id] of no
    loan, so the [PRIMARY KEY] never refuses an insert. *)
Lemma reachable_next_id_free (db : DB) (r : loans.row) :
  reachable bot db -> In r (loans_rows db) -> loans.id r <> loans_id_seq db.
Proof.
  intros Hreach Hr. apply reachable_ok in Hreach.
  pose proof (ids_below _ Hreach r Hr). lia.
Qed.

End Invariant.

(** ** The stores of the sample run are reachable *)

Lemma db_confirmed_reachable : reachable Scenario.bot Scenario.db_confirmed.
Proof. apply reachable_step, reachable_init. Defined.

Lemma db_partial_reachable : reachable Scenario.bot Scenario.db_partial.
Proof. apply reachable_step, db_confirmed_reachable. Defined.

Lemma db_repaid_reachable : reachable Scenario.bot Scenario.db_repaid.
Proof. apply reachable_step, db_partial_reachable. Defined.

Lemma db_refunded_reachable : reachable Scenario.bot Scenario.db_refunded.
Proof. apply reachable_step, db_confirmed_reachable. Defined.

Section Confirm.
Import Text Patterns Store.

(** C4. A Confirm command whose pattern matches and whose insert is
    accepted (no loan has its [loan_id] or the next [id] yet) commits: one loan row is appended with [amount_repaid = 0] and
    status [confirmed], from the named user (the lender) to the author (the
    borrower); the lender's [loans_as_lender] and the borrower's
    [loans_as_borrower] go up by exactly 1, [amount_lent] and
    [amount_borrowed] by exactly the principal, counted from the column
    defaults when the row did not exist; no other user's row changes. *)
Theorem confirm_commits (clk : Clock) (c : Comment) (db : DB)
  (g1 g2 g3 a : string) :
  confirm_match c = Some (g1, g2, g3) ->
  author c = Some a ->
  (forall r, In r (loans_rows db) ->
     loans.loan_id r <> time_time clk /\ loans.id r <> loans_id_seq db) ->
  let lender := lower g1 in
  let borrower := lower a in
  let principal := Decimal g2 in
  exists db' loan l' b',
    process_confirm_command clk c db =
      (db', Replied (Confirmed borrower lender principal (upper g3)
                       (loans.id loan)))
    /\ loans_rows db' = (loans_rows db ++ [loan])%list
    /\ loans.lender loan = lender /\ loans.borrower loan = borrower
    /\ loans.amount loan = principal /\ loans.currency loan = upper g3
    /\ loans.amount_repaid loan = 0%Q
    /\ loans.status loan = loans.confirmed
    /\ users_rows db' !! lender = Some l'
    /\ users.loans_as_lender l' =
         users.loans_as_lender (user_or_default db lender) + 1
    /\ (users.amount_lent l' ==
         users.amount_lent (user_or_default db lender) + principal)%Q
    /\ users_rows db' !! borrower = Some b'
    /\ users.loans_as_borrower b' =
         users.loans_as_borrower (user_or_default db borrower) + 1
    /\ (users.amount_borrowed b' ==
         users.amount_borrowed (user_or_default db borrower) + principal)%Q
    /\ (forall u, u <> lender -> u <> borrower ->
          users_rows db' !! u = users_rows db !! u).
Proof.
  intros Hm Ha Hfresh. cbv zeta.
  unfold process_confirm_command. rewrite Hm, Ha.
  assert (Hex : existsb (fun r => Z.eqb (loans.loan_id r) (time_time clk)
                                  || Z.eqb (loans.id r) (loans_id_seq db))
                  (loans_rows db) = false).
  { destruct (existsb _ _) eqn:E; [|reflexivity].
    apply existsb_exists in E as (r & Hr & Heq).
    destruct (Hfresh r Hr) as [H1 H2].
    apply orb_prop in Heq as [Heq|Heq]; apply Z.eqb_eq in Heq; contradiction. }
  rewrite Hex. clear Hm Ha Hfresh Hex.
  generalize (lower g1) (lower a) (Decimal g2). intros lender borrower principal.
  set (us1 := upsert_user lender _ _ _).
  set (us2 := upsert_user borrower _ _ _).
  assert (H1 : us1 !! lender =
            Some (match users_rows db !! lender with
                  | Some r => bump_lender principal (datetime_now clk) r
                  | None => fresh_lender principal (datetime_now clk)
                  end)).
  { subst us1. rewrite upsert_user_lookup.
    destruct (decide (lender = lender)); congruence. }
  assert (H2 : forall u, us2 !! u =
            if decide (borrower = u)
            then Some (match us1 !! u with
                       | Some r => bump_borrower principal (datetime_now clk) r
                       | None => fresh_borrower principal (datetime_now clk)
                       end)
            else us1 !! u).
  { intros u. subst us2. apply upsert_user_lookup. }
  assert (Hl : exists l', us2 !! lender = Some l'
            /\ users.loans_as_lender l' =
                 users.loans_as_lender (user_or_default db lender) + 1
            /\ (users.amount_lent l' ==
                 users.amount_lent (user_or_default db lender) + principal)%Q).
  { rewrite H2, H1. unfold user_or_default.
    destruct (decide (borrower = lender)); eexists; (split; [reflexivity|]);
      destruct (users_rows db !! lender); simpl; split; try lia; try lra;
      reflexivity. }
  assert (Hb : exists b', us2 !! borrower = Some b'
            /\ users.loans_as_borrower b' =
                 users.loans_as_borrower (user_or_default db borrower) + 1
            /\ (users.amount_borrowed b' ==
                 users.amount_borrowed (user_or_default db borrower) + principal)%Q).
  { rewrite H2. destruct (decide (borrower = borrower)); [|congruence].
    destruct (decide (lender = borrower)) as [<-|Hne].
    - rewrite H1. unfold user_or_default.
      eexists; (split; [reflexivity|]).
      destruct (users_rows db !! lender); simpl; split; try lia; try lra.
    - subst us1. rewrite upsert_user_lookup.
      destruct (decide (lender = borrower)); [congruence|].
      unfold user_or_default.
      eexists; (split; [reflexivity|]).
      destruct (users_rows db !! borrower); simpl; split; try lia; try lra. }
  destruct Hl as (l' & Hl1 & Hl2 & Hl3). destruct Hb as (b' & Hb1 & Hb2 & Hb3).
  eexists _, (new_loan (loans_id_seq db) (time_time clk) lender borrower
                principal (upper g3) (datetime_now clk) (thread_url c)), l', b'.
  split; [reflexivity|]. simpl.
  repeat (split; [first [reflexivity | assumption]|]).
  intros u Hul Hub. rewrite H2.
  destruct (decide (borrower = u)); [congruence|].
  subst us1. rewrite upsert_user_lookup.
  destruct (decide (lender = u)); [congruence|reflexivity].
Qed.

Lemma confirm_commits_witness :
  exists db' loan,
    process_confirm_command (Scenario.at_time 100) Scenario.confirm
      init_database =
      (db', Replied (Confirmed "bob" "alice" (5000 # 100) "USD" (loans.id loan)))
    /\ loans.status loan = loans.confirmed.
Proof.
  destruct (confirm_commits (Scenario.at_time 100) Scenario.confirm
              init_database "Alice" "50.00" "USD" "Bob")
    as (db' & loan & l' & b' & H & _ & _ & _ & _ & _ & _ & Hs & _).
  - reflexivity.
  - reflexivity.
  - intros r [].
  - exists db', loan. split; [exact H | exact Hs].
Defined.

End Confirm.

Section Paid.
Import Text Patterns Store.

Lemma select_by_id_found (key : Z) (lender : string) (rows : list loans.row)
  (r : loans.row) :
  select_for_payment key lender rows = Some r ->
  exists r0, select_by_id key rows = Some r0.
Proof.
  unfold select_for_payment, select_by_id.
  induction rows as [|x rows IH]; simpl; [discriminate|].
  destruct (Z.eqb (loans.id x) key); simpl; [eauto|exact IH].
Qed.

Lemma select_by_id_In (key : Z) (rows : list loans.row) (r : loans.row) :
  select_by_id key rows = Some r -> In r rows /\ loans.id r = key.
Proof.
  unfold select_by_id. intros H. apply find_some in H as [Hin Hid].
  apply Z.eqb_eq in Hid. auto.
Qed.

(** After [UPDATE loans ... WHERE id = key], both lookups by that [id]
    return the updated row. *)
Lemma select_by_id_updated (key : Z) (f : loans.row -> loans.row)
  (rows : list loans.row) (r : loans.row) :
  (forall x, loans.id (f x) = loans.id x) ->
  select_by_id key rows = Some r ->
  select_by_id key (update_loan key f rows) = Some (f r).
Proof.
  intros Hf Hr. unfold select_by_id, update_loan. rewrite find_map.
  - fold (select_by_id key rows). rewrite Hr. simpl.
    apply select_by_id_In in Hr as [_ <-]. rewrite Z.eqb_refl. reflexivity.
  - intros x. destruct (Z.eqb (loans.id x) key) eqn:E; [|exact E].
    rewrite Hf. exact E.
Qed.

Lemma select_for_payment_updated (key : Z) (lender : string)
  (f : loans.row -> loans.row) (rows : list loans.row) (r : loans.row) :
  (forall x, loans.id (f x) = loans.id x) ->
  (forall x, loans.lender (f x) = loans.lender x) ->
  select_for_payment key lender rows = Some r ->
  select_for_payment key lender (update_loan key f rows) = Some (f r).
Proof.
  intros Hf Hg Hr. unfold select_for_payment, update_loan. rewrite find_map.
  - fold (select_for_payment key lender rows). rewrite Hr. simpl.
    apply select_for_payment_In in Hr as (_ & <- & _).
    rewrite Z.eqb_refl. reflexivity.
  - intros x. destruct (Z.eqb (loans.id x) key) eqn:E; [|rewrite E; reflexivity].
    rewrite Hf, Hg, E. reflexivity.
Qed.

Lemma reads_as_id_range (key : Z) (db : DB) :
  key <= INTEGER_max -> reads_as_id key db = true.
Proof.
  intros H. unfold reads_as_id. apply orb_true_iff. left.
  apply Z.leb_le, H.
Qed.

Lemma reads_as_id_known (key : Z) (db : DB) :
  key < loans_id_seq db -> reads_as_id key db = true.
Proof.
  intros H. unfold reads_as_id. apply orb_true_iff. right.
  apply Z.ltb_lt, H.
Qed.

(** The id of a loan of a well-formed store is read as an id. *)
Lemma reads_as_id_loan (db : DB) (loan : loans.row) :
  ledger_ok db -> In loan (loans_rows db) ->
  reads_as_id (loans.id loan) db = true.
Proof.
  intros Hok Hin. apply reads_as_id_known, (ids_below _ Hok), Hin.
Qed.


(** The handler on a command that passes the loan, lender and currency
    checks, whatever the status of the loan. *)
Lemma paid_recorded (clk : Clock) (c : Comment) (db : DB)
  (g1 g2 g3 a : string) (loan : loans.row) :
  paid_regex (text_to_search (body c)) = Some (g1, g2, g3) ->
  author c = Some a ->
  reads_as_id (sql_int g1) db = true ->
  select_for_payment (sql_int g1) (lower a) (loans_rows db) = Some loan ->
  loans.currency loan = upper g3 ->
  let now := datetime_now clk in
  let paid := Decimal g2 in
  let new_repaid := DecimalContext.add (loans.amount_repaid loan) paid in
  let f := set_repaid new_repaid (status_after loan paid) now in
  let remaining := DecimalContext.sub (loans.amount loan) new_repaid in
  exists before,
    select_by_id (sql_int g1) (loans_rows db) = Some before
    /\ process_paid_command clk c db =
       ({| loans_rows := update_loan (sql_int g1) f (loans_rows db);
           users_rows := users_after_paid loan paid now (users_rows db);
           loans_id_seq := loans_id_seq db |},
        Replied (PaymentRecorded (loans.borrower loan) (lower a) paid (upper g3)
                   before (f before)
                   (if negb (Qle_bool remaining 0) then remaining else 0%Q))).
Proof.
  intros Hm Ha Hid Hsel Hcur. cbv zeta.
  destruct (select_by_id_found _ _ _ _ Hsel) as [before Hbefore].
  exists before. split; [exact Hbefore|].
  unfold process_paid_command. rewrite Hm, Ha, Hid, Hsel, Hcur, String.eqb_refl.
  simpl negb. cbv iota. rewrite Hbefore.
  fold (status_after loan (Decimal g2)).
  rewrite (select_by_id_updated _ _ _ before); [|reflexivity|exact Hbefore].
  unfold users_after_paid. reflexivity.
Qed.

Lemma status_after_repaid (loan : loans.row) (paid : Q) :
  status_after loan paid = loans.repaid <->
  (loans.amount loan <= DecimalContext.add (loans.amount_repaid loan) paid)%Q.
Proof.
  unfold status_after. rewrite <- Qle_bool_iff.
  destruct (Qle_bool _ _); split; congruence.
Qed.

Lemma status_after_partial (loan : loans.row) (paid : Q) :
  status_after loan paid = loans.partially_repaid <->
  (DecimalContext.add (loans.amount_repaid loan) paid < loans.amount loan)%Q.
Proof.
  unfold status_after. destruct (Qle_bool _ _) eqn:E.
  - apply Qle_bool_iff in E. split; [discriminate | lra].
  - assert (~ (loans.amount loan
               <= DecimalContext.add (loans.amount_repaid loan) paid)%Q)
      by (rewrite <- Qle_bool_iff, E; discriminate).
    split; [lra | reflexivity].
Qed.

(** The borrower's row after a recorded payment. *)
Lemma users_after_paid_borrower (loan : loans.row) (paid : Q) (now : Z)
  (us : gmap string users.row) (u : users.row) :
  us !! loans.borrower loan = Some u ->
  users_after_paid loan paid now us !! loans.borrower loan =
  Some (if loans.status_eqb (status_after loan paid) loans.repaid
        then settle_unpaid (loans.amount loan) now (add_repaid paid now u)
        else add_repaid paid now u).
Proof.
  intros Hu. unfold users_after_paid.
  destruct (loans.status_eqb _ _); rewrite !update_user_lookup;
    destruct (decide (loans.borrower loan = loans.borrower loan)); try congruence;
    rewrite Hu; reflexivity.
Qed.

Lemma users_after_paid_other (loan : loans.row) (paid : Q) (now : Z)
  (us : gmap string users.row) (u : string) :
  u <> loans.borrower loan ->
  users_after_paid loan paid now us !! u = us !! u.
Proof.
  intros Hu. unfold users_after_paid.
  destruct (loans.status_eqb _ _); rewrite !update_user_lookup;
    destruct (decide (loans.borrower loan = u)); congruence.
Qed.

Lemma remaining_max (r : Q) :
  ((if negb (Qle_bool r 0) then r else 0) == Qmax r 0)%Q.
Proof.
  destruct (Qle_bool r 0) eqn:E; simpl.
  - apply Qle_bool_iff in E. symmetry. apply Q.max_r. exact E.
  - assert (~ (r <= 0)%Q) by (rewrite <- Qle_bool_iff, E; discriminate).
    symmetry. apply Q.max_l. lra.
Qed.

End Paid.

Section PaidClaims.
Import Text Patterns Store.







End PaidClaims.

Section PaidOnTerminalLoan.
Import Text Patterns Store.

(** C1, as the code has it. The paid handler never reads the status of
    the loan: a Paid command addressed to a [repaid] or [refunded] loan
    that passes the loan, lender and currency checks (its id within the
    [INTEGER] range) is recorded like any other. The reply is the payment
    report, not an error; [amount_repaid] becomes the old value plus the
    amount paid as the decimal context computes it (the exact sum when that
    has at most 28 significant digits); the status is written again,
    [repaid] if the new [amount_repaid] reaches the principal and
    [partially_repaid] if not; and when it is [repaid] the floored
    decrement of the borrower's [unpaid_loans] and [unpaid_amount] is
    applied once more. *)
Theorem paid_on_terminal_loan (clk : Clock) (c : Comment) (db : DB)
  (g1 g2 g3 a : string) (loan : loans.row) :
  paid_regex (text_to_search (body c)) = Some (g1, g2, g3) ->
  author c = Some a ->
  sql_int g1 <= INTEGER_max ->
  select_for_payment (sql_int g1) (lower a) (loans_rows db) = Some loan ->
  loans.currency loan = upper g3 ->
  terminal (loans.status loan) ->
  let paid := Decimal g2 in
  exists db' loan' before after remaining,
    process_paid_command clk c db =
      (db', Replied (PaymentRecorded (loans.borrower loan) (lower a) paid
                       (upper g3) before after remaining))
    /\ is_error (snd (process_paid_command clk c db)) = false
    /\ select_for_payment (sql_int g1) (lower a) (loans_rows db') = Some loan'
    /\ loans.amount_repaid loan' =
         DecimalContext.add (loans.amount_repaid loan) paid
    /\ (DecimalContext.representable (loans.amount_repaid loan + paid) ->
          (loans.amount_repaid loan' == loans.amount_repaid loan + paid)%Q)
    /\ (loans.status loan' = loans.repaid <->
          (loans.amount loan <= loans.amount_repaid loan')%Q)
    /\ (loans.status loan' = loans.partially_repaid <->
          (loans.amount_repaid loan' < loans.amount loan)%Q)
    /\ (forall u, users_rows db !! loans.borrower loan = Some u ->
          loans.status loan' = loans.repaid ->
          exists u', users_rows db' !! loans.borrower loan = Some u'
            /\ users.unpaid_loans u' = Z.max (users.unpaid_loans u - 1) 0
            /\ (users.unpaid_amount u' ==
                  Qmax (users.unpaid_amount u - loans.amount loan) 0)%Q).
Proof.
  intros Hm Ha Hid Hsel Hcur _. cbv zeta.
  destruct (paid_recorded clk c db g1 g2 g3 a loan Hm Ha
              (reads_as_id_range _ db Hid) Hsel Hcur)
    as (before & Hbefore & Hrun).
  cbv zeta in Hrun. rewrite Hrun.
  set (f := set_repaid _ _ _).
  eexists _, (f loan), before, (f before), _.
  split; [reflexivity|]. split; [reflexivity|].
  simpl loans_rows. simpl users_rows.
  split; [apply select_for_payment_updated; [reflexivity..|exact Hsel]|].
  split; [reflexivity|].
  split; [intros Hfit; apply rounded_exact, Hfit|].
  split; [apply status_after_repaid|].
  split; [apply status_after_partial|].
  intros u Hu Hst. rewrite (users_after_paid_borrower _ _ _ _ u Hu).
  subst f. simpl in Hst. rewrite Hst. simpl.
  eexists. split; [reflexivity|]. simpl.
  split; [reflexivity | apply GREATEST_max].
Qed.

Lemma paid_on_terminal_loan_witness :
  exists db' loan' before after remaining,
    process_paid_command (Scenario.at_time 400) Scenario.paid_10
      Scenario.db_repaid =
      (db', Replied (PaymentRecorded "bob" "alice" (10 # 1) "USD"
                       before after remaining))
    /\ (loans.amount_repaid loan' == 60)%Q.
Proof.
  destruct (paid_on_terminal_loan (Scenario.at_time 400) Scenario.paid_10
              Scenario.db_repaid "1" "10" "USD" "alice"
              (loans.mk 1 100 "alice" "bob" (5000 # 100) "USD" 100000000
                 "https://www.reddit.com/r/loans/comments/1/req/"
                 loans.repaid 50 (Some 300000000)))
    as (db' & loan' & before & after & remaining & H1 & _ & _ & H2 & _).
  - reflexivity.
  - reflexivity.
  - vm_compute. discriminate.
  - vm_compute. reflexivity.
  - reflexivity.
  - left. reflexivity.
  - exists db', loan', before, after, remaining.
    split; [exact H1|]. rewrite H2. vm_compute. reflexivity.
Defined.

(** Loan 1, from alice to bob, has been repaid in full (20.00 then 30.00 of
    50.00 USD). Alice's further [$paid_with_id 1 10 USD] is not rejected:
    the answer is no error and the store changes, the loan and bob's
    aggregate now standing at 60.00 repaid. *)
Lemma paid_on_repaid_loan_is_recorded :
  (exists r, select_by_id 1 (loans_rows Scenario.db_repaid) = Some r
     /\ loans.status r = loans.repaid
     /\ (loans.amount_repaid r == 50)%Q)
  /\ ~ (is_error (snd (process_paid_command (Scenario.at_time 400)
                         Scenario.paid_10 Scenario.db_repaid)) = true
        /\ fst (process_paid_command (Scenario.at_time 400)
                  Scenario.paid_10 Scenario.db_repaid) = Scenario.db_repaid)
  /\ (exists r,
        select_by_id 1
          (loans_rows (fst (process_paid_command (Scenario.at_time 400)
                              Scenario.paid_10 Scenario.db_repaid))) = Some r
        /\ loans.status r = loans.repaid
        /\ (loans.amount_repaid r == 60)%Q)
  /\ (exists u,
        users_rows (fst (process_paid_command (Scenario.at_time 400)
                           Scenario.paid_10 Scenario.db_repaid)) !! "bob"
        = Some u
        /\ (users.amount_repaid u == 60)%Q).
Proof.
  split.
  { eexists. split; [vm_compute; reflexivity|]. split; reflexivity. }
  split.
  { intros [H _]. vm_compute in H. discriminate H. }
  split.
  { eexists. split; [vm_compute; reflexivity|]. split; reflexivity. }
  eexists. split; [vm_compute; reflexivity|]. reflexivity.
Qed.

End PaidOnTerminalLoan.

Section Refund.
Import Text Patterns Store.

Variable bot : string.

Lemma process_refund_command_split (clk : Clock) (c : Comment) (db : DB) :
  process_refund_command bot clk c db =
  match refund_request bot c with
  | NotARefund => (db, Silent)
  | RefundRaises => (db, Raised)
  | NotTheLender => (db, Replied OnlyLender)
  | RefundOf lender borrower amount currency =>
      refund_transaction (datetime_now clk) lender borrower amount currency db
  end.
Proof.
  unfold process_refund_command, refund_request, refund_transaction.
  destruct (parent_author _); [|reflexivity].
  destruct (negb _); [reflexivity|].
  destruct (negb _); [reflexivity|].
  destruct (parent_body _) as [pb|]; [|reflexivity].
  destruct (refund_loan_regex pb) as [[[[g1 g2] g3] g4]|]; [|reflexivity].
  destruct (author c); [|reflexivity].
  destruct (negb _); reflexivity.
Qed.

(** The lookup does not read [status] or [last_updated]: marking rows as
    refunded changes neither the rows it considers nor their order. *)
Lemma select_for_refund_marked (key now : Z) (lender borrower : string)
  (amount : Q) (currency : string) (rows : list loans.row) :
  select_for_refund lender borrower amount currency
    (update_loan key (mark_refunded now) rows) =
  option_map (fun r => if Z.eqb (loans.id r) key then mark_refunded now r else r)
    (select_for_refund lender borrower amount currency rows).
Proof.
  unfold select_for_refund, update_loan.
  rewrite filter_map.
  - apply latest_map. intros r. destruct (Z.eqb _ _); reflexivity.
  - intros r. destruct (Z.eqb _ _); reflexivity.
Qed.

Lemma select_for_refund_candidate (lender borrower : string) (amount : Q)
  (currency : string) (rows : list loans.row) (r : loans.row) :
  select_for_refund lender borrower amount currency rows = Some r ->
  refund_candidate lender borrower amount currency rows r.
Proof.
  intros Hsel. destruct (select_for_refund_In _ _ _ _ _ _ Hsel) as [Hin Hw].
  split; [exact Hin|]. split; [exact Hw|].
  intros r' Hin' Hw'. unfold select_for_refund in Hsel.
  eapply latest_max; [exact Hsel|]. apply filter_In. auto.
Qed.

(** Whichever row SQL picks among equal dates, it stays a candidate once
    marked as refunded: the lookup cannot come back empty afterwards. *)
Lemma refund_candidate_marked (key now : Z) (lender borrower : string)
  (amount : Q) (currency : string) (rows : list loans.row) (r : loans.row) :
  refund_candidate lender borrower amount currency rows r ->
  refund_candidate lender borrower amount currency
    (update_loan key (mark_refunded now) rows)
    (if Z.eqb (loans.id r) key then mark_refunded now r else r)
  /\ select_for_refund lender borrower amount currency
       (update_loan key (mark_refunded now) rows) <> None.
Proof.
  intros (Hin & Hw & Hmax).
  assert (Hc : refund_candidate lender borrower amount currency
                 (update_loan key (mark_refunded now) rows)
                 (if Z.eqb (loans.id r) key then mark_refunded now r else r)).
  { split; [|split].
    - unfold update_loan. apply in_map_iff. exists r. auto.
    - destruct (Z.eqb _ _); exact Hw.
    - intros r' (r0 & Hr0 & ->)%update_loan_In Hw'.
      assert (loans.date_created r0 <= loans.date_created r).
      { apply Hmax; [exact Hr0|]. destruct (Z.eqb (loans.id r0) key); exact Hw'. }
      destruct (Z.eqb (loans.id r0) key), (Z.eqb (loans.id r) key); simpl; lia. }
  split; [exact Hc|].
  destruct Hc as (Hin' & Hw' & _). unfold select_for_refund. intros Hnone.
  apply latest_None in Hnone.
  assert (Hf : In (if Z.eqb (loans.id r) key then mark_refunded now r else r)
                 (List.filter (refund_where lender borrower amount currency)
                    (update_loan key (mark_refunded now) rows)))
    by (apply filter_In; auto).
  rewrite Hnone in Hf. destruct Hf.
Qed.

Lemma refund_users_lender (lender borrower : string) (amount : Q) (now : Z)
  (us : gmap string users.row) (u : users.row) :
  us !! lender = Some u ->
  exists u',
    update_user borrower (drop_borrower amount now)
      (update_user lender (drop_lender amount now) us) !! lender = Some u'
    /\ users.loans_as_lender u' = Z.max (users.loans_as_lender u - 1) 0
    /\ users.amount_lent u' = GREATEST (users.amount_lent u - amount) 0.
Proof.
  intros Hu. rewrite !update_user_lookup.
  destruct (decide (lender = lender)); [|congruence]. rewrite Hu.
  destruct (decide (borrower = lender)); simpl; eexists;
    (split; [reflexivity|]); split; reflexivity.
Qed.

Lemma refund_users_borrower (lender borrower : string) (amount : Q) (now : Z)
  (us : gmap string users.row) (u : users.row) :
  us !! borrower = Some u ->
  exists u',
    update_user borrower (drop_borrower amount now)
      (update_user lender (drop_lender amount now) us) !! borrower = Some u'
    /\ users.loans_as_borrower u' = Z.max (users.loans_as_borrower u - 1) 0
    /\ users.amount_borrowed u' = GREATEST (users.amount_borrowed u - amount) 0.
Proof.
  intros Hu. rewrite !update_user_lookup.
  destruct (decide (borrower = borrower)); [|congruence]. rewrite Hu.
  destruct (decide (lender = borrower)); simpl; eexists;
    (split; [reflexivity|]); split; reflexivity.
Qed.

End Refund.

Section RefundClaims.
Import Text Patterns Store.

(** C2, as the code has it. The refund lookup filters on lender, borrower,
    amount and currency only: it returns a row with the greatest
    [date_created] among all such loans, refunded ones included. So after
    a successful Refund, a second Refund command for the same lender,
    borrower, amount and currency finds the same loan again and succeeds
    again: the reply is the refund notice, never the not-found error, the
    loan stays [refunded], and the floored decrements are applied to the
    lender's and the borrower's statistics once more. *)
Theorem refund_finds_refunded_loan (bot : string) (clk1 clk2 : Clock)
  (c1 c2 : Comment) (db db1 : DB)
  (lender borrower : string) (amount : Q) (currency : string) :
  refund_request bot c1 = RefundOf lender borrower amount currency ->
  refund_request bot c2 = RefundOf lender borrower amount currency ->
  process_refund_command bot clk1 c1 db =
    (db1, Replied (Refunded lender borrower amount currency)) ->
  exists loan loan1 db2,
    select_for_refund lender borrower amount currency (loans_rows db) = Some loan
    /\ (forall r, In r (loans_rows db) ->
          refund_where lender borrower amount currency r = true ->
          loans.date_created r <= loans.date_created loan)
    /\ select_for_refund lender borrower amount currency (loans_rows db1)
       = Some loan1
    /\ loans.id loan1 = loans.id loan
    /\ loans.status loan1 = loans.refunded
    /\ process_refund_command bot clk2 c2 db1 =
         (db2, Replied (Refunded lender borrower amount currency))
    /\ select_for_refund lender borrower amount currency (loans_rows db2)
       = Some (mark_refunded (datetime_now clk2) loan1)
    /\ (forall u, users_rows db1 !! lender = Some u ->
          exists u', users_rows db2 !! lender = Some u'
            /\ users.loans_as_lender u' = Z.max (users.loans_as_lender u - 1) 0
            /\ (users.amount_lent u' ==
                  Qmax (users.amount_lent u - amount) 0)%Q)
    /\ (forall u, users_rows db1 !! borrower = Some u ->
          exists u', users_rows db2 !! borrower = Some u'
            /\ users.loans_as_borrower u' =
                 Z.max (users.loans_as_borrower u - 1) 0
            /\ (users.amount_borrowed u' ==
                  Qmax (users.amount_borrowed u - amount) 0)%Q).
Proof.
  intros Hr1 Hr2. rewrite !process_refund_command_split, Hr1, Hr2.
  unfold refund_transaction.
  destruct (select_for_refund _ _ _ _ (loans_rows db)) as [loan|] eqn:Hsel;
    [|discriminate].
  intros [= <-]. simpl loans_rows. simpl users_rows.
  assert (Hsel1 : select_for_refund lender borrower amount currency
                    (update_loan (loans.id loan)
                       (mark_refunded (datetime_now clk1)) (loans_rows db))
                  = Some (mark_refunded (datetime_now clk1) loan)).
  { rewrite select_for_refund_marked, Hsel. simpl.
    rewrite Z.eqb_refl. reflexivity. }
  rewrite Hsel1. simpl loans.id.
  eexists loan, _, _. split; [reflexivity|].
  split.
  { intros r Hin Hw. unfold select_for_refund in Hsel.
    eapply latest_max; [exact Hsel|]. apply filter_In. auto. }
  split; [reflexivity|]. split; [reflexivity|]. split; [reflexivity|].
  split; [reflexivity|]. simpl loans_rows. simpl users_rows.
  split.
  { rewrite select_for_refund_marked, Hsel1. simpl.
    rewrite Z.eqb_refl. reflexivity. }
  split; intros u Hu.
  - destruct (refund_users_lender lender borrower amount (datetime_now clk2)
                _ u Hu) as (u' & H1 & H2 & H3).
    exists u'. split; [exact H1|]. split; [exact H2|].
    rewrite H3. apply GREATEST_max.
  - destruct (refund_users_borrower lender borrower amount (datetime_now clk2)
                _ u Hu) as (u' & H1 & H2 & H3).
    exists u'. split; [exact H1|]. split; [exact H2|].
    rewrite H3. apply GREATEST_max.
Qed.

Lemma refund_finds_refunded_loan_witness :
  exists loan1 db2,
    select_for_refund "alice" "bob" (5000 # 100) "USD"
      (loans_rows Scenario.db_refunded) = Some loan1
    /\ loans.status loan1 = loans.refunded
    /\ process_refund_command Scenario.bot (Scenario.at_time 300)
         Scenario.refund Scenario.db_refunded =
       (db2, Replied (Refunded "alice" "bob" (5000 # 100) "USD")).
Proof.
  destruct (refund_finds_refunded_loan Scenario.bot (Scenario.at_time 200)
              (Scenario.at_time 300) Scenario.refund Scenario.refund
              Scenario.db_confirmed Scenario.db_refunded
              "alice" "bob" (5000 # 100) "USD")
    as (loan & loan1 & db2 & _ & _ & H1 & _ & H2 & H3 & _).
  - reflexivity.
  - reflexivity.
  - vm_compute. reflexivity.
  - exists loan1, db2. auto.
Defined.

(** Bob confirmed 50.00 USD from alice and alice refunded it: the only
    loan in the table is [refunded]. Alice's second "Refunded" under the
    same confirmation is answered with the refund notice again, not with
    the not-found error. *)
Lemma second_refund_is_not_rejected :
  snd (comment_monitor Scenario.bot (Scenario.at_time 200) Scenario.refund
         Scenario.db_confirmed)
    = [(refund_command, Replied (Refunded "alice" "bob" (5000 # 100) "USD"))]
  /\ map loans.status (loans_rows Scenario.db_refunded) = [loans.refunded]
  /\ snd (comment_monitor Scenario.bot (Scenario.at_time 300) Scenario.refund
            Scenario.db_refunded)
     = [(refund_command, Replied (Refunded "alice" "bob" (5000 # 100) "USD"))]
  /\ snd (comment_monitor Scenario.bot (Scenario.at_time 300) Scenario.refund
            Scenario.db_refunded)
     <> [(refund_command, Replied (RefundNotFound "bob" (5000 # 100) "USD"))].
Proof.
  split; [vm_compute; reflexivity|].
  split; [vm_compute; reflexivity|].
  split; [vm_compute; reflexivity|].
  vm_compute. discriminate.
Qed.

End RefundClaims.

(** ** How one handler call changes one [users] row *)

Section UserRows.
Import Text Patterns Store.

(** The confirm handler copies [amount_repaid], [unpaid_loans] and
    [unpaid_amount] of an existing row and gives a new row their defaults. *)
Lemma confirm_user_row (clk : Clock) (c : Comment) (db : DB)
  (u : string) (r' : users.row) :
  users_rows (fst (process_confirm_command clk c db)) !! u = Some r' ->
  users.unpaid_loans r' = users.unpaid_loans (user_or_default db u)
  /\ users.unpaid_amount r' = users.unpaid_amount (user_or_default db u)
  /\ users.amount_repaid r' = users.amount_repaid (user_or_default db u).
Proof.
  unfold process_confirm_command, user_or_default.
  destruct (confirm_match c) as [[[g1 g2] g3]|];
    [|simpl; intros ->; auto].
  destruct (author c) as [a|]; [|simpl; intros ->; auto].
  destruct (existsb _ _); [simpl; intros ->; auto|].
  simpl. rewrite !upsert_user_lookup.
  destruct (decide (lower a = u)), (decide (lower g1 = u));
    destruct (users_rows db !! u); intros [= <-]; simpl; auto.
Qed.

(** The paid handler leaves a row alone, or adds a non-negative payment
    to [amount_repaid], or does that and the floored decrement by the
    principal of a loan of the table. *)
Lemma paid_user_row (clk : Clock) (c : Comment) (db : DB)
  (u : string) (r r' : users.row) :
  users_rows db !! u = Some r ->
  users_rows (fst (process_paid_command clk c db)) !! u = Some r' ->
  r' = r
  \/ exists (paid : Q) (now : Z),
       (0 <= paid)%Q
       /\ (r' = add_repaid paid now r
           \/ exists loan, In loan (loans_rows db)
                /\ r' = settle_unpaid (loans.amount loan) now
                          (add_repaid paid now r)).
Proof.
  intros Hr. unfold process_paid_command.
  destruct (paid_regex _) as [[[g1 g2] g3]|];
    [|simpl; rewrite Hr; intros [= <-]; auto].
  destruct (author c) as [a|]; [|simpl; rewrite Hr; intros [= <-]; auto].
  destruct (negb (reads_as_id _ _)); [simpl; rewrite Hr; intros [= <-]; auto|].
  destruct (select_for_payment _ _ _) as [loan|] eqn:Hsel;
    [|simpl; rewrite Hr; intros [= <-]; auto].
  destruct (negb _); [simpl; rewrite Hr; intros [= <-]; auto|].
  apply select_for_payment_In in Hsel as (Hin & _).
  set (us := if loans.status_eqb _ _ then _ else _).
  intros H.
  assert (Hus : us !! u = Some r').
  { destruct (select_by_id _ (loans_rows db));
      [destruct (select_by_id _ _)|]; exact H. }
  clear H. subst us.
  destruct (loans.status_eqb _ _); rewrite !update_user_lookup in Hus;
    destruct (decide (loans.borrower loan = u)); rewrite Hr in Hus;
    simpl in Hus; injection Hus as <-; auto; right;
    exists (Decimal g2), (datetime_now clk);
    (split; [apply Decimal_nonneg|]); eauto.
Qed.

(** The refund handler leaves a row alone or applies one or both of its
    floored decrements, by a non-negative amount. *)
Lemma refund_user_row (bot : string) (clk : Clock) (c : Comment) (db : DB)
  (u : string) (r r' : users.row) :
  users_rows db !! u = Some r ->
  users_rows (fst (process_refund_command bot clk c db)) !! u = Some r' ->
  r' = r
  \/ exists (amount : Q) (now : Z),
       (0 <= amount)%Q
       /\ (r' = drop_lender amount now r
           \/ r' = drop_borrower amount now r
           \/ r' = drop_borrower amount now (drop_lender amount now r)).
Proof.
  intros Hr. unfold process_refund_command.
  destruct (parent_author _); [|simpl; rewrite Hr; intros [= <-]; auto].
  destruct (negb _); [simpl; rewrite Hr; intros [= <-]; auto|].
  destruct (negb _); [simpl; rewrite Hr; intros [= <-]; auto|].
  destruct (parent_body _) as [pb|]; [|simpl; rewrite Hr; intros [= <-]; auto].
  destruct (refund_loan_regex pb) as [[[[g1 g2] g3] g4]|];
    [|simpl; rewrite Hr; intros [= <-]; auto].
  destruct (author c); [|simpl; rewrite Hr; intros [= <-]; auto].
  destruct (negb _); [simpl; rewrite Hr; intros [= <-]; auto|].
  destruct (select_for_refund _ _ _ _ _);
    [|simpl; rewrite Hr; intros [= <-]; auto].
  simpl. rewrite !update_user_lookup.
  destruct (decide (lower g1 = u)), (decide (lower g4 = u)); rewrite Hr;
    simpl; intros [= <-]; auto; right;
    exists (Decimal g2), (datetime_now clk);
    (split; [apply Decimal_nonneg|]); auto.
Qed.

(** Only the confirm handler adds rows to [users]. *)
Lemma paid_keeps_users (clk : Clock) (c : Comment) (db : DB) (u : string) :
  users_rows db !! u = None ->
  users_rows (fst (process_paid_command clk c db)) !! u = None.
Proof.
  intros Hr. unfold process_paid_command.
  destruct (paid_regex _) as [[[g1 g2] g3]|]; [|exact Hr].
  destruct (author c) as [a|]; [|exact Hr].
  destruct (negb (reads_as_id _ _)); [exact Hr|].
  destruct (select_for_payment _ _ _) as [loan|]; [|exact Hr].
  destruct (negb _); [exact Hr|].
  set (us := if loans.status_eqb _ _ then _ else _).
  assert (Hus : us !! u = None).
  { subst us. destruct (loans.status_eqb _ _); rewrite !update_user_lookup;
      destruct (decide (loans.borrower loan = u)); rewrite Hr; reflexivity. }
  destruct (select_by_id _ (loans_rows db));
    [destruct (select_by_id _ _)|]; exact Hus.
Qed.

End UserRows.

Section Offer.
Import Text Patterns.

(** C8, at the input on which the code departs from it. Alice's comment
    [$loan 50 USD] stands under a post whose author is gone. The offer
    handler reads [post.author.name] with no guard and outside any [try]:
    the call does not return silently, the exception leaves the handler,
    and the comment loop records it as raised (in the source it is caught
    by the [except] around the whole stream, which logs it, sleeps and
    reconnects). The store is untouched, as after every offer. The missing
    author is guarded everywhere else: the comment loop passes over a
    comment without author and the post loop leaves a post without author
    unanswered. With the lender as borrower the handler does return
    silently. *)
Theorem offer_under_deleted_post_raises (db : DB) :
  process_loan_command Scenario.orphan_offer db = (db, Raised)
  /\ comment_monitor Scenario.bot (Scenario.at_time 100) Scenario.orphan_offer db
     = (db, [(loan_command, Raised)])
  /\ comment_monitor Scenario.bot (Scenario.at_time 100) Scenario.deleted_offer db
     = (db, [])
  /\ handle_new_post (mkPost None "[REQ] 50 USD") db = None
  /\ process_loan_command Scenario.self_offer db = (db, Silent).
Proof. repeat split. Qed.

End Offer.

Section SelfLoan.

(** C3, at the input on which the code departs from it. On a fresh
    database, bob's comment [$confirm /u/bob 50 USD] is confirmed: the
    handler, unlike the offer handler, never compares the lender with the
    borrower, so loan 1 is created with bob on both sides and bob's row
    counts it once as lender and once as borrower. *)
Theorem self_confirm_creates_loan :
  snd (comment_monitor Scenario.bot (Scenario.at_time 100)
         Scenario.self_confirm init_database)
    = [(confirm_command, Replied (Confirmed "bob" "bob" 50 "USD" 1))]
  /\ (exists loan,
        loans_rows (fst (comment_monitor Scenario.bot (Scenario.at_time 100)
                           Scenario.self_confirm init_database)) = [loan]
        /\ loans.lender loan = "bob" /\ loans.borrower loan = "bob"
        /\ loans.status loan = loans.confirmed)
  /\ (exists u,
        users_rows (fst (comment_monitor Scenario.bot (Scenario.at_time 100)
                           Scenario.self_confirm init_database)) !! "bob"
        = Some u
        /\ users.loans_as_lender u = 1 /\ users.loans_as_borrower u = 1)
  /\ snd (comment_monitor Scenario.bot (Scenario.at_time 100)
            Scenario.self_offer init_database)
     = [(loan_command, Silent)].
Proof.
  split; [vm_compute; reflexivity|].
  split.
  { eexists. split; [vm_compute; reflexivity|]. repeat split. }
  split.
  { eexists. split; [vm_compute; reflexivity|]. split; reflexivity. }
  vm_compute. reflexivity.
Qed.

End SelfLoan.

Section Dispatch.
Import Text.

Variable bot : string.

Lemma selected_unique (c : Comment) (h1 h2 : Handler) :
  selected bot c h1 -> selected bot c h2 -> h1 = h2.
Proof.
  intros (_ & M1 & E1) (_ & M2 & E2).
  destruct (Nat.lt_trichotomy (rank h1) (rank h2)) as [Hlt|[Heq|Hgt]].
  - rewrite (E2 h1 Hlt) in M1. discriminate.
  - destruct h1, h2; simpl in Heq; congruence.
  - rewrite (E1 h2 Hgt) in M2. discriminate.
Qed.

Ltac earlier_absent :=
  let h' := fresh "h'" in
  let Hlt := fresh "Hlt" in
  intros h' Hlt; destruct h'; simpl in Hlt; try lia; assumption.

Lemma comment_monitor_selects (clk : Clock) (c : Comment) (db : DB) :
  (skipped bot c = true /\ comment_monitor bot clk c db = (db, []))
  \/ (skipped bot c = false /\ (forall h, mentions c h = false)
      /\ comment_monitor bot clk c db = (db, []))
  \/ (exists h, selected bot c h
        /\ comment_monitor bot clk c db = call bot h clk c db).
Proof.
  unfold comment_monitor, selected, mentions.
  destruct (skipped bot c); [left; auto|]. right.
  destruct (contains "$loan" _) eqn:E0.
  { right. exists loan_command. repeat split; [exact E0 | earlier_absent]. }
  destruct (contains "$confirm" _) eqn:E1.
  { right. exists confirm_command. repeat split; [exact E1 | earlier_absent]. }
  destruct (contains "$paid_with_id" _) eqn:E2.
  { right. exists paid_command. repeat split; [exact E2 | earlier_absent]. }
  destruct (contains "refunded" _) eqn:E3.
  { right. exists refund_command. repeat split; [exact E3 | earlier_absent]. }
  destruct (contains "$stats" _) eqn:E4.
  { right. exists stats_command. repeat split; [exact E4 | earlier_absent]. }
  left. repeat split. intros h. destruct h; assumption.
Qed.

(** C9. For every comment the loop calls at most one handler, and the
    handler called is the first, in the order loan offer, confirm, paid,
    refund, stats, whose keyword occurs in the lower-cased body: a call
    of [h] is in the log of the comment exactly when the comment is not
    passed over, the keyword of [h] occurs and no keyword of an earlier
    handler does; the store after the comment is then the one [h]
    returns. *)
Theorem one_handler_per_comment (clk : Clock) (c : Comment) (db : DB) :
  (length (snd (comment_monitor bot clk c db)) <= 1)%nat
  /\ (forall h o,
        In (h, o) (snd (comment_monitor bot clk c db)) <->
        selected bot c h /\ o = snd (run bot h clk c db))
  /\ (forall h, selected bot c h ->
        comment_monitor bot clk c db =
          (fst (run bot h clk c db), [(h, snd (run bot h clk c db))]))
  /\ ((forall h, ~ selected bot c h) -> comment_monitor bot clk c db = (db, [])).
Proof.
  destruct (comment_monitor_selects clk c db)
    as [[Hs ->]|[(Hs & Hnone & ->)|(h0 & Hsel & ->)]]; simpl.
  - split; [lia|]. split; [|split].
    + intros h o. split; [intros []|]. intros [(Hs' & _) _]. congruence.
    + intros h (Hs' & _). congruence.
    + reflexivity.
  - split; [lia|]. split; [|split].
    + intros h o. split; [intros []|]. intros [(_ & M & _) _].
      rewrite Hnone in M. discriminate.
    + intros h (_ & M & _). rewrite Hnone in M. discriminate.
    + reflexivity.
  - rewrite call_log. split; [simpl; lia|]. split; [|split].
    + intros h o. simpl. split.
      * intros [[= <- <-]|[]]. auto.
      * intros [Hh ->]. left. rewrite (selected_unique c h h0 Hh Hsel).
        reflexivity.
    + intros h Hh. rewrite (selected_unique c h h0 Hh Hsel).
      unfold call. destruct (run bot h0 clk c db). reflexivity.
    + intros Hno. destruct (Hno h0 Hsel).
Qed.

End Dispatch.

Lemma one_handler_per_comment_witness :
  comment_monitor Scenario.bot (Scenario.at_time 500) several_keywords
    Scenario.db_confirmed
  = (Scenario.db_confirmed, [(loan_command, Silent)]).
Proof.
  destruct (one_handler_per_comment Scenario.bot (Scenario.at_time 500)
              several_keywords Scenario.db_confirmed) as (_ & _ & H & _).
  apply (H loan_command).
  split; [reflexivity|].
  split; [reflexivity|].
  intros h' Hlt. destruct h'; simpl in Hlt; lia.
Defined.

Section Clamping.
Import Text Patterns Store.

Lemma user_ok_nonneg (u : users.row) : user_ok u -> nonneg u.
Proof.
  unfold user_ok, nonneg. intros (?&?&?&?&?&?&?).
  repeat split; try assumption; try lia; lra.
Qed.

(** C7. In every store the bot can reach, every field of every [users]
    row is non-negative. The decrements are floored at zero: a Paid
    command (over loans of non-negative principal, as all reachable ones
    are) keeps a row non-negative and leaves [unpaid_loans] and
    [unpaid_amount] at 0 when they are 0; a Refund command keeps a row
    non-negative and leaves [loans_as_lender], [amount_lent],
    [loans_as_borrower] and [amount_borrowed] at 0 when they are 0. *)
Theorem stats_never_negative (bot : string) :
  (forall db, reachable bot db ->
     (forall u r, users_rows db !! u = Some r -> nonneg r)
     /\ (forall l, In l (loans_rows db) -> (0 <= loans.amount l)%Q))
  /\ (forall db clk c u r r',
        (forall l, In l (loans_rows db) -> (0 <= loans.amount l)%Q) ->
        users_rows db !! u = Some r ->
        users_rows (fst (process_paid_command clk c db)) !! u = Some r' ->
        (nonneg r -> nonneg r')
        /\ (users.unpaid_loans r = 0 -> users.unpaid_loans r' = 0)
        /\ ((users.unpaid_amount r == 0)%Q -> (users.unpaid_amount r' == 0)%Q))
  /\ (forall db clk c u r r',
        users_rows db !! u = Some r ->
        users_rows (fst (process_refund_command bot clk c db)) !! u = Some r' ->
        (nonneg r -> nonneg r')
        /\ (users.loans_as_lender r = 0 -> users.loans_as_lender r' = 0)
        /\ ((users.amount_lent r == 0)%Q -> (users.amount_lent r' == 0)%Q)
        /\ (users.loans_as_borrower r = 0 -> users.loans_as_borrower r' = 0)
        /\ ((users.amount_borrowed r == 0)%Q ->
              (users.amount_borrowed r' == 0)%Q)).
Proof.
  split; [|split].
  - intros db Hreach. apply reachable_ok in Hreach. split.
    + intros u r Hr. apply user_ok_nonneg. eapply users_ok; eauto.
    + intros l Hl. apply (loans_ok _ Hreach l Hl).
  - intros db clk c u r r' Hloans Hr Hr'.
    destruct (paid_user_row clk c db u r r' Hr Hr')
      as [->|(paid & now & Hp & [->|(loan & Hin & ->)])].
    + auto.
    + split; [|split; intros H0; exact H0].
      intros (?&?&?&?&?&?&?). unfold nonneg, add_repaid; simpl.
      repeat (split; [assumption || lra|]). assumption.
    + specialize (Hloans loan Hin). split; [|split].
      * intros (?&?&?&?&?&?&?). unfold nonneg, settle_unpaid, add_repaid; simpl.
        repeat (split; [assumption || lra || lia|]). apply GREATEST_floor.
      * simpl. lia.
      * simpl. intros H0. apply GREATEST_at_zero; assumption.
  - intros db clk c u r r' Hr Hr'.
    destruct (refund_user_row bot clk c db u r r' Hr Hr')
      as [-> | (amount & now & Ha & [-> | [-> | ->]])].
    + repeat (split; [intros H0; exact H0|]). intros H0; exact H0.
    + split; [|split; [|split; [|split]]]; simpl; try (intros H0; exact H0).
      * intros (?&?&?&?&?&?&?). unfold nonneg, drop_lender; simpl.
        repeat (split; [assumption || lia || apply GREATEST_floor|]).
        assumption.
      * lia.
      * intros H0. apply GREATEST_at_zero; assumption.
    + split; [|split; [|split; [|split]]]; simpl; try (intros H0; exact H0).
      * intros (?&?&?&?&?&?&?). unfold nonneg, drop_borrower; simpl.
        repeat (split; [assumption || lia || apply GREATEST_floor|]).
        assumption.
      * lia.
      * intros H0. apply GREATEST_at_zero; assumption.
    + split; [|split; [|split; [|split]]]; simpl; try (intros H0; exact H0).
      * intros (?&?&?&?&?&?&?). unfold nonneg, drop_borrower, drop_lender; simpl.
        repeat (split; [assumption || lia || apply GREATEST_floor|]).
        assumption.
      * lia.
      * intros H0. apply GREATEST_at_zero; assumption.
      * lia.
      * intros H0. apply GREATEST_at_zero; assumption.
Qed.

Lemma stats_never_negative_witness :
  exists r, users_rows Scenario.db_refunded !! "alice" = Some r /\ nonneg r.
Proof.
  eexists. split; [vm_compute; reflexivity|].
  apply (proj1 (proj1 (stats_never_negative Scenario.bot)
                  Scenario.db_refunded db_refunded_reachable)
           "alice").
  vm_compute. reflexivity.
Defined.

End Clamping.

Section Unpaid.
Import Text Patterns Store.

(** C10. No handler raises [unpaid_loans] or [unpaid_amount]. Confirm
    copies both fields of an existing row and gives a new row the default
    0; every handler but Paid leaves them as they are; Paid leaves them or
    applies the floored decrement. So in every store the bot can reach
    every user has [unpaid_loans = 0] and [unpaid_amount = 0], and the
    decrement of the repaid transition changes nothing. *)
Theorem unpaid_stays_zero (bot : string) :
  (forall db, reachable bot db ->
     forall u r, users_rows db !! u = Some r ->
       users.unpaid_loans r = 0 /\ (users.unpaid_amount r == 0)%Q)
  /\ (forall clk c db u r',
        users_rows (fst (process_confirm_command clk c db)) !! u = Some r' ->
        users.unpaid_loans r' = users.unpaid_loans (user_or_default db u)
        /\ users.unpaid_amount r' = users.unpaid_amount (user_or_default db u))
  /\ (forall h clk c db u r r',
        h <> paid_command ->
        users_rows db !! u = Some r ->
        users_rows (fst (run bot h clk c db)) !! u = Some r' ->
        users.unpaid_loans r' = users.unpaid_loans r
        /\ users.unpaid_amount r' = users.unpaid_amount r)
  /\ (forall clk c db u r r',
        users_rows db !! u = Some r ->
        users_rows (fst (process_paid_command clk c db)) !! u = Some r' ->
        (users.unpaid_loans r' = users.unpaid_loans r
         /\ users.unpaid_amount r' = users.unpaid_amount r)
        \/ (exists loan, In loan (loans_rows db)
              /\ users.unpaid_loans r' = Z.max (users.unpaid_loans r - 1) 0
              /\ users.unpaid_amount r' =
                   GREATEST (users.unpaid_amount r - loans.amount loan) 0))
  /\ (forall clk c db u r r',
        reachable bot db ->
        users_rows db !! u = Some r ->
        users_rows (fst (process_paid_command clk c db)) !! u = Some r' ->
        users.unpaid_loans r' = users.unpaid_loans r
        /\ (users.unpaid_amount r' == users.unpaid_amount r)%Q).
Proof.
  assert (Hzero : forall db, reachable bot db ->
            forall u r, users_rows db !! u = Some r ->
              users.unpaid_loans r = 0 /\ (users.unpaid_amount r == 0)%Q).
  { intros db Hreach u r Hr. apply reachable_ok in Hreach.
    destruct (users_ok _ Hreach u r Hr) as (_&_&_&_&_&?&?). auto. }
  split; [exact Hzero|]. split; [|split; [|split]].
  - intros clk c db u r' Hr'.
    destruct (confirm_user_row clk c db u r' Hr') as (?&?&_). auto.
  - intros h clk c db u r r' Hh Hr Hr'. destruct h; simpl in Hr'.
    + rewrite process_loan_command_db, Hr in Hr'. injection Hr' as <-. auto.
    + destruct (confirm_user_row clk c db u r' Hr') as (H1 & H2 & _).
      unfold user_or_default in H1, H2. rewrite Hr in H1, H2. auto.
    + congruence.
    + destruct (refund_user_row bot clk c db u r r' Hr Hr')
        as [-> | (amount & now & _ & [-> | [-> | ->]])]; auto.
    + rewrite process_stats_command_db, Hr in Hr'. injection Hr' as <-. auto.
  - intros clk c db u r r' Hr Hr'.
    destruct (paid_user_row clk c db u r r' Hr Hr')
      as [-> | (paid & now & _ & [-> | (loan & Hin & ->)])]; auto.
    right. exists loan. auto.
  - intros clk c db u r r' Hreach Hr Hr'.
    destruct (Hzero db Hreach u r Hr) as [H1 H2].
    pose proof (process_paid_command_ok clk c db (reachable_ok bot db Hreach))
      as Hok'.
    destruct (users_ok _ Hok' u r' Hr') as (_&_&_&_&_&H3&H4).
    split; [congruence | lra].
Qed.

Lemma unpaid_stays_zero_witness :
  exists r, users_rows Scenario.db_repaid !! "bob" = Some r
    /\ users.unpaid_loans r = 0 /\ (users.unpaid_amount r == 0)%Q.
Proof.
  eexists. split; [vm_compute; reflexivity|].
  apply (proj1 (unpaid_stays_zero Scenario.bot) Scenario.db_repaid
           db_repaid_reachable "bob").
  vm_compute. reflexivity.
Defined.

End Unpaid.

(** * Further properties *)

(** ** What each handler can do to the store *)

Section HandlerCases.
Import Text Patterns Store.

Variable bot : string.

Lemma paid_cases (clk : Clock) (c : Comment) (db : DB) :
  fst (process_paid_command clk c db) = db
  \/ exists g1 g2 g3 a loan,
       paid_regex (text_to_search (body c)) = Some (g1, g2, g3)
       /\ author c = Some a
       /\ select_for_payment (sql_int g1) (lower a) (loans_rows db) = Some loan
       /\ loans.currency loan = upper g3
       /\ fst (process_paid_command clk c db) =
            {| loans_rows :=
                 update_loan (sql_int g1)
                   (set_repaid
                      (DecimalContext.add (loans.amount_repaid loan) (Decimal g2))
                      (status_after loan (Decimal g2)) (datetime_now clk))
                   (loans_rows db);
               users_rows :=
                 users_after_paid loan (Decimal g2) (datetime_now clk)
                   (users_rows db);
               loans_id_seq := loans_id_seq db |}.
Proof.
  destruct (paid_regex (text_to_search (body c))) as [[[g1 g2] g3]|] eqn:Hm.
  2:{ left. unfold process_paid_command. rewrite Hm. reflexivity. }
  destruct (author c) as [a|] eqn:Ha.
  2:{ left. unfold process_paid_command. rewrite Hm, Ha. reflexivity. }
  destruct (reads_as_id (sql_int g1) db) eqn:Hid.
  2:{ left. unfold process_paid_command. rewrite Hm, Ha, Hid. reflexivity. }
  destruct (select_for_payment (sql_int g1) (lower a) (loans_rows db))
    as [loan|] eqn:Hsel.
  2:{ left. unfold process_paid_command. rewrite Hm, Ha, Hid, Hsel. reflexivity. }
  destruct (String.eqb (loans.currency loan) (upper g3)) eqn:Hcur.
  2:{ left. unfold process_paid_command. rewrite Hm, Ha, Hid, Hsel, Hcur.
      reflexivity. }
  apply String.eqb_eq in Hcur. right. exists g1, g2, g3, a, loan.
  do 4 (split; [first [reflexivity | assumption]|]).
  destruct (paid_recorded clk c db g1 g2 g3 a loan Hm Ha Hid Hsel Hcur)
    as (before & _ & Hrun).
  cbv zeta in Hrun. rewrite Hrun. reflexivity.
Qed.

Lemma confirm_cases (clk : Clock) (c : Comment) (db : DB) :
  (loans_rows (fst (process_confirm_command clk c db)) = loans_rows db
   /\ users_rows (fst (process_confirm_command clk c db)) = users_rows db
   /\ loans_id_seq db <= loans_id_seq (fst (process_confirm_command clk c db)))
  \/ exists g1 g2 g3 a,
       confirm_match c = Some (g1, g2, g3)
       /\ author c = Some a
       /\ (forall r, In r (loans_rows db) ->
             loans.loan_id r <> time_time clk /\ loans.id r <> loans_id_seq db)
       /\ process_confirm_command clk c db =
            ({| loans_rows :=
                  (loans_rows db ++
                   [new_loan (loans_id_seq db) (time_time clk) (lower g1)
                      (lower a) (Decimal g2) (upper g3) (datetime_now clk)
                      (thread_url c)])%list;
                users_rows :=
                  upsert_user (lower a)
                    (fresh_borrower (Decimal g2) (datetime_now clk))
                    (bump_borrower (Decimal g2) (datetime_now clk))
                    (upsert_user (lower g1)
                       (fresh_lender (Decimal g2) (datetime_now clk))
                       (bump_lender (Decimal g2) (datetime_now clk))
                       (users_rows db));
                loans_id_seq := loans_id_seq db + 1 |},
             Replied (Confirmed (lower a) (lower g1) (Decimal g2) (upper g3)
                        (loans_id_seq db))).
Proof.
  unfold process_confirm_command.
  destruct (confirm_match c) as [[[g1 g2] g3]|]; [|left; simpl; auto with zarith].
  destruct (author c) as [a|]; [|left; simpl; auto with zarith].
  destruct (existsb _ _) eqn:E; [left; simpl; repeat split; lia|].
  right. exists g1, g2, g3, a.
  split; [reflexivity|]. split; [reflexivity|]. split; [|reflexivity].
  intros r Hr. split.
  - intros Heq. assert (Hex : existsb
      (fun r0 => Z.eqb (loans.loan_id r0) (time_time clk)
                 || Z.eqb (loans.id r0) (loans_id_seq db)) (loans_rows db) = true).
    { apply existsb_exists. exists r. split; [exact Hr|].
      rewrite Heq, Z.eqb_refl. reflexivity. }
    congruence.
  - intros Heq. assert (Hex : existsb
      (fun r0 => Z.eqb (loans.loan_id r0) (time_time clk)
                 || Z.eqb (loans.id r0) (loans_id_seq db)) (loans_rows db) = true).
    { apply existsb_exists. exists r. split; [exact Hr|].
      rewrite Heq, Z.eqb_refl. apply orb_true_r. }
    congruence.
Qed.

Lemma refund_cases (clk : Clock) (c : Comment) (db : DB) :
  fst (process_refund_command bot clk c db) = db
  \/ exists lender borrower amount currency result,
       refund_request bot c = RefundOf lender borrower amount currency
       /\ (0 <= amount)%Q
       /\ select_for_refund lender borrower amount currency (loans_rows db)
          = Some result
       /\ process_refund_command bot clk c db =
            ({| loans_rows := update_loan (loans.id result)
                                (mark_refunded (datetime_now clk)) (loans_rows db);
                users_rows := update_user borrower
                                (drop_borrower amount (datetime_now clk))
                                (update_user lender
                                   (drop_lender amount (datetime_now clk))
                                   (users_rows db));
                loans_id_seq := loans_id_seq db |},
             Replied (Refunded lender borrower amount currency)).
Proof.
  rewrite process_refund_command_split.
  destruct (refund_request bot c) as [| | |lender borrower amount currency] eqn:Hreq;
    try (left; reflexivity).
  unfold refund_transaction.
  destruct (select_for_refund _ _ _ _ _) as [result|] eqn:Hsel;
    [|left; reflexivity].
  right. exists lender, borrower, amount, currency, result.
  split; [reflexivity|]. split; [|split; [exact Hsel | reflexivity]].
  unfold refund_request in Hreq.
  destruct (parent_author _); [|discriminate].
  destruct (negb _); [discriminate|].
  destruct (negb _); [discriminate|].
  destruct (parent_body _) as [pb|]; [|discriminate].
  destruct (refund_loan_regex pb) as [[[[g1 g2] g3] g4]|]; [|discriminate].
  destruct (author c); [|discriminate].
  destruct (negb _); [discriminate|].
  injection Hreq as _ _ <- _. apply Decimal_nonneg.
Qed.

(** With a primary key, the row of an [id] is one row. *)
Lemma id_unique (rows : list loans.row) (r r' : loans.row) :
  List.NoDup (map loans.id rows) -> In r rows -> In r' rows ->
  loans.id r = loans.id r' -> r = r'.
Proof.
  induction rows as [|x rows IH]; simpl; [intros _ []|].
  intros Hn Hr Hr' Hid. apply List.NoDup_cons_iff in Hn as [Hx Hn].
  destruct Hr as [<-|Hr], Hr' as [<-|Hr'].
  - reflexivity.
  - destruct Hx. rewrite Hid. apply in_map, Hr'.
  - destruct Hx. rewrite <- Hid. apply in_map, Hr.
  - apply IH; assumption.
Qed.

Lemma update_loan_unique (f : loans.row -> loans.row) (rows : list loans.row)
  (loan r' : loans.row) :
  List.NoDup (map loans.id rows) -> In loan rows ->
  In r' (update_loan (loans.id loan) f rows) ->
  r' = f loan \/ (In r' rows /\ loans.id r' <> loans.id loan).
Proof.
  intros Hn Hloan (r & Hr & ->)%update_loan_In.
  destruct (Z.eqb (loans.id r) (loans.id loan)) eqn:E.
  - apply Z.eqb_eq in E. left. f_equal. eapply id_unique; eauto.
  - apply Z.eqb_neq in E. right. auto.
Qed.

Lemma update_loan_keeps (key : Z) (f : loans.row -> loans.row)
  (rows : list loans.row) (r : loans.row) :
  In r rows -> loans.id r <> key -> In r (update_loan key f rows).
Proof.
  intros Hr Hne. unfold update_loan. apply in_map_iff. exists r.
  apply Z.eqb_neq in Hne. rewrite Hne. auto.
Qed.

Lemma update_loan_has (key : Z) (f : loans.row -> loans.row)
  (rows : list loans.row) (r : loans.row) :
  In r rows -> loans.id r = key -> In (f r) (update_loan key f rows).
Proof.
  intros Hr Heq. unfold update_loan. apply in_map_iff. exists r.
  apply Z.eqb_eq in Heq. rewrite Heq. auto.
Qed.

Lemma update_loan_length (key : Z) (f : loans.row -> loans.row)
  (rows : list loans.row) :
  length (update_loan key f rows) = length rows.
Proof. unfold update_loan. apply length_map. Qed.

End HandlerCases.

(** ** Loans are kept *)

Section LoansKept.
Import Text Patterns Store.

Variable bot : string.

Lemma comment_monitor_db_cases (clk : Clock) (c : Comment) (db : DB) :
  fst (comment_monitor bot clk c db) = db
  \/ fst (comment_monitor bot clk c db) = fst (process_confirm_command clk c db)
  \/ fst (comment_monitor bot clk c db) = fst (process_paid_command clk c db)
  \/ fst (comment_monitor bot clk c db) = fst (process_refund_command bot clk c db).
Proof.
  destruct (comment_monitor_cases bot clk c db) as [->|[h ->]]; [auto|].
  rewrite call_db. destruct h; simpl; auto.
  - left. apply process_loan_command_db.
  - left. apply process_stats_command_db.
Qed.

Lemma same_loan_refl (r : loans.row) : same_loan r r.
Proof. unfold same_loan. repeat split. Qed.

Lemma kept_refl (r : loans.row) : kept r r.
Proof. split; [apply same_loan_refl | lra]. Qed.

Lemma confirm_keeps_loans (clk : Clock) (c : Comment) (db : DB) (r : loans.row) :
  In r (loans_rows db) ->
  In r (loans_rows (fst (process_confirm_command clk c db))).
Proof.
  intros Hr. destruct (confirm_cases clk c db)
    as [(-> & _)|(g1 & g2 & g3 & a & _ & _ & _ & ->)]; [exact Hr|].
  simpl. apply in_or_app. auto.
Qed.

Lemma paid_keeps_loans (clk : Clock) (c : Comment) (db : DB) (r : loans.row) :
  ledger_ok db -> In r (loans_rows db) ->
  exists r', In r' (loans_rows (fst (process_paid_command clk c db)))
    /\ kept r r'.
Proof.
  intros Hok Hr. destruct (paid_cases clk c db)
    as [->|(g1 & g2 & g3 & a & loan & _ & _ & Hsel & _ & ->)].
  { exists r. split; [exact Hr | apply kept_refl]. }
  simpl. apply select_for_payment_In in Hsel as (Hloan & Hid & _).
  destruct (Z.eq_dec (loans.id r) (sql_int g1)) as [Heq|Hne].
  - eexists. split; [apply update_loan_has; [exact Hr | exact Heq]|].
    assert (r = loan) as ->.
    { eapply id_unique; [apply (ids_unique _ Hok) | exact Hr | exact Hloan |].
      congruence. }
    split; [unfold same_loan; simpl; repeat split|]. simpl.
    pose proof (Decimal_nonneg g2).
    destruct (loans_ok _ Hok _ Hloan) as (_ & _ & Hfit & _).
    apply rounded_lower; [exact Hfit | lra].
  - exists r. split; [apply update_loan_keeps; assumption | apply kept_refl].
Qed.

Lemma refund_keeps_loans (clk : Clock) (c : Comment) (db : DB) (r : loans.row) :
  In r (loans_rows db) ->
  exists r', In r' (loans_rows (fst (process_refund_command bot clk c db)))
    /\ kept r r'.
Proof.
  intros Hr. destruct (refund_cases bot clk c db)
    as [->|(l & b & amt & cur & result & _ & _ & _ & ->)].
  { exists r. split; [exact Hr | apply kept_refl]. }
  simpl. destruct (Z.eq_dec (loans.id r) (loans.id result)) as [Heq|Hne].
  - eexists. split; [apply update_loan_has; [exact Hr | exact Heq]|].
    split; [unfold same_loan; simpl; repeat split | simpl; lra].
  - exists r. split; [apply update_loan_keeps; assumption | apply kept_refl].
Qed.

Lemma step_keeps_loans (clk : Clock) (c : Comment) (db : DB) (r : loans.row) :
  ledger_ok db -> In r (loans_rows db) ->
  exists r', In r' (loans_rows (fst (comment_monitor bot clk c db)))
    /\ kept r r'.
Proof.
  intros Hok Hr.
  destruct (comment_monitor_db_cases clk c db) as [-> | [-> | [-> | ->]]].
  - exists r. split; [exact Hr | apply kept_refl].
  - exists r. split; [apply confirm_keeps_loans, Hr | apply kept_refl].
  - apply paid_keeps_loans; assumption.
  - apply refund_keeps_loans; assumption.
Qed.

Lemma step_loans_length (clk : Clock) (c : Comment) (db : DB) :
  (length (loans_rows db)
   <= length (loans_rows (fst (comment_monitor bot clk c db)))
   <= S (length (loans_rows db)))%nat.
Proof.
  destruct (comment_monitor_db_cases clk c db) as [-> | [-> | [-> | ->]]].
  - lia.
  - destruct (confirm_cases clk c db)
      as [(-> & _)|(g1 & g2 & g3 & a & _ & _ & _ & ->)]; [lia|].
    simpl. rewrite length_app. simpl. lia.
  - destruct (paid_cases clk c db)
      as [->|(g1 & g2 & g3 & a & loan & _ & _ & _ & _ & ->)]; [lia|].
    simpl. rewrite update_loan_length. lia.
  - destruct (refund_cases bot clk c db)
      as [->|(l & b & amt & cur & result & _ & _ & _ & ->)]; [lia|].
    simpl. rewrite update_loan_length. lia.
Qed.

(** X1. No comment deletes a loan or rewrites its identity: in a reachable
    store, every loan is still in the table after the next comment, with the
    same id, parties, principal, currency, creation date and thread, and
    with at least as much paid back as before; the table grows by at most
    one row. *)
Theorem loans_are_kept (clk : Clock) (c : Comment) (db : DB) :
  reachable bot db ->
  (forall r, In r (loans_rows db) ->
     exists r', In r' (loans_rows (fst (comment_monitor bot clk c db)))
       /\ same_loan r r'
       /\ (loans.amount_repaid r <= loans.amount_repaid r')%Q)
  /\ (length (loans_rows db)
      <= length (loans_rows (fst (comment_monitor bot clk c db)))
      <= S (length (loans_rows db)))%nat.
Proof.
  intros Hreach. apply reachable_ok in Hreach. split.
  - intros r Hr.
    destruct (step_keeps_loans clk c db r Hreach Hr) as (r' & Hin & Hs & Hle).
    exists r'. auto.
  - apply step_loans_length.
Qed.

End LoansKept.

Lemma loans_are_kept_witness :
  (length (loans_rows Scenario.db_confirmed)
   <= length (loans_rows (fst (comment_monitor Scenario.bot (Scenario.at_time 200)
                                 Scenario.paid_20 Scenario.db_confirmed)))
   <= S (length (loans_rows Scenario.db_confirmed)))%nat.
Proof.
  exact (proj2 (loans_are_kept Scenario.bot (Scenario.at_time 200)
                  Scenario.paid_20 Scenario.db_confirmed
                  db_confirmed_reachable)).
Defined.

(** ** The status follows the amounts *)

Section StatusConsistent.
Import Text Patterns Store.

Variable bot : string.

Lemma set_repaid_consistent (loan : loans.row) (paid : Q) (now : Z) :
  status_consistent
    (set_repaid (DecimalContext.add (loans.amount_repaid loan) paid)
       (status_after loan paid) now loan).
Proof.
  unfold status_consistent; simpl.
  destruct (status_after loan paid) eqn:E.
  - unfold status_after in E. destruct (Qle_bool _ _); discriminate.
  - unfold status_after in E. destruct (Qle_bool _ _); discriminate.
  - apply status_after_partial, E.
  - apply status_after_repaid, E.
  - exact I.
Qed.

Lemma step_status_consistent (clk : Clock) (c : Comment) (db : DB) :
  ledger_ok db ->
  (forall r, In r (loans_rows db) -> status_consistent r) ->
  forall r, In r (loans_rows (fst (comment_monitor bot clk c db))) ->
    status_consistent r.
Proof.
  intros Hok Hall.
  destruct (comment_monitor_db_cases bot clk c db) as [-> | [-> | [-> | ->]]].
  - exact Hall.
  - destruct (confirm_cases clk c db)
      as [(-> & _)|(g1 & g2 & g3 & a & _ & _ & _ & ->)]; [exact Hall|].
    simpl. intros r [Hr|[<-|[]]]%in_app_or; [apply Hall, Hr|].
    unfold status_consistent; simpl. reflexivity.
  - destruct (paid_cases clk c db)
      as [->|(g1 & g2 & g3 & a & loan & _ & _ & Hsel & _ & ->)]; [exact Hall|].
    simpl. apply select_for_payment_In in Hsel as (Hloan & <- & _).
    intros r Hr.
    destruct (update_loan_unique _ _ loan r (ids_unique _ Hok) Hloan Hr)
      as [->|[Hin _]]; [apply set_repaid_consistent | apply Hall, Hin].
  - destruct (refund_cases bot clk c db)
      as [->|(l & b & amt & cur & result & _ & _ & _ & ->)]; [exact Hall|].
    simpl. intros r' (r & Hr & ->)%update_loan_In.
    destruct (Z.eqb _ _); [exact I | apply Hall, Hr].
Qed.

(** X2. In every reachable store the status of a loan agrees with its
    amounts: a [confirmed] loan has nothing paid back, a [partially_repaid]
    one less than the principal, a [repaid] one at least the principal; and
    no loan has the column default ['active'], the status the report
    queries also look for. *)
Theorem status_follows_amounts (db : DB) (r : loans.row) :
  reachable bot db -> In r (loans_rows db) -> status_consistent r.
Proof.
  intros Hreach. revert r. induction Hreach as [|clk c db Hreach IH].
  - intros r [].
  - apply step_status_consistent; [apply reachable_ok with bot, Hreach | exact IH].
Qed.

End StatusConsistent.

Lemma status_follows_amounts_witness :
  status_consistent
    (loans.mk 1 100 "alice" "bob" (5000 # 100) "USD" 100000000
       "https://www.reddit.com/r/loans/comments/1/req/"
       loans.partially_repaid 20 (Some 200000000)).
Proof.
  apply (status_follows_amounts Scenario.bot Scenario.db_partial).
  - exact db_partial_reachable.
  - vm_compute. left. reflexivity.
Defined.

(** ** The users of the table are the parties of the loans *)

Section Parties.
Import Text Patterns Store.

Variable bot : string.

Lemma party_kept (u : string) (rows rows' : list loans.row) :
  (forall r, In r rows -> exists r', In r' rows' /\ kept r r') ->
  party u rows -> party u rows'.
Proof.
  intros Hk (r & Hr & Hu). destruct (Hk r Hr) as (r' & Hr' & Hs & _).
  exists r'. split; [exact Hr'|].
  destruct Hs as (_ & _ & Hl & Hb & _). rewrite Hl, Hb. exact Hu.
Qed.

Lemma refund_keeps_users (clk : Clock) (c : Comment) (db : DB) (u : string) :
  users_rows db !! u = None ->
  users_rows (fst (process_refund_command bot clk c db)) !! u = None.
Proof.
  intros Hu. destruct (refund_cases bot clk c db)
    as [->|(l & b & amt & cur & result & _ & _ & _ & ->)]; [exact Hu|].
  simpl. rewrite !update_user_lookup.
  destruct (decide (b = u)), (decide (l = u)); rewrite Hu; reflexivity.
Qed.

Lemma step_users_parties (clk : Clock) (c : Comment) (db : DB) :
  ledger_ok db ->
  (forall u, is_Some (users_rows db !! u) -> party u (loans_rows db)) ->
  forall u, is_Some (users_rows (fst (comment_monitor bot clk c db)) !! u) ->
    party u (loans_rows (fst (comment_monitor bot clk c db))).
Proof.
  intros Hok Hall u.
  destruct (comment_monitor_db_cases bot clk c db) as [-> | [-> | [-> | ->]]].
  - apply Hall.
  - destruct (confirm_cases clk c db)
      as [(-> & -> & _)|(g1 & g2 & g3 & a & _ & _ & _ & ->)]; [apply Hall|].
    simpl. rewrite !upsert_user_lookup.
    destruct (decide (lower a = u)) as [<-|Hb].
    { intros _. eexists. split; [apply in_or_app; right; left; reflexivity|].
      right. reflexivity. }
    destruct (decide (lower g1 = u)) as [<-|Hl].
    { intros _. eexists. split; [apply in_or_app; right; left; reflexivity|].
      left. reflexivity. }
    intros Hu. destruct (Hall u Hu) as (r & Hr & Hp).
    exists r. split; [apply in_or_app; auto | exact Hp].
  - intros Hu. apply party_kept with (loans_rows db).
    + intros r Hr. apply paid_keeps_loans; assumption.
    + apply Hall. destruct (users_rows db !! u) eqn:E; [eauto|].
      rewrite (paid_keeps_users clk c db u E) in Hu. destruct Hu. discriminate.
  - intros Hu. apply party_kept with (loans_rows db).
    + intros r Hr. apply refund_keeps_loans; assumption.
    + apply Hall. destruct (users_rows db !! u) eqn:E; [eauto|].
      rewrite (refund_keeps_users clk c db u E) in Hu. destruct Hu. discriminate.
Qed.

Lemma reachable_users_parties (db : DB) (u : string) :
  reachable bot db ->
  is_Some (users_rows db !! u) <-> party u (loans_rows db).
Proof.
  intros Hreach. split.
  - revert u. induction Hreach as [|clk c db Hreach IH].
    + intros u. simpl. rewrite lookup_empty. intros [? ?]. discriminate.
    + apply step_users_parties; [apply reachable_ok with bot, Hreach | exact IH].
  - intros (r & Hr & Hp). apply reachable_ok in Hreach.
    destruct (loans_ok _ Hreach r Hr) as (_ & _ & _ & Hl & Hb).
    destruct Hp as [<-|<-]; assumption.
Qed.

(** X4. In every reachable store a user has a [users] row exactly when the
    user is the lender or the borrower of a loan of the table: rows are
    created by a committed Confirm, for its two parties, and by nothing
    else, and neither rows nor loans are ever removed. *)
Theorem users_are_parties (db : DB) (u : string) :
  reachable bot db ->
  is_Some (users_rows db !! u) <-> party u (loans_rows db).
Proof. apply reachable_users_parties. Qed.

(** X5. For a submission with [[req]] in its title (in any case) and an
    author, the post loop replies with the report on the author; in a
    reachable store that report is the "no loan history" notice exactly
    when the author, lower-cased, is a party of no loan, and the statistics
    otherwise. A submission without the tag or without an author gets no
    reply. *)
Theorem post_report_history (db : DB) (post : Post) :
  reachable bot db ->
  (contains "[req]" (lower (title post)) = false \/ post_author post = None ->
   post_monitor post db = None)
  /\ (forall username,
        contains "[req]" (lower (title post)) = true ->
        post_author post = Some username ->
        post_monitor post db = Some (generate_user_info username db)
        /\ (generate_user_info username db = NoLoanHistory username <->
              ~ party (lower username) (loans_rows db))
        /\ (party (lower username) (loans_rows db) ->
              exists info,
                generate_user_info username db = UserInformation username info)).
Proof.
  intros Hreach. unfold post_monitor, handle_new_post. split.
  - intros [->| ->]; [reflexivity|]. destruct (contains _ _); reflexivity.
  - intros username -> ->. split; [reflexivity|].
    pose proof (reachable_users_parties db (lower username) Hreach) as Hp.
    unfold generate_user_info.
    destruct (users_rows db !! lower username) as [st|] eqn:E.
    + split; [split; [discriminate|]|eauto].
      intros Hn. destruct Hn. apply Hp. eauto.
    + split; [split; [|reflexivity]|].
      * intros _ Hparty. apply Hp in Hparty. destruct Hparty. discriminate.
      * intros Hparty. apply Hp in Hparty. destruct Hparty. discriminate.
Qed.

End Parties.

Lemma users_are_parties_witness :
  is_Some (users_rows Scenario.db_confirmed !! "alice")
  <-> party "alice" (loans_rows Scenario.db_confirmed).
Proof.
  exact (users_are_parties Scenario.bot Scenario.db_confirmed "alice"
           db_confirmed_reachable).
Defined.

Lemma post_report_history_witness :
  post_monitor (Sample.req_by "Carol") Scenario.db_confirmed
  = Some (NoLoanHistory "Carol")
  /\ exists info,
       generate_user_info "Bob" Scenario.db_confirmed = UserInformation "Bob" info.
Proof.
  destruct (post_report_history Scenario.bot Scenario.db_confirmed
              (Sample.req_by "Carol") db_confirmed_reachable) as [_ H1].
  destruct (H1 "Carol" eq_refl eq_refl) as (Hm & _ & _).
  destruct (post_report_history Scenario.bot Scenario.db_confirmed
              (Sample.req_by "Bob") db_confirmed_reachable) as [_ H2].
  destruct (H2 "Bob" eq_refl eq_refl) as (_ & _ & Hi).
  split.
  - rewrite Hm. vm_compute. reflexivity.
  - apply Hi. eexists. split; [vm_compute; left; reflexivity|].
    right. reflexivity.
Defined.

(** ** More on refunds *)

Section MoreRefund.
Import Text Patterns Store.

Variable bot : string.

(** X6. A reply under one of the bot's confirmations that says "refunded"
    is refused when its author is not the lender the confirmation names
    (the answer is that only the lender can mark the loan), and is answered
    with the not-found error when the author is that lender but no loan has
    the lender, borrower, amount and currency of the confirmation; the store
    is unchanged in both cases. A reply whose parent has no author or is
    not the bot's is passed over in silence. *)
Theorem refund_rejects (clk : Clock) (c : Comment) (db : DB) :
  (forall pa pb g1 g2 g3 g4 a,
     parent_author (parent c) = Some pa -> lower pa = lower bot ->
     contains "refunded" (lower (body c)) = true ->
     parent_body (parent c) = Some pb ->
     refund_loan_regex pb = Some (g1, g2, g3, g4) ->
     author c = Some a ->
     (lower a <> lower g4 ->
      process_refund_command bot clk c db = (db, Replied OnlyLender))
     /\ (lower a = lower g4 ->
         (forall r, In r (loans_rows db) ->
            ~ (loans.lender r = lower g4 /\ loans.borrower r = lower g1
               /\ (loans.amount r == Decimal g2)%Q /\ loans.currency r = g3)) ->
         process_refund_command bot clk c db =
           (db, Replied (RefundNotFound (lower g1) (Decimal g2) g3))))
  /\ ((parent_author (parent c) = None
       \/ exists pa, parent_author (parent c) = Some pa /\ lower pa <> lower bot) ->
      process_refund_command bot clk c db = (db, Silent)).
Proof.
  unfold process_refund_command. split.
  - intros pa pb g1 g2 g3 g4 a -> -> -> -> -> ->.
    rewrite String.eqb_refl. simpl. split.
    + intros Hne. apply String.eqb_neq in Hne. rewrite Hne. reflexivity.
    + intros -> Hnone. rewrite String.eqb_refl. simpl.
      destruct (select_for_refund _ _ _ _ _) as [r|] eqn:Hsel; [|reflexivity].
      apply select_for_refund_In in Hsel as [Hin Hw].
      unfold refund_where in Hw.
      apply andb_prop in Hw as [Hw H4]. apply andb_prop in Hw as [Hw H3].
      apply andb_prop in Hw as [H1 H2].
      apply String.eqb_eq in H1, H2, H4. apply Qeq_bool_iff in H3.
      destruct (Hnone r Hin). auto.
  - intros [->|(pa & -> & Hne)]; [reflexivity|].
    apply String.eqb_neq in Hne. rewrite Hne. reflexivity.
Qed.

(** X7. A successful refund, in a reachable store, marks exactly one loan:
    the selected loan becomes [refunded], with its amounts as they were,
    every other loan is untouched and the table keeps its length; the
    lender's [loans_as_lender] and [amount_lent] and the borrower's
    [loans_as_borrower] and [amount_borrowed] go down by 1 and by the amount,
    floored at 0; no other user's row and no other column changes. *)
Theorem refund_marks_one_loan (clk : Clock) (c : Comment) (db db' : DB)
  (lender borrower : string) (amount : Q) (currency : string) :
  reachable bot db ->
  process_refund_command bot clk c db =
    (db', Replied (Refunded lender borrower amount currency)) ->
  exists loan,
    select_for_refund lender borrower amount currency (loans_rows db) = Some loan
    /\ In (mark_refunded (datetime_now clk) loan) (loans_rows db')
    /\ (forall r, In r (loans_rows db) -> loans.id r <> loans.id loan ->
          In r (loans_rows db'))
    /\ (forall r', In r' (loans_rows db') ->
          r' = mark_refunded (datetime_now clk) loan
          \/ (In r' (loans_rows db) /\ loans.id r' <> loans.id loan))
    /\ length (loans_rows db') = length (loans_rows db)
    /\ loans_id_seq db' = loans_id_seq db
    /\ (forall u r, users_rows db !! u = Some r ->
          exists r', users_rows db' !! u = Some r'
            /\ users.loans_as_lender r' =
                 (if decide (u = lender)
                  then Z.max (users.loans_as_lender r - 1) 0
                  else users.loans_as_lender r)
            /\ users.amount_lent r' =
                 (if decide (u = lender)
                  then GREATEST (users.amount_lent r - amount) 0
                  else users.amount_lent r)
            /\ users.loans_as_borrower r' =
                 (if decide (u = borrower)
                  then Z.max (users.loans_as_borrower r - 1) 0
                  else users.loans_as_borrower r)
            /\ users.amount_borrowed r' =
                 (if decide (u = borrower)
                  then GREATEST (users.amount_borrowed r - amount) 0
                  else users.amount_borrowed r)
            /\ users.amount_repaid r' = users.amount_repaid r
            /\ users.unpaid_loans r' = users.unpaid_loans r
            /\ users.unpaid_amount r' = users.unpaid_amount r).
Proof.
  intros Hreach. apply reachable_ok in Hreach.
  rewrite process_refund_command_split.
  destruct (refund_request bot c) as [| | |l b amt cur]; try discriminate.
  unfold refund_transaction.
  destruct (select_for_refund l b amt cur (loans_rows db)) as [loan|] eqn:Hsel;
    [|discriminate].
  intros [= <- <- <- <- <-]. exists loan. split; [exact Hsel|]. simpl.
  destruct (select_for_refund_In _ _ _ _ _ _ Hsel) as [Hloan _].
  split; [apply update_loan_has; auto|].
  split; [intros r Hr Hne; apply update_loan_keeps; assumption|].
  split; [intros r' Hr';
          apply (update_loan_unique _ _ loan r' (ids_unique _ Hreach) Hloan Hr')|].
  split; [apply update_loan_length|]. split; [reflexivity|].
  intros u r Hr. rewrite !update_user_lookup.
  destruct (decide (b = u)) as [->|Hb], (decide (l = u)) as [->|Hl];
    rewrite Hr; simpl; eexists; (split; [reflexivity|]); simpl;
    repeat (destruct (decide _); try congruence); repeat split.
Qed.

(** X8. The refund lookup takes the newest of the loans it matches: in a
    reachable store, a loan that has a twin (same lender, borrower, amount
    and currency) confirmed later is left exactly as it is by every refund
    command, so it cannot be marked [refunded] while the twin exists. *)
Theorem refund_spares_older_twin (clk : Clock) (c : Comment) (db : DB)
  (older newer : loans.row) :
  reachable bot db ->
  In older (loans_rows db) -> In newer (loans_rows db) ->
  loans.lender newer = loans.lender older ->
  loans.borrower newer = loans.borrower older ->
  (loans.amount newer == loans.amount older)%Q ->
  loans.currency newer = loans.currency older ->
  loans.date_created older < loans.date_created newer ->
  In older (loans_rows (fst (process_refund_command bot clk c db))).
Proof.
  intros Hreach Ho Hn Hl Hb Ha Hc Hd. apply reachable_ok in Hreach.
  destruct (refund_cases bot clk c db)
    as [->|(l & b & amt & cur & result & _ & _ & Hsel & ->)]; [exact Ho|].
  simpl. apply update_loan_keeps; [exact Ho|]. intros Heq.
  destruct (select_for_refund_In _ _ _ _ _ _ Hsel) as [Hres Hw].
  assert (older = result) as ->
    by (eapply id_unique; [apply (ids_unique _ Hreach)|..]; eauto).
  assert (Hw' : refund_where l b amt cur newer = true).
  { unfold refund_where in *. rewrite Hl, Hb, Hc.
    apply andb_prop in Hw as [Hw H4]. apply andb_prop in Hw as [Hw H3].
    rewrite Hw, H4. simpl. rewrite andb_true_r.
    apply Qeq_bool_iff. apply Qeq_bool_iff in H3. lra. }
  pose proof (latest_max _ _ Hsel newer) as Hmax.
  assert (In newer (List.filter (refund_where l b amt cur) (loans_rows db)))
    by (apply filter_In; auto).
  specialize (Hmax H). lia.
Qed.

End MoreRefund.

Lemma refund_rejects_witness :
  process_refund_command Scenario.bot (Scenario.at_time 200)
    Sample.refund_by_carol Scenario.db_confirmed
  = (Scenario.db_confirmed, Replied OnlyLender).
Proof.
  apply (proj1 (refund_rejects Scenario.bot (Scenario.at_time 200)
                  Sample.refund_by_carol Scenario.db_confirmed)
           "LoanCentralBot"
           "Confirmed: u/bob has confirmed receiving 50.00 USD from u/alice."
           "bob" "50.00" "USD" "alice" "carol");
    try reflexivity.
  discriminate.
Defined.

Lemma refund_marks_one_loan_witness :
  exists loan,
    Store.select_for_refund "alice" "bob" (5000 # 100) "USD"
      (loans_rows Scenario.db_confirmed) = Some loan
    /\ length (loans_rows Scenario.db_refunded)
       = length (loans_rows Scenario.db_confirmed).
Proof.
  destruct (refund_marks_one_loan Scenario.bot (Scenario.at_time 200)
              Scenario.refund Scenario.db_confirmed Scenario.db_refunded
              "alice" "bob" (5000 # 100) "USD" db_confirmed_reachable)
    as (loan & H1 & _ & _ & _ & H2 & _).
  - vm_compute. reflexivity.
  - exists loan. split; assumption.
Defined.

Lemma db_twin_reachable : reachable Scenario.bot Sample.db_twin.
Proof. apply reachable_step, db_confirmed_reachable. Defined.

Lemma refund_spares_older_twin_witness :
  In (loans.mk 1 100 "alice" "bob" (5000 # 100) "USD" 100000000
        "https://www.reddit.com/r/loans/comments/1/req/"
        loans.confirmed 0 None)
    (loans_rows (fst (process_refund_command Scenario.bot (Scenario.at_time 200)
                        Scenario.refund Sample.db_twin))).
Proof.
  apply (refund_spares_older_twin Scenario.bot (Scenario.at_time 200)
           Scenario.refund Sample.db_twin _
           (loans.mk 2 150 "alice" "bob" (5000 # 100) "USD" 150000000
              "https://www.reddit.com/r/loans/comments/1/req/"
              loans.confirmed 0 None)).
  - exact db_twin_reachable.
  - vm_compute. left. reflexivity.
  - vm_compute. right. left. reflexivity.
  - reflexivity.
  - reflexivity.
  - reflexivity.
  - reflexivity.
  - reflexivity.
Defined.

(** ** More on payments *)

Section MorePaid.
Import Text Patterns Store.

Variable bot : string.

(** X9. A recorded payment, in a reachable store, writes one loan and one
    user: every loan but the one addressed is untouched and the table keeps
    its length; the addressed loan keeps its id, parties, principal,
    currency and creation date; no row of [users] but the borrower's
    changes, and the borrower's loan counts and lent and borrowed amounts
    stay as they were; the sequence of ids is not advanced. *)
Theorem paid_touches_one_loan (clk : Clock) (c : Comment) (db : DB)
  (g1 g2 g3 a : string) (loan : loans.row) :
  reachable bot db ->
  paid_regex (text_to_search (body c)) = Some (g1, g2, g3) ->
  author c = Some a ->
  select_for_payment (sql_int g1) (lower a) (loans_rows db) = Some loan ->
  loans.currency loan = upper g3 ->
  let db' := fst (process_paid_command clk c db) in
  exists loan',
    In loan' (loans_rows db') /\ same_loan loan loan'
    /\ (forall r, In r (loans_rows db) -> loans.id r <> loans.id loan ->
          In r (loans_rows db'))
    /\ (forall r', In r' (loans_rows db') ->
          r' = loan' \/ (In r' (loans_rows db) /\ loans.id r' <> loans.id loan))
    /\ length (loans_rows db') = length (loans_rows db)
    /\ loans_id_seq db' = loans_id_seq db
    /\ (forall u, u <> loans.borrower loan ->
          users_rows db' !! u = users_rows db !! u)
    /\ (forall r, users_rows db !! loans.borrower loan = Some r ->
          exists r', users_rows db' !! loans.borrower loan = Some r'
            /\ users.loans_as_borrower r' = users.loans_as_borrower r
            /\ users.loans_as_lender r' = users.loans_as_lender r
            /\ users.amount_borrowed r' = users.amount_borrowed r
            /\ users.amount_lent r' = users.amount_lent r).
Proof.
  intros Hreach Hm Ha Hsel Hcur. apply reachable_ok in Hreach. cbv zeta.
  destruct (select_for_payment_In _ _ _ _ Hsel) as (Hloan & Hid & _).
  pose proof (reads_as_id_loan db loan Hreach Hloan) as Hread.
  rewrite Hid in Hread.
  destruct (paid_recorded clk c db g1 g2 g3 a loan Hm Ha Hread Hsel Hcur)
    as (before & _ & Hrun).
  cbv zeta in Hrun. rewrite Hrun. simpl.
  rewrite <- Hid.
  set (f := set_repaid _ _ _). exists (f loan).
  split; [apply update_loan_has; auto|].
  split; [unfold same_loan; simpl; repeat split|].
  split; [intros r Hr Hne; apply update_loan_keeps; assumption|].
  split; [intros r' Hr';
          apply (update_loan_unique _ _ loan r' (ids_unique _ Hreach) Hloan Hr')|].
  split; [apply update_loan_length|]. split; [reflexivity|].
  split; [intros u Hu; apply users_after_paid_other, Hu|].
  intros r Hr. rewrite (users_after_paid_borrower _ _ _ _ r Hr).
  eexists. split; [reflexivity|].
  destruct (loans.status_eqb _ _); simpl; repeat split.
Qed.

(** X10. Only the recorded lender can record a payment: in a reachable
    store, a Paid command that names an existing loan but is written by
    anyone else, the borrower included, gets the loan-not-found error and
    changes nothing. *)
Theorem paid_by_other_is_refused (clk : Clock) (c : Comment) (db : DB)
  (g1 g2 g3 a : string) (loan : loans.row) :
  reachable bot db ->
  paid_regex (text_to_search (body c)) = Some (g1, g2, g3) ->
  author c = Some a ->
  In loan (loans_rows db) -> loans.id loan = sql_int g1 ->
  lower a <> loans.lender loan ->
  process_paid_command clk c db = (db, Replied (LoanNotFound (sql_int g1))).
Proof.
  intros Hreach Hm Ha Hloan Hid Hne. apply reachable_ok in Hreach.
  pose proof (reads_as_id_loan db loan Hreach Hloan) as Hread.
  rewrite Hid in Hread.
  unfold process_paid_command. rewrite Hm, Ha, Hread. simpl negb. cbv iota.
  destruct (select_for_payment _ _ _) as [r|] eqn:Hsel; [|reflexivity].
  apply select_for_payment_In in Hsel as (Hr & Hrid & Hl).
  assert (r = loan)
    by (eapply id_unique; [apply (ids_unique _ Hreach)|..]; eauto; congruence).
  subst r. congruence.
Qed.

Lemma pay_all_cons (clk : Clock) (c : Comment) (cs : list (Clock * Comment))
  (db : DB) :
  pay_all ((clk, c) :: cs) db = pay_all cs (fst (process_paid_command clk c db)).
Proof. reflexivity. Qed.

Lemma representable_comp (x y : Q) :
  (x == y)%Q -> DecimalContext.representable x -> DecimalContext.representable y.
Proof.
  intros Hxy (m & t & Hm & Hx). exists m, t. split; [exact Hm|].
  rewrite <- Hxy. exact Hx.
Qed.

Lemma sums_fit_comp (amounts : list Q) (x y : Q) :
  (x == y)%Q -> sums_fit x amounts -> sums_fit y amounts.
Proof.
  revert x y. induction amounts as [|paid rest IH]; intros x y Hxy; simpl;
    [auto|].
  intros [H1 H2]. split.
  - apply representable_comp with (x + paid)%Q; [rewrite Hxy; reflexivity | exact H1].
  - apply IH with (x + paid)%Q; [rewrite Hxy; reflexivity | exact H2].
Qed.

(** While every running total fits the context, adding in the context is
    adding. *)
Lemma add_all_exact (amounts : list Q) (start : Q) :
  sums_fit start amounts ->
  (fold_left DecimalContext.add amounts start == start + total_paid amounts)%Q.
Proof.
  revert start. induction amounts as [|paid rest IH]; intros start; simpl.
  - intros _. lra.
  - intros [H1 H2].
    assert (He : (DecimalContext.add start paid == start + paid)%Q)
      by (apply rounded_exact, H1).
    rewrite IH.
    + rewrite He. lra.
    + apply sums_fit_comp with (start + paid)%Q; [symmetry; exact He | exact H2].
Qed.

(** X11. Payments accumulate in the decimal context: when the paid handler
    sees, one after another, Paid commands of the lender for one loan (its
    id within the [INTEGER] range) in the loan's currency, the loan ends with
    its identity unchanged and with [amount_repaid] the amounts added, one
    by one, to the old value in the decimal context. That is the old value
    plus the sum of the amounts whenever every running total has at most 28
    significant digits. If there was at least one command the status is
    [repaid] exactly when the [amount_repaid] so stored has reached the
    principal, and [partially_repaid] otherwise. *)
Theorem payments_add_up (cs : list (Clock * Comment)) (amounts : list Q)
  (db : DB) (key : Z) (lender : string) (loan : loans.row) :
  key <= INTEGER_max ->
  select_for_payment key lender (loans_rows db) = Some loan ->
  Forall2 (fun cc paid => pays key lender (loans.currency loan) (snd cc) paid)
    cs amounts ->
  exists loan',
    select_for_payment key lender (loans_rows (pay_all cs db)) = Some loan'
    /\ same_loan loan loan'
    /\ loans.amount_repaid loan' =
         fold_left DecimalContext.add amounts (loans.amount_repaid loan)
    /\ (sums_fit (loans.amount_repaid loan) amounts ->
          (loans.amount_repaid loan' ==
             loans.amount_repaid loan + total_paid amounts)%Q)
    /\ (cs <> [] ->
          (loans.status loan' = loans.repaid <->
             (loans.amount loan <= loans.amount_repaid loan')%Q)
          /\ (loans.status loan' = loans.partially_repaid <->
                (loans.amount_repaid loan' < loans.amount loan)%Q)).
Proof.
  intros Hkey Hsel Hall.
  assert (Hmain : exists loan',
    select_for_payment key lender (loans_rows (pay_all cs db)) = Some loan'
    /\ same_loan loan loan'
    /\ loans.amount_repaid loan' =
         fold_left DecimalContext.add amounts (loans.amount_repaid loan)
    /\ (cs <> [] ->
          (loans.status loan' = loans.repaid <->
             (loans.amount loan <= loans.amount_repaid loan')%Q)
          /\ (loans.status loan' = loans.partially_repaid <->
                (loans.amount_repaid loan' < loans.amount loan)%Q))).
  { revert db loan Hsel Hall.
    revert amounts. induction cs as [|[clk c] cs IH]; intros amounts db loan Hsel Hall.
    - inversion Hall; subst. exists loan. split; [exact Hsel|].
      split; [apply same_loan_refl|]. split; [reflexivity|]. congruence.
    - inversion Hall as [|cc paid cs' amounts' Hp Hrest]; subst.
      destruct Hp as (g1 & g2 & g3 & a & Hm & Ha & Hk & Hl & Hc & Hd).
      simpl in Hm, Ha. subst key lender paid.
      destruct (paid_recorded clk c db g1 g2 g3 a loan Hm Ha
                  (reads_as_id_range _ db Hkey) Hsel (eq_sym Hc))
        as (before & _ & Hrun).
      cbv zeta in Hrun. rewrite pay_all_cons, Hrun. simpl fst.
      set (f := set_repaid _ _ _) in *.
      assert (Hsel1 : select_for_payment (sql_int g1) (lower a)
                        (update_loan (sql_int g1) f (loans_rows db)) = Some (f loan))
        by (apply select_for_payment_updated; [reflexivity..|exact Hsel]).
      set (db1 := mkDB _ _ _).
      destruct (IH amounts' db1 (f loan) Hsel1 Hrest)
        as (loan' & Hsel' & Hsame & Hsum & Hst).
      exists loan'. split; [exact Hsel'|].
      split.
      { unfold same_loan in *. simpl in Hsame. exact Hsame. }
      split.
      { simpl in Hsum. simpl. exact Hsum. }
      intros _. destruct cs as [|cc cs].
      + inversion Hrest; subst. simpl in Hsel'. unfold db1 in Hsel'. simpl in Hsel'.
        rewrite Hsel1 in Hsel'. injection Hsel' as <-. simpl.
        split; [apply status_after_repaid | apply status_after_partial].
      + apply Hst. discriminate. }
  destruct Hmain as (loan' & H1 & H2 & H3 & H4).
  exists loan'. split; [exact H1|]. split; [exact H2|]. split; [exact H3|].
  split; [|exact H4].
  intros Hfit. rewrite H3. apply add_all_exact, Hfit.
Qed.

End MorePaid.

Lemma paid_touches_one_loan_witness :
  length (loans_rows (fst (process_paid_command (Scenario.at_time 200)
                             Scenario.paid_20 Scenario.db_confirmed)))
  = length (loans_rows Scenario.db_confirmed).
Proof.
  destruct (paid_touches_one_loan Scenario.bot (Scenario.at_time 200)
              Scenario.paid_20 Scenario.db_confirmed "1" "20.00" "USD" "alice"
              (loans.mk 1 100 "alice" "bob" (5000 # 100) "USD" 100000000
                 "https://www.reddit.com/r/loans/comments/1/req/"
                 loans.confirmed 0 None)
              db_confirmed_reachable eq_refl eq_refl)
    as (loan' & _ & _ & _ & _ & H & _).
  - vm_compute. reflexivity.
  - reflexivity.
  - exact H.
Defined.

Lemma paid_by_other_is_refused_witness :
  process_paid_command (Scenario.at_time 200) Sample.paid_by_bob
    Scenario.db_confirmed
  = (Scenario.db_confirmed, Replied (LoanNotFound 1)).
Proof.
  apply (paid_by_other_is_refused Scenario.bot (Scenario.at_time 200)
           Sample.paid_by_bob Scenario.db_confirmed "1" "20.00" "USD" "bob"
           (loans.mk 1 100 "alice" "bob" (5000 # 100) "USD" 100000000
              "https://www.reddit.com/r/loans/comments/1/req/"
              loans.confirmed 0 None)
           db_confirmed_reachable eq_refl eq_refl).
  - vm_compute. left. reflexivity.
  - reflexivity.
  - discriminate.
Defined.

Lemma payments_add_up_witness :
  exists loan',
    Store.select_for_payment 1 "alice"
      (loans_rows (pay_all [(Scenario.at_time 200, Scenario.paid_20);
                            (Scenario.at_time 300, Scenario.paid_30)]
                     Scenario.db_confirmed)) = Some loan'
    /\ (loans.amount_repaid loan' == 50)%Q
    /\ loans.status loan' = loans.repaid.
Proof.
  destruct (payments_add_up
              [(Scenario.at_time 200, Scenario.paid_20);
               (Scenario.at_time 300, Scenario.paid_30)]
              [(2000 # 100)%Q; (3000 # 100)%Q]
              Scenario.db_confirmed 1 "alice"
              (loans.mk 1 100 "alice" "bob" (5000 # 100) "USD" 100000000
                 "https://www.reddit.com/r/loans/comments/1/req/"
                 loans.confirmed 0 None))
    as (loan' & H1 & _ & H2 & _ & H3).
  - vm_compute. discriminate.
  - vm_compute. reflexivity.
  - constructor; [|constructor; [|constructor]].
    + exists "1", "20.00", "USD", "alice". repeat split.
    + exists "1", "30.00", "USD", "alice". repeat split.
  - exists loan'. split; [exact H1|].
    split; [rewrite H2; vm_compute; reflexivity|].
    apply (proj1 (H3 ltac:(discriminate))). rewrite H2.
    vm_compute. discriminate.
Defined.

(** ** More on confirmations *)

Section MoreConfirm.
Import Text Patterns Store.

Variable bot : string.

(** X12. The text id of a loan is the second in which it was confirmed, and
    the column is [UNIQUE]: after a committed Confirm, another Confirm
    handled within the same second, whoever writes it and whatever it
    names, is lost. Its insert is rolled back, both tables stay as they
    were and the author gets no reply. *)
Theorem confirm_in_same_second_is_lost (clk1 clk2 : Clock) (c1 c2 : Comment)
  (db db1 : DB) (rep : Reply) (g1 g2 g3 a : string) :
  process_confirm_command clk1 c1 db = (db1, Replied rep) ->
  time_time clk2 = time_time clk1 ->
  confirm_match c2 = Some (g1, g2, g3) ->
  author c2 = Some a ->
  exists db2,
    process_confirm_command clk2 c2 db1 = (db2, Caught)
    /\ loans_rows db2 = loans_rows db1
    /\ users_rows db2 = users_rows db1.
Proof.
  intros H1 Ht Hm Ha. unfold process_confirm_command in H1.
  destruct (confirm_match c1) as [[[h1 h2] h3]|]; [|discriminate].
  destruct (author c1) as [a1|]; [|discriminate].
  destruct (existsb _ _); [discriminate|].
  injection H1 as <- _. unfold process_confirm_command. rewrite Hm, Ha. simpl.
  rewrite existsb_app. simpl. rewrite Ht, Z.eqb_refl. simpl.
  rewrite orb_true_r. eexists. split; [reflexivity|]. split; reflexivity.
Qed.

Lemma select_for_payment_last (key : Z) (lender : string)
  (rows : list loans.row) (x : loans.row) :
  (forall r, In r rows -> loans.id r <> key) ->
  loans.id x = key -> loans.lender x = lender ->
  select_for_payment key lender (rows ++ [x]) = Some x.
Proof.
  intros Hrows Hid Hl. unfold select_for_payment.
  induction rows as [|r rows IH]; simpl.
  - rewrite Hid, Hl, Z.eqb_refl, String.eqb_refl. reflexivity.
  - assert (Hne : Z.eqb (loans.id r) key = false)
      by (apply Z.eqb_neq, Hrows; left; reflexivity).
    rewrite Hne. simpl. apply IH. intros r0 Hr0. apply Hrows. right. exact Hr0.
Qed.

(** X13. The id a Confirm reply gives is the id of the loan it created: in
    a reachable store, after a Confirm answered with id [db_id], the
    payment lookup for that id and the lender returns the new loan, still
    [confirmed] with nothing paid back, and every Paid command of the
    lender for that id in the loan's currency is recorded. The remaining
    balance it reports is max(r, 0), [r] being the principal minus the
    amount paid as the decimal context computes them: the exact difference
    when the amount paid and the difference have at most 28 significant
    digits each. *)
Theorem confirmed_loan_is_payable (clk : Clock) (c : Comment) (db db' : DB)
  (borrower lender : string) (amount : Q) (currency : string) (db_id : Z) :
  reachable bot db ->
  process_confirm_command clk c db =
    (db', Replied (Confirmed borrower lender amount currency db_id)) ->
  (exists loan,
     select_for_payment db_id lender (loans_rows db') = Some loan
     /\ loans.borrower loan = borrower /\ loans.amount loan = amount
     /\ loans.currency loan = currency
     /\ loans.status loan = loans.confirmed
     /\ loans.amount_repaid loan = 0%Q)
  /\ (forall clk2 c2 paid,
        pays db_id lender currency c2 paid ->
        exists db2 before after remaining,
          process_paid_command clk2 c2 db' =
            (db2, Replied (PaymentRecorded borrower lender paid currency
                             before after remaining))
          /\ (remaining ==
                Qmax (DecimalContext.sub amount (DecimalContext.add 0 paid)) 0)%Q
          /\ (DecimalContext.representable paid ->
              DecimalContext.representable (amount - paid) ->
              (remaining == Qmax (amount - paid) 0)%Q)).
Proof.
  intros Hreach H. apply reachable_ok in Hreach.
  unfold process_confirm_command in H.
  destruct (confirm_match c) as [[[h1 h2] h3]|]; [|discriminate].
  destruct (author c) as [a1|]; [|discriminate].
  destruct (existsb _ _); [discriminate|].
  injection H as <- <- <- <- <- <-. simpl loans_rows.
  set (x := new_loan _ _ _ _ _ _ _ _).
  assert (Hsel : select_for_payment (loans_id_seq db) (lower h1)
                   (loans_rows db ++ [x]) = Some x).
  { apply select_for_payment_last; [|reflexivity..].
    intros r Hr. pose proof (ids_below _ Hreach r Hr). lia. }
  split.
  - exists x. split; [exact Hsel|]. repeat split.
  - intros clk2 c2 paid (g1 & g2 & g3 & a & Hm & Ha & Hk & Hl & Hc & Hd).
    subst paid.
    set (db1 := mkDB _ _ _).
    assert (Hsel1 : select_for_payment (sql_int g1) (lower a) (loans_rows db1)
                    = Some x) by (rewrite Hk, Hl; exact Hsel).
    assert (Hread : reads_as_id (sql_int g1) db1 = true).
    { apply reads_as_id_known. rewrite Hk. simpl. lia. }
    destruct (paid_recorded clk2 c2 db1 g1 g2 g3 a x Hm Ha Hread Hsel1
                (eq_sym Hc))
      as (before & _ & Hrun).
    cbv zeta in Hrun. rewrite Hrun, Hl, Hc.
    eexists _, _, _, _. split; [reflexivity|].
    rewrite remaining_max. simpl loans.amount. simpl loans.amount_repaid.
    split; [reflexivity|].
    intros Hp Hd. apply Q.max_compat; [|reflexivity].
    assert (He : (DecimalContext.add 0 (Decimal g2) == Decimal g2)%Q).
    { unfold DecimalContext.add.
      rewrite (rounded_comp (0 + Decimal g2) (Decimal g2)) by lra.
      apply rounded_exact, Hp. }
    unfold DecimalContext.sub.
    rewrite (rounded_comp _ (Decimal h2 - Decimal g2)) by (rewrite He; reflexivity).
    apply rounded_exact, Hd.
Qed.

End MoreConfirm.

Lemma confirm_in_same_second_is_lost_witness :
  exists db2,
    process_confirm_command (mkClock 100 100999999) Scenario.self_confirm
      Scenario.db_confirmed = (db2, Caught)
    /\ loans_rows db2 = loans_rows Scenario.db_confirmed.
Proof.
  destruct (confirm_in_same_second_is_lost (Scenario.at_time 100)
              (mkClock 100 100999999) Scenario.confirm Scenario.self_confirm
              init_database Scenario.db_confirmed
              (Confirmed "bob" "alice" (5000 # 100) "USD" 1)
              "bob" "50" "USD" "bob")
    as (db2 & H1 & H2 & _).
  - vm_compute. reflexivity.
  - reflexivity.
  - reflexivity.
  - reflexivity.
  - exists db2. split; assumption.
Defined.

Lemma confirmed_loan_is_payable_witness :
  exists loan,
    Store.select_for_payment 1 "alice" (loans_rows Scenario.db_confirmed)
    = Some loan
    /\ loans.status loan = loans.confirmed.
Proof.
  destruct (confirmed_loan_is_payable Scenario.bot (Scenario.at_time 100)
              Scenario.confirm init_database Scenario.db_confirmed
              "bob" "alice" (5000 # 100) "USD" 1)
    as [(loan & H1 & _ & _ & _ & H2 & _) _].
  - apply reachable_init.
  - vm_compute. reflexivity.
  - exists loan. split; assumption.
Defined.

(** ** Stored names and currencies *)

Section NormalForms.
Import Text Regex Patterns Store.

Variable bot : string.

Lemma lower_char_idem (c : ascii) : lower_char (lower_char c) = lower_char c.
Proof. destruct c as [[] [] [] [] [] [] [] []]; reflexivity. Qed.

Lemma lower_idem (s : string) : lower (lower s) = lower s.
Proof.
  induction s as [|c s IH]; simpl; [reflexivity|].
  rewrite lower_char_idem, IH. reflexivity.
Qed.

Lemma step_normal (clk : Clock) (c : Comment) (db : DB) :
  (forall r, In r (loans_rows db) -> normal_loan r) ->
  forall r, In r (loans_rows (fst (comment_monitor bot clk c db))) ->
    normal_loan r.
Proof.
  intros Hall.
  destruct (comment_monitor_db_cases bot clk c db) as [-> | [-> | [-> | ->]]].
  - exact Hall.
  - destruct (confirm_cases clk c db)
      as [(-> & _)|(g1 & g2 & g3 & a & Hm & _ & _ & ->)]; [exact Hall|].
    simpl. intros r [Hr|[<-|[]]]%in_app_or; [apply Hall, Hr|].
    unfold normal_loan; simpl. rewrite !lower_idem.
    split; reflexivity.
  - destruct (paid_cases clk c db)
      as [->|(g1 & g2 & g3 & a & loan & _ & _ & _ & _ & ->)]; [exact Hall|].
    simpl. intros r' (r & Hr & ->)%update_loan_In.
    destruct (Z.eqb _ _); [apply (Hall r Hr) | apply Hall, Hr].
  - destruct (refund_cases bot clk c db)
      as [->|(l & b & amt & cur & result & _ & _ & _ & ->)]; [exact Hall|].
    simpl. intros r' (r & Hr & ->)%update_loan_In.
    destruct (Z.eqb _ _); [apply (Hall r Hr) | apply Hall, Hr].
Qed.

Lemma reachable_normal (db : DB) (r : loans.row) :
  reachable bot db -> In r (loans_rows db) -> normal_loan r.
Proof.
  intros Hreach. revert r. induction Hreach as [|clk c db Hreach IH].
  - intros r [].
  - apply step_normal, IH.
Qed.

(** X14. In every reachable store the lender and the borrower of every loan
    and every key of [users] are stored lower-cased: they hold no upper-case
    letter of ASCII, so lower-casing leaves them as they are. The lookups
    of the paid, refund and report code, which lower-case the names they
    are given, address the rows as they are stored. *)
Theorem stored_names_are_normal (db : DB) :
  reachable bot db ->
  (forall r, In r (loans_rows db) ->
     lower (loans.lender r) = loans.lender r
     /\ lower (loans.borrower r) = loans.borrower r)
  /\ (forall u, is_Some (users_rows db !! u) -> lower u = u).
Proof.
  intros Hreach. split.
  - intros r Hr. apply (reachable_normal db r Hreach Hr).
  - intros u Hu. apply (reachable_users_parties bot db u Hreach) in Hu
      as (r & Hr & Hp).
    destruct (reachable_normal db r Hreach Hr) as (Hl & Hb).
    destruct Hp as [<-|<-]; assumption.
Qed.

End NormalForms.

Lemma stored_names_are_normal_witness :
  is_Some (users_rows Scenario.db_confirmed !! "alice")
  /\ Text.lower "alice" = "alice".
Proof.
  assert (H : is_Some (users_rows Scenario.db_confirmed !! "alice"))
    by (vm_compute; eauto).
  split; [exact H|].
  exact (proj2 (stored_names_are_normal Scenario.bot Scenario.db_confirmed
                  db_confirmed_reachable) "alice" H).
Defined.

(** ** The tables of the report *)

Section ReportTables.
Import Text Store Report.

Lemma insert_by_date_perm (r : loans.row) (l : list loans.row) :
  Permutation (insert_by_date r l) (r :: l).
Proof.
  induction l as [|x l IH]; simpl; [reflexivity|].
  destruct (Z.ltb _ _); [|reflexivity].
  rewrite IH. apply perm_swap.
Qed.

Lemma order_by_date_desc_perm (l : list loans.row) :
  Permutation (order_by_date_desc l) l.
Proof.
  induction l as [|x l IH]; simpl; [reflexivity|].
  rewrite insert_by_date_perm, IH. reflexivity.
Qed.

Lemma insert_by_date_sorted (r : loans.row) (l : list loans.row) :
  by_date_desc l -> by_date_desc (insert_by_date r l).
Proof.
  induction l as [|x l IH]; simpl.
  - intros _. split; [intros r' []|exact I].
  - intros [Hx Hl]. destruct (Z.ltb _ _) eqn:E.
    + apply Z.ltb_lt in E. simpl. split; [|apply IH, Hl].
      intros r' Hr'.
      apply (Permutation_in _ (insert_by_date_perm r l)) in Hr'.
      destruct Hr' as [<-|Hr']; [lia | apply Hx, Hr'].
    + apply Z.ltb_ge in E. simpl. split; [|split; assumption].
      intros r' [<-|Hr']; [lia|]. specialize (Hx r' Hr'). lia.
Qed.

Lemma order_by_date_desc_sorted (l : list loans.row) :
  by_date_desc (order_by_date_desc l).
Proof.
  induction l as [|x l IH]; simpl; [exact I|].
  apply insert_by_date_sorted, IH.
Qed.

Lemma by_date_desc_firstn (n : nat) (l : list loans.row) :
  by_date_desc l ->
  by_date_desc (firstn n l)
  /\ forall r s, In r (skipn n l) -> In s (firstn n l) ->
       loans.date_created r <= loans.date_created s.
Proof.
  revert l. induction n as [|n IH]; intros l Hl; simpl.
  - split; [exact I | intros r s _ []].
  - destruct l as [|x l]; simpl; [split; [exact I | intros r s []]|].
    destruct Hl as [Hx Hl]. destruct (IH l Hl) as [H1 H2]. split.
    + split; [|exact H1]. intros r' Hr'. apply Hx.
      rewrite <- (firstn_skipn n l). apply in_or_app. auto.
    + intros r s Hr [<-|Hs]; [|apply H2; assumption].
      apply Hx. rewrite <- (firstn_skipn n l). apply in_or_app. auto.
Qed.

Lemma unpaid_as_lender_In (u : string) (rows : list loans.row) (r : loans.row) :
  In r (unpaid_as_lender u rows) <-> In r rows /\ unpaid_loan_of u r.
Proof.
  unfold unpaid_as_lender, unpaid_loan_of. rewrite filter_In, andb_true_iff.
  rewrite String.eqb_eq. reflexivity.
Qed.

(** The query behind both tables. *)
Lemma newest_unpaid_as_lender_spec (u : string) (rows : list loans.row) :
  let shown := newest_unpaid_as_lender u rows in
  let count := length (unpaid_as_lender u rows) in
  (forall r, In r shown -> In r rows /\ unpaid_loan_of u r)
  /\ length shown = Nat.min 5 count
  /\ by_date_desc shown
  /\ (forall r, In r rows -> unpaid_loan_of u r ->
        In r shown
        \/ forall s, In s shown -> loans.date_created r <= loans.date_created s)
  /\ ((count <= 5)%nat ->
        forall r, In r rows -> unpaid_loan_of u r -> In r shown).
Proof.
  cbv zeta. unfold newest_unpaid_as_lender.
  set (all := unpaid_as_lender u rows).
  set (sorted := order_by_date_desc all).
  assert (Hperm : Permutation sorted all) by apply order_by_date_desc_perm.
  destruct (by_date_desc_firstn 5 sorted (order_by_date_desc_sorted all))
    as [Hs Hrest].
  split; [|split; [|split; [exact Hs|split]]].
  - intros r Hr. apply unpaid_as_lender_In.
    apply (Permutation_in _ Hperm). rewrite <- (firstn_skipn 5 sorted).
    apply in_or_app. auto.
  - rewrite List.length_firstn. rewrite (Permutation_length Hperm). reflexivity.
  - intros r Hr Hu.
    assert (Hin : In r sorted).
    { apply (Permutation_in _ (Permutation_sym Hperm)).
      apply unpaid_as_lender_In. auto. }
    rewrite <- (firstn_skipn 5 sorted) in Hin.
    apply in_app_or in Hin as [Hin|Hin]; [auto|].
    right. intros s Hs'. apply Hrest; assumption.
  - intros Hc r Hr Hu.
    rewrite List.firstn_all2
      by (rewrite (Permutation_length Hperm); exact Hc).
    apply (Permutation_in _ (Permutation_sym Hperm)).
    apply unpaid_as_lender_In. auto.
Qed.

(** X15. The report on a user with a [users] row lists, in both of its
    tables, the same loans: loans of the table the user has lent that are
    neither [repaid] nor [refunded], at most five of them, newest first,
    and none of the unpaid loans left out is newer than a listed one. The
    count of the in-progress table is the number listed plus the number
    announced as omitted, and when nothing is omitted every unpaid loan of
    the lender is listed. No table is shown exactly when the user has no
    unpaid loan as lender. *)
Theorem report_lists_newest_unpaid (db : DB) (username : string)
  (info : UserInfo) :
  generate_user_info username db = UserInformation username info ->
  let u := lower username in
  option_map table_rows (info_unpaid_as_lender info)
    = option_map table_rows (info_in_progress info)
  /\ match info_in_progress info with
     | None => forall r, In r (loans_rows db) -> ~ unpaid_loan_of u r
     | Some t =>
         (forall r, In r (table_rows t) ->
            In r (loans_rows db) /\ unpaid_loan_of u r)
         /\ (0 < length (table_rows t) <= 5)%nat
         /\ by_date_desc (table_rows t)
         /\ (forall r, In r (loans_rows db) -> unpaid_loan_of u r ->
               In r (table_rows t)
               \/ forall s, In s (table_rows t) ->
                    loans.date_created r <= loans.date_created s)
         /\ 0 <= table_omitted t
         /\ Z.of_nat (length (table_rows t)) + table_omitted t = table_count t
         /\ (table_omitted t = 0 ->
               forall r, In r (loans_rows db) -> unpaid_loan_of u r ->
                 In r (table_rows t))
     end.
Proof.
  unfold generate_user_info.
  destruct (users_rows db !! lower username) as [st|]; [|discriminate].
  intros [= <-]. cbv zeta. simpl.
  destruct (newest_unpaid_as_lender_spec (lower username) (loans_rows db))
    as (H1 & H2 & H3 & H4 & H5).
  destruct (newest_unpaid_as_lender (lower username) (loans_rows db))
    as [|x shown] eqn:E.
  - split; [reflexivity|]. intros r Hr Hu.
    cbn [length] in H2. apply (H5 ltac:(lia) r Hr Hu).
  - split; [reflexivity|]. simpl table_rows. simpl table_omitted.
    simpl table_count.
    split; [exact H1|].
    split; [split; [cbn [length]; lia | rewrite H2; apply Nat.le_min_l]|].
    split; [exact H3|]. split; [exact H4|].
    destruct (Z.ltb _ _) eqn:Hlt; cbn [length] in *.
    + apply Z.ltb_lt in Hlt. split; [lia|]. split; [lia|]. intros Ho. lia.
    + apply Z.ltb_ge in Hlt. split; [lia|]. split; [lia|].
      intros _. apply H5. lia.
Qed.

End ReportTables.

Lemma report_lists_newest_unpaid_witness :
  exists info,
    generate_user_info "Alice" Scenario.db_partial = UserInformation "Alice" info
    /\ option_map table_rows (info_unpaid_as_lender info)
       = option_map table_rows (info_in_progress info).
Proof.
  eexists. split; [vm_compute; reflexivity|].
  apply (report_lists_newest_unpaid Scenario.db_partial "Alice").
  vm_compute. reflexivity.
Defined.

(** ** Patterns and keywords *)

Section Keywords.
Import Text Regex Patterns.

Variable bot : string.

Lemma text_chars (s : string) : text (chars s) = s.
Proof. apply string_of_list_ascii_of_string. Qed.

Lemma text_app (a b : list ascii) : text (a ++ b) = (text a ++ text b)%string.
Proof. induction a as [|c a IH]; simpl; [reflexivity|]. rewrite IH. reflexivity. Qed.

Lemma lower_app (x y : string) : lower (x ++ y) = (lower x ++ lower y)%string.
Proof. induction x as [|c x IH]; simpl; [reflexivity|]. rewrite IH. reflexivity. Qed.

Lemma starts_with_app (n x y : string) :
  starts_with n x = true -> starts_with n (x ++ y) = true.
Proof.
  revert x. induction n as [|a n IH]; intros x; [reflexivity|].
  destruct x as [|b x]; simpl; [discriminate|].
  destruct (Ascii.eqb a b); simpl; [apply IH | discriminate].
Qed.

Lemma contains_app_r (n x y : string) :
  contains n x = true -> contains n (x ++ y) = true.
Proof.
  induction x as [|b x IH]; simpl.
  - rewrite orb_false_r. intros H.
    destruct n; [destruct y; reflexivity | discriminate].
  - intros [H|H]%orb_prop.
    + apply (starts_with_app n (String b x) y) in H.
      change (String b x ++ y)%string with (String b (x ++ y)) in H.
      rewrite H. reflexivity.
    + rewrite (IH H). apply orb_true_r.
Qed.

Lemma contains_app_l (n x y : string) :
  contains n y = true -> contains n (x ++ y) = true.
Proof.
  intros H. induction x as [|b x IH]; simpl; [exact H|].
  rewrite IH. apply orb_true_r.
Qed.

(** A piece of a text carries no keyword the text does not carry. *)
Lemma contains_infix (n : string) (pre sub post : list ascii) :
  contains n (lower (text sub)) = true ->
  contains n (lower (text (pre ++ sub ++ post))) = true.
Proof.
  intros H. rewrite !text_app, !lower_app.
  apply contains_app_l, contains_app_r, H.
Qed.

Lemma lit_ci_starts (p s rest : list ascii) :
  lit true p s = Some rest ->
  starts_with (lower (text p)) (lower (text s)) = true.
Proof.
  revert s. induction p as [|a p IH]; intros s; [reflexivity|].
  destruct s as [|b s]; simpl; [discriminate|].
  destruct (Ascii.eqb (lower_char a) (lower_char b)); simpl;
    [apply IH | discriminate].
Qed.

Lemma search_contains {A : Type} (m : list ascii -> option A) (needle : string)
  (l : list ascii) (r : A) :
  (forall s x, m s = Some x -> starts_with needle (lower (text s)) = true) ->
  search m l = Some r -> contains needle (lower (text l)) = true.
Proof.
  intros Hm. induction l as [|c l IH]; simpl.
  - destruct (m []) eqn:E; [|discriminate]. intros _.
    apply Hm in E. simpl in E. rewrite E. reflexivity.
  - destruct (m (c :: l)) eqn:E.
    + intros _. apply Hm in E. simpl in E. rewrite E. reflexivity.
    + intros H. rewrite (IH H). apply orb_true_r.
Qed.

(** A search for a pattern that opens with the literal [kw], itself in
    lower case, succeeds only on a text that carries [kw]. *)
Lemma keyword_search {A : Type} (kw : string) (k : list ascii -> option A)
  (subject : string) (r : A) :
  lower kw = kw ->
  search (fun s => s' ← lit true (chars kw) s; k s') (chars subject) = Some r ->
  contains kw (lower subject) = true.
Proof.
  intros Hkw H. rewrite <- (text_chars subject).
  eapply search_contains; [|exact H].
  intros s x Hs. cbv beta in Hs.
  destruct (lit true (chars kw) s) as [s'|] eqn:E; [|discriminate Hs].
  apply lit_ci_starts in E. rewrite text_chars, Hkw in E. exact E.
Qed.

Lemma lit_split (ci : bool) (p s rest : list ascii) :
  lit ci p s = Some rest -> exists q, s = (q ++ rest)%list.
Proof.
  revert s. induction p as [|a p IH]; intros s; simpl.
  - intros [= <-]. exists []. reflexivity.
  - destruct s as [|b s]; [discriminate|].
    destruct (if ci then _ else _); [|discriminate].
    intros H. destruct (IH s H) as [q ->]. exists (b :: q). reflexivity.
Qed.

Lemma after_first_suffix (p s rest : list ascii) :
  after_first p s = Some rest -> exists q, s = (q ++ rest)%list.
Proof.
  induction s as [|c s IH]; simpl.
  - destruct (lit false p []) eqn:E; [|discriminate].
    intros [= <-]. eapply lit_split, E.
  - destruct (lit false p (c :: s)) eqn:E.
    + intros [= <-]. eapply lit_split, E.
    + intros H. destruct (IH H) as [q ->]. exists (c :: q). reflexivity.
Qed.

Lemma before_first_prefix (p s inner : list ascii) :
  before_first p s = Some inner -> exists post, s = (inner ++ post)%list.
Proof.
  revert inner. induction s as [|c s IH]; intros inner; simpl.
  - destruct (lit false p []); [|discriminate]. intros [= <-]. exists []. reflexivity.
  - destruct (lit false p (c :: s)).
    + intros [= <-]. exists (c :: s). reflexivity.
    + destruct (before_first p s) as [i|]; simpl; [|discriminate].
      intros [= <-]. destruct (IH i eq_refl) as [post ->].
      exists post. reflexivity.
Qed.

Lemma span_app (p : ascii -> bool) (s : list ascii) :
  s = (fst (span p s) ++ snd (span p s))%list.
Proof.
  induction s as [|c s IH]; simpl; [reflexivity|].
  destruct (p c); [|reflexivity].
  destruct (span p s) as [a b]. simpl in *. rewrite <- IH. reflexivity.
Qed.

Lemma rstrip_prefix (s : list ascii) : exists post, s = (rstrip s ++ post)%list.
Proof.
  induction s as [|c s [post IH]]; simpl; [exists []; reflexivity|].
  destruct (rstrip s) as [|d t] eqn:E.
  - destruct (is_space c); [exists (c :: s) | exists s]; reflexivity.
  - exists post. simpl. rewrite IH at 1. reflexivity.
Qed.

(** The text searched for a confirm or paid command is a piece of the
    body. *)
Lemma text_to_search_infix (body : string) :
  exists pre post,
    chars body = (pre ++ chars (text_to_search body) ++ post)%list.
Proof.
  unfold text_to_search, code_block_regex.
  destruct (after_first fence (chars body)) as [opened|] eqn:E1; simpl.
  2:{ exists [], []. rewrite app_nil_r. reflexivity. }
  destruct (before_first fence (snd (span is_space opened))) as [inner|] eqn:E2;
    simpl.
  2:{ exists [], []. rewrite app_nil_r. reflexivity. }
  apply after_first_suffix in E1 as [q ->].
  apply before_first_prefix in E2 as [post2 E2].
  destruct (rstrip_prefix inner) as [post1 E3].
  exists (q ++ fst (span is_space opened))%list, (post1 ++ post2)%list.
  replace (chars (text (rstrip inner))) with (rstrip inner)
    by (symmetry; apply list_ascii_of_string_of_list_ascii).
  rewrite (span_app is_space opened) at 1. rewrite E2. rewrite E3 at 1.
  rewrite <- !app_assoc. reflexivity.
Qed.

Lemma text_to_search_keyword (kw body : string) :
  contains kw (lower (text_to_search body)) = true ->
  contains kw (lower body) = true.
Proof.
  intros H. destruct (text_to_search_infix body) as (pre & post & E).
  rewrite <- (text_chars body), E. apply contains_infix.
  rewrite text_chars. exact H.
Qed.

Lemma command_mentions (h : Handler) (c : Comment) :
  command_for h c -> mentions c h = true.
Proof.
  unfold mentions. destruct h; simpl.
  - destruct (loan_regex (body c)) as [r|] eqn:E; [intros _|congruence].
    unfold loan_regex in E.
    apply (keyword_search "$loan" _ (body c) r eq_refl E).
  - destruct (confirm_match c) as [r|] eqn:E; [intros _|congruence].
    apply text_to_search_keyword.
    unfold confirm_match, confirm_regex, alt_confirm_regex in E.
    destruct (confirm_with "/u/" (text_to_search (body c))) as [r1|] eqn:E1.
    + unfold confirm_with in E1.
      apply (keyword_search "$confirm" _ _ r1 eq_refl E1).
    + unfold confirm_with in E.
      apply (keyword_search "$confirm" _ _ r eq_refl E).
  - destruct (paid_regex _) as [r|] eqn:E; [intros _|congruence].
    apply text_to_search_keyword. unfold paid_regex in E.
    apply (keyword_search "$paid_with_id" _ _ r eq_refl E).
  - intros H. exact H.
  - destruct (stats_regex (body c)) as [r|] eqn:E; [intros _|congruence].
    unfold stats_regex in E.
    apply (keyword_search "$stats" _ (body c) r eq_refl E).
Qed.

(** X16. On a comment written in ASCII the keyword test of the loop never
    hides a command from its own handler: a comment matched by the pattern
    of a handler (searched in the first code block for Confirm and Paid)
    carries that handler's keyword in its lower-cased body. So a command
    that is not passed over and carries no keyword of an earlier handler is
    handed to its handler, and to that one only. (Beyond ASCII the patterns
    match letters the keyword test does not, see [Regex.lit].) *)
Theorem commands_reach_their_handler (h : Handler) (clk : Clock) (c : Comment)
  (db : DB) :
  is_ascii (body c) = true ->
  command_for h c ->
  mentions c h = true
  /\ (skipped bot c = false ->
      (forall h', (rank h' < rank h)%nat -> mentions c h' = false) ->
      comment_monitor bot clk c db = call bot h clk c db).
Proof.
  intros _ Hc. pose proof (command_mentions h c Hc) as Hm.
  split; [exact Hm|]. intros Hs He.
  destruct (comment_monitor_selects bot clk c db)
    as [[Hs' _]|[(_ & Hnone & _)|(h0 & Hsel & ->)]].
  - congruence.
  - rewrite Hnone in Hm. discriminate.
  - rewrite (selected_unique bot c h0 h Hsel); [reflexivity|].
    split; [exact Hs|]. split; assumption.
Qed.

End Keywords.

Lemma commands_reach_their_handler_witness :
  comment_monitor Scenario.bot (Scenario.at_time 200) Scenario.paid_20
    Scenario.db_confirmed
  = call Scenario.bot paid_command (Scenario.at_time 200) Scenario.paid_20
      Scenario.db_confirmed.
Proof.
  apply (proj2 (commands_reach_their_handler Scenario.bot paid_command
                  (Scenario.at_time 200) Scenario.paid_20 Scenario.db_confirmed
                  eq_refl ltac:(discriminate))).
  - reflexivity.
  - intros h' Hlt. destruct h'; simpl in Hlt; try lia; reflexivity.
Defined.

(** ** The text searched for a command *)

Section CodeBlock.
Import Text Regex Patterns.

Lemma lit_starts (p s rest : list ascii) :
  lit false p s = Some rest -> starts_with (text p) (text s) = true.
Proof.
  revert s. induction p as [|a p IH]; intros s; [reflexivity|].
  destruct s as [|b s]; simpl; [discriminate|].
  destruct (Ascii.eqb a b); simpl; [apply IH | discriminate].
Qed.

Lemma after_first_contains (p l rest : list ascii) :
  after_first p l = Some rest -> contains (text p) (text l) = true.
Proof.
  induction l as [|c l IH]; simpl.
  - destruct (lit false p []) eqn:E; [|discriminate]. intros _.
    apply lit_starts in E. simpl in E. rewrite E. reflexivity.
  - destruct (lit false p (c :: l)) eqn:E.
    + intros _. apply lit_starts in E. simpl in E. rewrite E. reflexivity.
    + intros H. rewrite (IH H). apply orb_true_r.
Qed.



Lemma lit_exact (p s rest : list ascii) :
  lit false p s = Some rest <-> s = (p ++ rest)%list.
Proof.
  revert s. induction p as [|a p IH]; intros s; simpl.
  - split; [intros [= ->]; reflexivity | intros ->; reflexivity].
  - destruct s as [|b s]; [split; discriminate|].
    destruct (Ascii.eqb_spec a b) as [->|Hne].
    + rewrite IH. split; [intros ->; reflexivity | intros [= ->]; reflexivity].
    + split; [discriminate | intros [= <- _]; congruence].
Qed.

Lemma first_at_here (p s post : list ascii) :
  s = (p ++ post)%list -> first_at p [] s.
Proof.
  intros ->. split; [exists post; reflexivity|]. intros pre' post' _. simpl. lia.
Qed.

Lemma first_at_later (p pre t : list ascii) (c : ascii) :
  lit false p (c :: t) = None -> first_at p pre t -> first_at p (c :: pre) (c :: t).
Proof.
  intros Hlit [[post ->] Hmin]. split; [exists post; reflexivity|].
  intros pre' post' E. destruct pre' as [|c' pre'].
  - simpl in E. apply lit_exact in E. congruence.
  - simpl in E. injection E as _ E. simpl. specialize (Hmin pre' post' E). lia.
Qed.

Lemma first_at_tail (p pre t : list ascii) (c : ascii) :
  first_at p (c :: pre) (c :: t) ->
  lit false p (c :: t) = None /\ first_at p pre t.
Proof.
  intros [[post E] Hmin]. split.
  - destruct (lit false p (c :: t)) as [r|] eqn:El; [|reflexivity].
    apply lit_exact in El. specialize (Hmin [] r El). simpl in Hmin. lia.
  - simpl in E. injection E as E. split; [exists post; exact E|].
    intros pre' post' E'.
    specialize (Hmin (c :: pre') post'). simpl in Hmin.
    rewrite E' in Hmin. specialize (Hmin eq_refl). lia.
Qed.

Lemma after_first_found (p s rest : list ascii) :
  after_first p s = Some rest ->
  exists pre, s = (pre ++ p ++ rest)%list /\ first_at p pre s.
Proof.
  induction s as [|c t IH]; simpl.
  - destruct (lit false p []) as [r|] eqn:El; [|discriminate].
    intros [= ->]. apply lit_exact in El. exists [].
    split; [exact El | eapply first_at_here, El].
  - destruct (lit false p (c :: t)) as [r|] eqn:El.
    + intros [= ->]. apply lit_exact in El. exists [].
      split; [exact El | eapply first_at_here, El].
    + intros H. destruct (IH H) as (pre & E & Hf). exists (c :: pre).
      split; [simpl; rewrite <- E; reflexivity | apply first_at_later; assumption].
Qed.

Lemma after_first_finds (p pre rest : list ascii) :
  first_at p pre (pre ++ p ++ rest)%list ->
  after_first p (pre ++ p ++ rest)%list = Some rest.
Proof.
  induction pre as [|c pre IH]; intros Hf.
  - simpl app. assert (El : lit false p (p ++ rest)%list = Some rest)
      by (apply lit_exact; reflexivity).
    destruct (p ++ rest)%list; simpl; rewrite El; reflexivity.
  - simpl app in *. apply first_at_tail in Hf as [El Hf].
    simpl. rewrite El. apply IH, Hf.
Qed.

Lemma before_first_found (p s inner : list ascii) :
  before_first p s = Some inner -> first_at p inner s.
Proof.
  revert inner. induction s as [|c t IH]; intros inner; simpl.
  - destruct (lit false p []) as [r|] eqn:El; [|discriminate].
    intros [= <-]. apply lit_exact in El. eapply first_at_here, El.
  - destruct (lit false p (c :: t)) as [r|] eqn:El.
    + intros [= <-]. apply lit_exact in El. eapply first_at_here, El.
    + destruct (before_first p t) as [i|]; simpl; [|discriminate].
      intros [= <-]. apply first_at_later; [exact El | apply IH; reflexivity].
Qed.

Lemma before_first_finds (p inner post : list ascii) :
  first_at p inner (inner ++ p ++ post)%list ->
  before_first p (inner ++ p ++ post)%list = Some inner.
Proof.
  induction inner as [|c inner IH]; intros Hf.
  - simpl app. assert (El : lit false p (p ++ post)%list = Some post)
      by (apply lit_exact; reflexivity).
    destruct (p ++ post)%list; simpl; rewrite El; reflexivity.
  - simpl app in *. apply first_at_tail in Hf as [El Hf].
    simpl. rewrite El, (IH Hf). reflexivity.
Qed.

Lemma span_found (p : ascii -> bool) (s : list ascii) :
  forallb p (fst (span p s)) = true
  /\ forall c r, snd (span p s) = c :: r -> p c = false.
Proof.
  induction s as [|x s [IH1 IH2]]; simpl; [split; [reflexivity | discriminate]|].
  destruct (p x) eqn:E.
  - destruct (span p s) as [a b]. simpl in *. rewrite E. split; assumption.
  - simpl. split; [reflexivity|]. intros c r [= <- _]. exact E.
Qed.

Lemma span_finds (p : ascii -> bool) (ws rest : list ascii) :
  forallb p ws = true -> (forall c r, rest = c :: r -> p c = false) ->
  span p (ws ++ rest)%list = (ws, rest).
Proof.
  intros Hws Hrest. induction ws as [|x ws IH].
  - destruct rest as [|c r]; [reflexivity|].
    pose proof (Hrest c r eq_refl) as Hc. simpl. rewrite Hc. reflexivity.
  - simpl in Hws. apply andb_prop in Hws as [Hx Hws].
    simpl. rewrite Hx, (IH Hws). reflexivity.
Qed.

Lemma fenced_block (body : string) (pre ws mid post : list ascii) :
  fenced body pre ws mid post ->
  code_block_regex body = Some (text (rstrip mid)).
Proof.
  intros (E & Hpre & Hws & Hmid & Hclose). unfold code_block_regex.
  rewrite E in Hpre |- *. rewrite (after_first_finds _ _ _ Hpre).
  assert (Hspan : span is_space (ws ++ mid ++ fence ++ post)%list
                  = (ws, (mid ++ fence ++ post)%list)).
  { apply span_finds; [exact Hws|].
    intros c r Hc. destruct mid as [|m mid].
    - simpl in Hc. injection Hc as <- _. reflexivity.
    - simpl in Hc. injection Hc as <- _. apply (Hmid m mid eq_refl). }
  cbn [mbind option_bind]. rewrite Hspan. cbn [snd].
  rewrite (before_first_finds _ _ _ Hclose). reflexivity.
Qed.

Lemma block_fenced (body block : string) :
  code_block_regex body = Some block ->
  exists pre ws mid post,
    fenced body pre ws mid post /\ block = text (rstrip mid).
Proof.
  unfold code_block_regex.
  destruct (after_first fence (chars body)) as [opened|] eqn:E1; simpl;
    [|discriminate].
  destruct (before_first fence (snd (span is_space opened))) as [inner|] eqn:E2;
    simpl; [|discriminate].
  intros [= <-].
  apply after_first_found in E1 as (pre & E1 & Hpre).
  apply before_first_found in E2.
  destruct (span_found is_space opened) as [Hws Hrest].
  pose proof (span_app is_space opened) as Hsplit.
  destruct E2 as [[post E2] Hmin].
  exists pre, (fst (span is_space opened)), inner, post.
  split; [|reflexivity]. split; [|split; [|split; [|split]]].
  - rewrite E1, Hsplit at 1. rewrite E2. reflexivity.
  - exact Hpre.
  - exact Hws.
  - intros c r ->. rewrite E2 in Hrest. apply (Hrest c (r ++ fence ++ post)%list).
    reflexivity.
  - rewrite <- E2. split; [exists post; exact E2 | exact Hmin].
Qed.

(** X17. Where a confirm or paid command is looked for, in a body written
    in ASCII. If the body holds its first code fence, white space, a text
    [mid] that does not open with white space, and then the next fence,
    the command is looked for in [mid] without its trailing white space and
    nowhere else. If the body is not of that form (no fence, or a first
    fence that is never closed) it is looked for in the whole body. *)
Theorem search_text_is_first_block (body : string) :
  is_ascii body = true ->
  (contains "```" body = false -> text_to_search body = body)
  /\ (forall pre ws mid post,
        fenced body pre ws mid post ->
        text_to_search body = text (rstrip mid))
  /\ ((forall pre ws mid post, ~ fenced body pre ws mid post) ->
      text_to_search body = body).
Proof.
  intros _. split; [|split].
  - intros Hno. unfold text_to_search, code_block_regex.
    destruct (after_first fence (chars body)) as [opened|] eqn:E;
      [|reflexivity].
    apply after_first_contains in E.
    rewrite string_of_list_ascii_of_string in E. simpl in E.
    unfold text in E. simpl in E. congruence.
  - intros pre ws mid post Hf. unfold text_to_search.
    rewrite (fenced_block _ _ _ _ _ Hf). reflexivity.
  - intros Hno. unfold text_to_search.
    destruct (code_block_regex body) as [block|] eqn:E; [|reflexivity].
    apply block_fenced in E as (pre & ws & mid & post & Hf & _).
    destruct (Hno pre ws mid post Hf).
Qed.

End CodeBlock.

Lemma search_text_is_first_block_witness :
  Patterns.text_to_search Sample.fenced_confirm = "$confirm /u/alice 50.00 USD"
  /\ Patterns.text_to_search "$confirm /u/alice 50.00 USD"
     = "$confirm /u/alice 50.00 USD".
Proof.
  split.
  - apply (proj1 (proj2 (search_text_is_first_block Sample.fenced_confirm
                           eq_refl))
             (Text.chars "ok ") (Text.chars " ")
             (Text.chars "$confirm /u/alice 50.00 USD  ")
             (Text.chars " thanks")).
    split; [reflexivity|]. split; [|split; [|split]].
    + apply before_first_found. reflexivity.
    + reflexivity.
    + intros c rest [= <- _]. reflexivity.
    + apply before_first_found. reflexivity.
  - apply (proj1 (search_text_is_first_block "$confirm /u/alice 50.00 USD"
                    eq_refl)).
    reflexivity.
Defined.

(** ** The loan aggregates never overstate *)

Section Bounded.
Import Text Patterns Store.

Variable bot : string.

Lemma count_where_app (p : loans.row -> bool) (l1 l2 : list loans.row) :
  count_where p (l1 ++ l2) = count_where p l1 + count_where p l2.
Proof. induction l1 as [|r l1 IH]; simpl; [reflexivity|]. rewrite IH. lia. Qed.

Lemma principal_where_app (p : loans.row -> bool) (l1 l2 : list loans.row) :
  (principal_where p (l1 ++ l2) == principal_where p l1 + principal_where p l2)%Q.
Proof. induction l1 as [|r l1 IH]; simpl; [lra|]. rewrite IH. lra. Qed.

Lemma count_where_update (p : loans.row -> bool) (key : Z)
  (f : loans.row -> loans.row) (rows : list loans.row) :
  (forall r, p (f r) = p r) ->
  count_where p (update_loan key f rows) = count_where p rows.
Proof.
  intros Hp. induction rows as [|r rows IH]; simpl; [reflexivity|].
  rewrite IH. destruct (Z.eqb _ _); rewrite ?Hp; reflexivity.
Qed.

Lemma principal_where_update (p : loans.row -> bool) (key : Z)
  (f : loans.row -> loans.row) (rows : list loans.row) :
  (forall r, p (f r) = p r) -> (forall r, loans.amount (f r) = loans.amount r) ->
  principal_where p (update_loan key f rows) = principal_where p rows.
Proof.
  intros Hp Ha. induction rows as [|r rows IH]; simpl; [reflexivity|].
  rewrite IH. destruct (Z.eqb _ _); rewrite ?Hp, ?Ha; reflexivity.
Qed.

Lemma eqb_decide (a u : string) :
  String.eqb a u = if decide (a = u) then true else false.
Proof.
  destruct (decide (a = u)) as [->|Hne];
    [apply String.eqb_refl | apply String.eqb_neq, Hne].
Qed.

Lemma confirm_bounded (clk : Clock) (c : Comment) (db : DB) (u : string) :
  aggregates_bounded db u ->
  aggregates_bounded (fst (process_confirm_command clk c db)) u.
Proof.
  intros Hb. destruct (confirm_cases clk c db)
    as [(Hl & Hu & _)|(g1 & g2 & g3 & a & _ & _ & _ & ->)].
  - unfold aggregates_bounded, user_or_default in *. rewrite Hl, Hu. exact Hb.
  - unfold aggregates_bounded, user_or_default in *. simpl.
    rewrite !count_where_app, !principal_where_app. simpl.
    unfold lent_by at 2 4, borrowed_by at 2 4. simpl.
    rewrite !upsert_user_lookup, !eqb_decide.
    pose proof (Decimal_nonneg g2).
    destruct Hb as (H1 & H2 & H3 & H4).
    destruct (decide (lower a = u)), (decide (lower g1 = u));
      destruct (users_rows db !! u); simpl in *;
      (split; [lia|split; [lra|split; [lia|lra]]]).
Qed.

Lemma paid_bounded (clk : Clock) (c : Comment) (db : DB) (u : string) :
  aggregates_bounded db u ->
  aggregates_bounded (fst (process_paid_command clk c db)) u.
Proof.
  intros Hb. destruct (paid_cases clk c db)
    as [->|(g1 & g2 & g3 & a & loan & _ & _ & _ & _ & ->)]; [exact Hb|].
  unfold aggregates_bounded, user_or_default in *. simpl.
  rewrite !count_where_update, !principal_where_update by reflexivity.
  unfold users_after_paid.
  destruct (loans.status_eqb _ _); rewrite !update_user_lookup;
    destruct (decide (loans.borrower loan = u));
    destruct (users_rows db !! u); simpl in *; exact Hb.
Qed.

Lemma refund_bounded (clk : Clock) (c : Comment) (db : DB) (u : string) :
  ledger_ok db ->
  aggregates_bounded db u ->
  aggregates_bounded (fst (process_refund_command bot clk c db)) u.
Proof.
  intros Hok Hb. destruct (refund_cases bot clk c db)
    as [->|(l & b & amt & cur & result & _ & Hamt & _ & ->)]; [exact Hb|].
  unfold aggregates_bounded, user_or_default in *. simpl.
  rewrite !count_where_update, !principal_where_update by reflexivity.
  rewrite !update_user_lookup.
  destruct (users_rows db !! u) as [r|] eqn:E.
  2:{ destruct (decide (b = u)), (decide (l = u)); simpl; exact Hb. }
  destruct (users_ok _ Hok u r E) as (N1 & N2 & N3 & N4 & _).
  pose proof (GREATEST_le (users.amount_lent r) amt N4 Hamt).
  pose proof (GREATEST_le (users.amount_borrowed r) amt N3 Hamt).
  destruct Hb as (H1 & H2 & H3 & H4).
  destruct (decide (b = u)), (decide (l = u)); simpl in *;
    (split; [lia|split; [lra|split; [lia|lra]]]).
Qed.

(** X18. The loan aggregates never overstate the table: in every reachable
    store a user's [loans_as_lender] and [loans_as_borrower] are at most
    the number of loans the user has lent and borrowed, and [amount_lent]
    and [amount_borrowed] at most the principal of those loans; Confirm
    raises both sides together and the only other writes, the refund's, go
    down. *)
Theorem aggregates_never_overstate (db : DB) (u : string) :
  reachable bot db ->
  users.loans_as_lender (user_or_default db u)
    <= count_where (lent_by u) (loans_rows db)
  /\ (users.amount_lent (user_or_default db u)
        <= principal_where (lent_by u) (loans_rows db))%Q
  /\ users.loans_as_borrower (user_or_default db u)
       <= count_where (borrowed_by u) (loans_rows db)
  /\ (users.amount_borrowed (user_or_default db u)
        <= principal_where (borrowed_by u) (loans_rows db))%Q.
Proof.
  intros Hreach. change (aggregates_bounded db u).
  induction Hreach as [|clk c db Hreach IH].
  - unfold aggregates_bounded, user_or_default. simpl. rewrite lookup_empty.
    simpl. repeat split; try lia; lra.
  - destruct (comment_monitor_db_cases bot clk c db) as [-> | [-> | [-> | ->]]].
    + exact IH.
    + apply confirm_bounded, IH.
    + apply paid_bounded, IH.
    + apply refund_bounded; [apply reachable_ok with bot, Hreach | exact IH].
Qed.

End Bounded.

Lemma aggregates_never_overstate_witness :
  users.loans_as_lender (user_or_default Scenario.db_refunded "alice")
  <= count_where (lent_by "alice") (loans_rows Scenario.db_refunded).
Proof.
  exact (proj1 (aggregates_never_overstate Scenario.bot Scenario.db_refunded
                  "alice" db_refunded_reachable)).
Defined.

(** ** The constraints of the schema *)

Section Schema.
Import Text Patterns Store.

Variable bot : string.

Lemma update_loan_loan_ids (key : Z) (f : loans.row -> loans.row)
  (rows : list loans.row) :
  (forall r, loans.loan_id (f r) = loans.loan_id r) ->
  map loans.loan_id (update_loan key f rows) = map loans.loan_id rows.
Proof.
  intros Hf. unfold update_loan. rewrite map_map. apply map_ext.
  intros r. destruct (Z.eqb _ _); [apply Hf | reflexivity].
Qed.

Lemma step_loan_ids (clk : Clock) (c : Comment) (db : DB) :
  List.NoDup (map loans.loan_id (loans_rows db))
  /\ (forall r, In r (loans_rows db) -> 1 <= loans.id r)
  /\ 1 <= loans_id_seq db ->
  List.NoDup (map loans.loan_id
                (loans_rows (fst (comment_monitor bot clk c db))))
  /\ (forall r, In r (loans_rows (fst (comment_monitor bot clk c db))) ->
        1 <= loans.id r)
  /\ 1 <= loans_id_seq (fst (comment_monitor bot clk c db)).
Proof.
  intros (Hn & Hpos & Hseq).
  destruct (comment_monitor_db_cases bot clk c db) as [-> | [-> | [-> | ->]]].
  - auto.
  - destruct (confirm_cases clk c db)
      as [(-> & _ & Hle)|(g1 & g2 & g3 & a & _ & _ & Hfresh & ->)].
    + split; [exact Hn|]. split; [exact Hpos | lia].
    + simpl. split; [|split; [|lia]].
      * rewrite map_app. simpl. apply List.NoDup_app; [exact Hn| |].
        -- constructor; [intros []|constructor].
        -- intros x Hx [<-|[]]. apply in_map_iff in Hx as (r & Hid & Hr).
           destruct (Hfresh r Hr) as [Hne _]. contradiction.
      * intros r [Hr|[<-|[]]]%in_app_or; [apply Hpos, Hr | simpl; lia].
  - destruct (paid_cases clk c db)
      as [->|(g1 & g2 & g3 & a & loan & _ & _ & _ & _ & ->)]; [auto|].
    simpl. rewrite update_loan_loan_ids by reflexivity.
    split; [exact Hn|]. split; [|exact Hseq].
    intros r' (r & Hr & ->)%update_loan_In.
    specialize (Hpos r Hr). destruct (Z.eqb _ _); simpl; lia.
  - destruct (refund_cases bot clk c db)
      as [->|(l & b & amt & cur & result & _ & _ & _ & ->)]; [auto|].
    simpl. rewrite update_loan_loan_ids by reflexivity.
    split; [exact Hn|]. split; [|exact Hseq].
    intros r' (r & Hr & ->)%update_loan_In.
    specialize (Hpos r Hr). destruct (Z.eqb _ _); simpl; lia.
Qed.

(** X19. Every reachable store satisfies the constraints of the schema: no
    two loans share an [id] (the primary key) or a [loan_id] (the unique
    column), every [id] is at least 1 and below the next value of the
    sequence, so the insert of a Confirm can only fail on the [loan_id],
    that is on a second Confirm within one second. *)
Theorem schema_constraints_hold (db : DB) :
  reachable bot db ->
  List.NoDup (map loans.id (loans_rows db))
  /\ List.NoDup (map loans.loan_id (loans_rows db))
  /\ (forall r, In r (loans_rows db) -> 1 <= loans.id r < loans_id_seq db)
  /\ (forall clk c,
        snd (process_confirm_command clk c db) = Caught ->
        exists r, In r (loans_rows db) /\ loans.loan_id r = time_time clk).
Proof.
  intros Hreach. pose proof (reachable_ok bot db Hreach) as Hok.
  assert (H : List.NoDup (map loans.loan_id (loans_rows db))
              /\ (forall r, In r (loans_rows db) -> 1 <= loans.id r)
              /\ 1 <= loans_id_seq db).
  { clear Hok. induction Hreach as [|clk c db Hreach IH].
    - simpl. split; [constructor|]. split; [intros r []|lia].
    - apply step_loan_ids, IH. }
  destruct H as (Hn & Hpos & _).
  split; [apply (ids_unique _ Hok)|]. split; [exact Hn|]. split.
  - intros r Hr. split; [apply Hpos, Hr | apply (ids_below _ Hok), Hr].
  - intros clk c. unfold process_confirm_command.
    destruct (confirm_match c) as [[[g1 g2] g3]|]; [|discriminate].
    destruct (author c) as [a|]; [|discriminate].
    destruct (existsb _ _) eqn:E; [|discriminate]. intros _.
    apply existsb_exists in E as (r & Hr & Hor). exists r. split; [exact Hr|].
    apply orb_prop in Hor as [H|H]; apply Z.eqb_eq in H; [exact H|].
    pose proof (ids_below _ Hok r Hr). lia.
Qed.

End Schema.

Lemma schema_constraints_hold_witness :
  List.NoDup (map loans.id (loans_rows Sample.db_twin))
  /\ List.NoDup (map loans.loan_id (loans_rows Sample.db_twin)).
Proof.
  destruct (schema_constraints_hold Scenario.bot Sample.db_twin
              db_twin_reachable) as (H1 & H2 & _).
  split; assumption.
Defined.
